(** * Loom: a shallow embedding of the pattern recommender, the spawn manager,
      the spawn_agent tool, the data-directory lookup and the LLM semaphore.

    Go values are modelled as follows.
    - [string] is a byte string (Go strings are byte sequences).
    - [float64] is Rocq's primitive binary64 [float]; comparisons and
      subtraction are the IEEE 754 ones, as in Go.
    - a Go map is a stdpp [gmap]; a slice is a [list].
    - a Go [(value, error)] result is a sum [E + A], [inl] carrying the error;
      a possibly nil pointer or interface is an [option].
    - code that talks to collaborators (message bus, session store, registry,
      clock) threads an explicit world state [W] and reaches the collaborators
      through an interface class. *)

From Stdlib Require Import Floats Ascii String.
From stdpp Require Import gmap strings list pretty.

Set Default Proof Using "Type*".
#[local] Open Scope string_scope.

(** ** Binary64 comparisons

    Go's [<] and [>] on float64 are IEEE comparisons: any comparison with a
    NaN is false.  The lemmas below go through the specification of the
    primitive operations on [spec_float]. *)

Module F64.

Definition lt (x y : float) : bool := PrimFloat.ltb x y.
Definition gt (x y : float) : bool := PrimFloat.ltb y x.
Definition le (x y : float) : bool := PrimFloat.leb x y.
Definition isNaN (x : float) : bool := PrimFloat.is_nan x.

#[global] Arguments lt : simpl never.
#[global] Arguments gt : simpl never.
#[global] Arguments le : simpl never.
#[global] Arguments isNaN : simpl never.

Lemma SFcompare_antisym (a b : spec_float) :
  SFcompare a b = option_map CompOpp (SFcompare b a).
Proof.
  destruct a as [sa|sa| |sa ma ea], b as [sb|sb| |sb mb eb]; simpl;
    try reflexivity;
    try (destruct sa; reflexivity); try (destruct sb; reflexivity);
    try (destruct sa, sb; reflexivity).
  destruct sa, sb; simpl; try reflexivity;
    rewrite (Z.compare_antisym eb ea);
    destruct (eb ?= ea)%Z; simpl; try reflexivity;
    rewrite (Pos.compare_cont_antisym mb ma Eq); reflexivity.
Qed.

Lemma isNaN_false_spec (x : float) :
  isNaN x = false → Prim2SF x ≠ S754_nan.
Proof.
  unfold isNaN, PrimFloat.is_nan. rewrite FloatAxioms.eqb_spec. unfold SFeqb.
  intros H Hn. rewrite Hn in H. simpl in H. discriminate.
Qed.

Lemma SFcompare_defined (a b : spec_float) :
  a ≠ S754_nan → b ≠ S754_nan → ∃ c, SFcompare a b = Some c.
Proof.
  intros Ha Hb.
  destruct a as [sa|sa| |sa ma ea], b as [sb|sb| |sb mb eb];
    simpl; try congruence; eauto.
Qed.

(** On numbers (no NaN), [not (x < y)] is [y <= x]. *)
Lemma not_lt_le (x y : float) :
  isNaN x = false → isNaN y = false → lt x y = false → le y x = true.
Proof.
  intros Hx%isNaN_false_spec Hy%isNaN_false_spec.
  unfold lt, le. rewrite FloatAxioms.ltb_spec, FloatAxioms.leb_spec. unfold SFltb, SFleb.
  rewrite (SFcompare_antisym (Prim2SF y) (Prim2SF x)).
  destruct (SFcompare_defined _ _ Hx Hy) as [c ->]. simpl.
  destruct c; simpl; congruence.
Qed.

End F64.

(** ** Go string helpers

    [strings.Index], [strings.Contains], [strings.HasPrefix], [strings.Join]
    and slicing, on byte strings.  Indices are [Z] because [strings.Index]
    answers [-1] when the substring is absent. *)

Module GoStrings.

Definition nl : string := String "010"%char "".
Definition dquote : string := String "034"%char "".

Definition Index (s substr : string) : Z :=
  match String.index 0 substr s with
  | Some i => Z.of_nat i
  | None => (-1)%Z
  end.

Definition Contains (s substr : string) : bool := (0 <=? Index s substr)%Z.

Definition HasPrefix (s pre : string) : bool := String.prefix pre s.

(** [s[i:]] and [s[i:j]]; the callers only slice within bounds. *)
Definition slice_from (s : string) (i : Z) : string :=
  String.substring (Z.to_nat i) (String.length s - Z.to_nat i) s.

Definition slice (s : string) (i j : Z) : string :=
  String.substring (Z.to_nat i) (Z.to_nat j - Z.to_nat i) s.

Definition slice_to (s : string) (j : nat) : string := String.substring 0 j s.

Definition Join (elems : list string) (sep : string) : string :=
  String.concat sep elems.

Example Index_found : Index "a```json{}```" "```json" = 1%Z.
Proof. reflexivity. Qed.

Example Index_absent : Index "plain" "```" = (-1)%Z.
Proof. reflexivity. Qed.

Example Index_first :
  Index "abcabc" "bc" = 1%Z ∧ Index "aaa" "aa" = 0%Z ∧ Index "" "x" = (-1)%Z.
Proof. by vm_compute. Qed.

Example slice_mid : slice "0123456789" 2 5 = "234".
Proof. reflexivity. Qed.

(** *** Lengths and substrings *)

Lemma str_length_app (s1 s2 : string) :
  String.length (s1 ++ s2) = (String.length s1 + String.length s2)%nat.
Proof. induction s1 as [|c s1 IH]; simpl; [done|]. by rewrite IH. Qed.

Lemma str_substring_whole (s : string) : String.substring 0 (String.length s) s = s.
Proof. induction s as [|c s IH]; simpl; [done|]. by rewrite IH. Qed.

Lemma str_length_substring_0 (n : nat) (s : string) :
  (n ≤ String.length s)%nat → String.length (String.substring 0 n s) = n.
Proof.
  revert n. induction s as [|c s IH]; intros [|n] Hn; simpl in *; try done; try lia.
  rewrite IH; [done|lia].
Qed.

Lemma str_prefix_substring_0 (n : nat) (s : string) :
  String.prefix (String.substring 0 n s) s = true.
Proof.
  revert n. induction s as [|c s IH]; intros [|n]; simpl; try done.
  destruct (ascii_dec c c); [apply IH|done].
Qed.

Lemma str_substring_app_drop (s1 s2 : string) (n : nat) :
  String.substring (String.length s1) n (s1 ++ s2) = String.substring 0 n s2.
Proof. induction s1 as [|c s1 IH]; simpl; [done|]. apply IH. Qed.

Lemma str_substring_app_take (s1 s2 : string) :
  String.substring 0 (String.length s1) (s1 ++ s2) = s1.
Proof. induction s1 as [|c s1 IH]; simpl; [by destruct s2|]. by rewrite IH. Qed.

(** *** Searching in a concatenation *)

Lemma str_app_cons (x : ascii) (a b : string) : String x a ++ b = String x (a ++ b).
Proof. reflexivity. Qed.

Lemma str_app_nil_l (a : string) : "" ++ a = a.
Proof. reflexivity. Qed.

Lemma str_app_assoc (a b c : string) : (a ++ b) ++ c = a ++ b ++ c.
Proof.
  induction a as [|x a IH]; [by rewrite !str_app_nil_l|].
  by rewrite !str_app_cons, IH.
Qed.

Lemma str_prefix_cons (c d : ascii) (pre s : string) :
  String.prefix (String c pre) (String d s)
  = if ascii_dec c d then String.prefix pre s else false.
Proof. reflexivity. Qed.

Lemma str_prefix_nil (s : string) : String.prefix "" s = true.
Proof. by destruct s. Qed.

Lemma str_prefix_app (a b : string) : String.prefix a (a ++ b) = true.
Proof.
  induction a as [|x a IH]; [apply str_prefix_nil|].
  rewrite str_app_cons, str_prefix_cons. by destruct (ascii_dec x x).
Qed.

Lemma str_index_cons (pat : string) (c : ascii) (s : string) :
  String.index 0 pat (String c s)
  = if String.prefix pat (String c s) then Some 0%nat
    else S <$> String.index 0 pat s.
Proof. cbn [String.index]. destruct (String.prefix pat (String c s)); [done|].
  by destruct (String.index 0 pat s). Qed.

(** No byte of [s] is [c]. *)
Lemma Contains_cons (c d : ascii) (s : string) :
  Contains (String d s) (String c "") = false ↔ d ≠ c ∧ Contains s (String c "") = false.
Proof.
  unfold Contains, Index. rewrite str_index_cons, str_prefix_cons, str_prefix_nil.
  destruct (ascii_dec c d) as [->|Hne]; cbn.
  - split; [discriminate|]. by intros [? _].
  - destruct (String.index 0 (String c "") s); cbn.
    + split; [intros Hz%Z.leb_gt; lia | intros [_ Hz%Z.leb_gt]; lia].
    + split; [|done]. intros _. split; [congruence|done].
Qed.

Lemma index_after_free (c : ascii) (fence pre rest : string) :
  Contains pre (String c "") = false →
  String.index 0 (String c fence) (pre ++ String c fence ++ rest)
  = Some (String.length pre).
Proof.
  induction pre as [|d pre IH]; intros Hfree.
  - rewrite str_app_nil_l, str_app_cons, str_index_cons, <- str_app_cons.
    by rewrite str_prefix_app.
  - apply Contains_cons in Hfree as [Hne Hfree].
    rewrite str_app_cons, str_index_cons, str_prefix_cons.
    destruct (ascii_dec c d) as [->|_]; [done|]. rewrite (IH Hfree). done.
Qed.

Lemma Index_after_free (c : ascii) (fence pre rest : string) :
  Contains pre (String c "") = false →
  Index (pre ++ String c fence ++ rest) (String c fence) = Z.of_nat (String.length pre).
Proof. intros Hfree. unfold Index. by rewrite index_after_free. Qed.

Lemma slice_from_app (a b : string) :
  slice_from (a ++ b) (Z.of_nat (String.length a)) = b.
Proof.
  unfold slice_from. rewrite Nat2Z.id, str_length_app.
  replace (String.length a + String.length b - String.length a)%nat
    with (String.length b) by lia.
  rewrite str_substring_app_drop. apply str_substring_whole.
Qed.

Lemma slice_app (a b c : string) :
  slice (a ++ b ++ c) (Z.of_nat (String.length a))
        (Z.of_nat (String.length a) + Z.of_nat (String.length b)) = b.
Proof.
  unfold slice. rewrite <- Nat2Z.inj_add, !Nat2Z.id.
  replace (String.length a + String.length b - String.length a)%nat
    with (String.length b) by lia.
  rewrite str_substring_app_drop. apply str_substring_app_take.
Qed.

Lemma substring_shorter (i n k : nat) (s : string) :
  String.substring 0 n (String.substring i (n + k) s) = String.substring i n s.
Proof.
  revert i n. induction s as [|c s IH]; intros i n.
  - by destruct i, n, k.
  - destruct i as [|i].
    + destruct n as [|n]; [by destruct k|]. cbn. by rewrite (IH 0%nat n).
    + cbn. apply IH.
Qed.

(** A text without the shorter pattern has no occurrence of a longer one
    that starts with it. *)
Lemma Contains_longer (s pat more : string) :
  pat ≠ "" → Contains s pat = false → Contains s (pat ++ more) = false.
Proof.
  unfold Contains, Index. intros Hne Hshort.
  destruct (String.index 0 pat s) as [j|] eqn:Hj; [apply Z.leb_gt in Hshort; lia|].
  destruct (String.index 0 (pat ++ more) s) as [i|] eqn:Hi; [|done].
  apply index_correct1 in Hi.
  pose proof (index_correct3 0 i pat s Hj Hne (Nat.le_0_l i)) as Hno.
  destruct Hno. rewrite <- (substring_shorter i (String.length pat) (String.length more)).
  rewrite <- str_length_app, Hi. apply str_substring_app_take.
Qed.

End GoStrings.

(** ** Pattern recommender: rerank gate and LLM rerank (package patterns) *)

Module Recommender.
Import GoStrings.

(** [scoredPattern], [PatternSummary] and [types.Message] are declared
    outside the files at hand; they carry the fields the recommender reads
    and writes. *)
Record scoredPattern := ScoredPattern { name : string; score : float }.

Record PatternSummary := {
  Title : string;
  Category : string;
  Description : string;
  UseCases : list string
}.

Definition zeroSummary : PatternSummary :=
  {| Title := ""; Category := ""; Description := ""; UseCases := [] |}.

Record Message := { Role : string; Content : string }.

(** [types.LLMProvider]: only [Chat] is used; it answers an error or a
    response whose [Content] is read. *)
Record LLMProvider := { Chat : list Message → string + string }.

Record reRankingResult := {
  SelectedPattern : string;
  Confidence : float;
  Reasoning : string
}.

(** The errors [reRankPatternsWithLLM] builds with [fmt.Errorf]. *)
Inductive RerankError :=
| ErrNilProvider
| ErrNoCandidates
| ErrLLMFailed (cause : string)
| ErrParse (cause responseText : string)
| ErrNotInCandidates (selected : string).

Definition RerankError_Error (e : RerankError) : string :=
  match e with
  | ErrNilProvider => "LLM provider is nil"
  | ErrNoCandidates => "no candidates to re-rank"
  | ErrLLMFailed cause => "LLM generation failed: " ++ cause
  | ErrParse cause responseText =>
      "failed to parse LLM response: " ++ cause ++ nl ++ "Response: " ++ responseText
  | ErrNotInCandidates selected =>
      "LLM selected pattern not in candidates: " ++ selected
  end.

Definition is_parse_failure (e : option RerankError) : bool :=
  match e with Some (ErrParse _ _) => true | _ => false end.

Definition is_not_in_candidates (e : RerankError) : bool :=
  match e with ErrNotInCandidates _ => true | _ => false end.

(** Thresholds of the gate.  The decimal constants denote the nearest
    binary64 values, as Go's constant conversion gives. *)
#[local] Set Warnings "-inexact-float".
Definition thresholdTop : float := 0.70%float.
Definition thresholdRace : float := 0.20%float.
Definition thresholdStrong : float := 0.60%float.

(** Markdown fences around the JSON answer are removed before parsing. *)
Definition extractJSON (responseText : string) : string :=
  if Contains responseText "```json" then
    let start := (Index responseText "```json" + 7)%Z in
    let end_ := Index (slice_from responseText start) "```" in
    if (0 <? end_)%Z then slice responseText start (start + end_) else responseText
  else if Contains responseText "```" then
    let start := (Index responseText "```" + 3)%Z in
    let end_ := Index (slice_from responseText start) "```" in
    if (0 <? end_)%Z then slice responseText start (start + end_) else responseText
  else responseText.

(** The validation loop: [found] becomes true at the first candidate whose
    name is the selected one. *)
Fixpoint foundInCandidates (candidates : list scoredPattern) (selected : string) : bool :=
  match candidates with
  | [] => false
  | candidate :: rest =>
      if String.eqb (name candidate) selected then true
      else foundInCandidates rest selected
  end.

(** The two clamping statements, in the order of the code. *)
Definition clampConfidence (c : float) : float :=
  let c1 := if F64.lt c 0%float then 0%float else c in
  if F64.gt c1 1%float then 1%float else c1.

Section Rerank.
(** Go library functions the recommender calls: [fmt.Sprintf("%.2f", _)],
    [strings.TrimSpace] and [json.Unmarshal] into a [reRankingResult]. *)
Variable fmt_2f : float → string.
Variable TrimSpace : string → string.
Variable json_Unmarshal : string → string + reRankingResult.

Definition candidateEntry (summaries : gmap string PatternSummary)
    (i : nat) (candidate : scoredPattern) : string :=
  let summary := default zeroSummary (summaries !! name candidate) in
  pretty (i + 1) ++ ". " ++ name candidate ++ nl
  ++ "   Title: " ++ Title summary ++ nl
  ++ "   Category: " ++ Category summary ++ nl
  ++ "   Description: "
  ++ slice_to (Description summary) (200 `min` String.length (Description summary)) ++ nl
  ++ (if bool_decide (0 < length (UseCases summary))%nat then
        "   Use Cases: "
        ++ Join (take (3 `min` length (UseCases summary)) (UseCases summary)) ", " ++ nl
      else "")
  ++ "   Keyword Score: " ++ fmt_2f (score candidate) ++ nl ++ nl.

Definition buildPrompt (userMessage : string) (candidates : list scoredPattern)
    (summaries : gmap string PatternSummary) : string :=
  "User Query: " ++ dquote ++ userMessage ++ dquote ++ nl ++ nl
  ++ "Candidate Patterns (ranked by keyword matching):" ++ nl ++ nl
  ++ String.concat "" (imap (candidateEntry summaries) candidates)
  ++ nl ++ "Task: Select the most relevant pattern for the user's query." ++ nl
  ++ "Consider:" ++ nl
  ++ "- Semantic match between query and pattern purpose" ++ nl
  ++ "- Use case alignment" ++ nl
  ++ "- Category appropriateness" ++ nl ++ nl
  ++ "Respond with JSON:" ++ nl
  ++ "{" ++ nl
  ++ "  " ++ dquote ++ "selected_pattern" ++ dquote ++ ": " ++ dquote ++ "pattern_name" ++ dquote ++ "," ++ nl
  ++ "  " ++ dquote ++ "confidence" ++ dquote ++ ": 0.85," ++ nl
  ++ "  " ++ dquote ++ "reasoning" ++ dquote ++ ": " ++ dquote
  ++ "Brief explanation why this pattern is best" ++ dquote ++ nl
  ++ "}".

(** The text handed to [json.Unmarshal]. *)
Definition responseJSON (content : string) : string :=
  TrimSpace (extractJSON content).

(** The result is Go's triple [(string, float64, error)]. *)
Definition reRankPatternsWithLLM (llmProvider : option LLMProvider)
    (userMessage : string) (candidates : list scoredPattern)
    (summaries : gmap string PatternSummary)
    : string * float * option RerankError :=
  match llmProvider with
  | None => ("", 0%float, Some ErrNilProvider)
  | Some provider =>
    match candidates with
    | [] => ("", 0%float, Some ErrNoCandidates)
    | top :: _ =>
      let prompt := buildPrompt userMessage candidates summaries in
      match Chat provider [ {| Role := "user"; Content := prompt |} ] with
      | inl err => ("", 0%float, Some (ErrLLMFailed err))
      | inr content =>
        let responseText := responseJSON content in
        match json_Unmarshal responseText with
        | inl err => ("", 0%float, Some (ErrParse err responseText))
        | inr result =>
          if foundInCandidates candidates (SelectedPattern result) then
            (SelectedPattern result, clampConfidence (Confidence result), None)
          else
            (name top, score top, Some (ErrNotInCandidates (SelectedPattern result)))
        end
      end
    end
  end.
End Rerank.

Section Gate.
(** [IntentCategory] and its constant [IntentUnknown] are declared outside
    the files at hand; the gate only compares an intent with [IntentUnknown]. *)
Context {IntentCategory : Type} `{EqDecision IntentCategory}.
Variable IntentUnknown : IntentCategory.

(** The counting loop of trigger 4. *)
Definition countStrong (scored : list scoredPattern) : nat :=
  foldl (λ strongCandidates s,
           if F64.gt (score s) thresholdStrong then S strongCandidates
           else strongCandidates) 0 scored.

Definition shouldInvokeLLMReRanker (scored : list scoredPattern)
    (intent : IntentCategory) (llmProvider : option LLMProvider) : bool :=
  match llmProvider with
  | None => false
  | Some _ =>
    match scored with
    | [] => false
    | s0 :: rest =>
      if bool_decide (intent = IntentUnknown) then true
      else if F64.lt (score s0) thresholdTop then true
      else if match rest with
              | s1 :: _ => F64.lt (score s0 - score s1)%float thresholdRace
              | [] => false
              end then true
      else if bool_decide (3 ≤ countStrong scored)%nat then true
      else false
    end
  end.

(** The four gate conditions, following the wording of the specification. *)
Definition intentIsUnknown (intent : IntentCategory) : Prop :=
  intent = IntentUnknown.

Definition topScoreBelow (scored : list scoredPattern) : Prop :=
  ∃ s0, scored !! 0 = Some s0 ∧ F64.lt (score s0) thresholdTop = true.

Definition topTwoClose (scored : list scoredPattern) : Prop :=
  ∃ s0 s1, scored !! 0 = Some s0 ∧ scored !! 1 = Some s1 ∧
           F64.lt (score s0 - score s1)%float thresholdRace = true.

(** The wording "within 0.20 of each other" read as a distance. *)
Definition topTwoWithin (scored : list scoredPattern) : Prop :=
  ∃ s0 s1, scored !! 0 = Some s0 ∧ scored !! 1 = Some s1 ∧
           F64.lt (PrimFloat.abs (score s0 - score s1))%float thresholdRace = true.

Definition strongCandidates (scored : list scoredPattern) : list scoredPattern :=
  filter (λ s, F64.gt (score s) thresholdStrong = true) scored.

Definition manyStrong (scored : list scoredPattern) : Prop :=
  (3 ≤ length (strongCandidates scored))%nat.

Definition gateConditions (scored : list scoredPattern) (intent : IntentCategory) : Prop :=
  intentIsUnknown intent ∨ topScoreBelow scored ∨ topTwoClose scored ∨ manyStrong scored.
End Gate.

(** *** Sample data used by the examples *)

Inductive SampleIntent := SampleUnknown | SampleBilling | SampleAnalytics.

#[global] Instance SampleIntent_eq_dec : EqDecision SampleIntent.
Proof. solve_decision. Defined.

Definition sampleProvider (content : string) : LLMProvider :=
  {| Chat := λ _, inr content |}.

Definition sampleCandidates : list scoredPattern :=
  [ ScoredPattern "fork_join" 0.65%float;
    ScoredPattern "pipeline" 0.55%float;
    ScoredPattern "debate" 0.50%float ].

(** Scores that are not in descending order. *)
Definition unsortedCandidates : list scoredPattern :=
  [ ScoredPattern "fork_join" 0.75%float;
    ScoredPattern "pipeline" 0.99%float ].

Definition clearWinner : list scoredPattern :=
  [ ScoredPattern "fork_join" 0.95%float;
    ScoredPattern "pipeline" 0.40%float;
    ScoredPattern "debate" 0.30%float ].

(** A decoder that knows three answers and rejects everything else. *)
Definition sampleUnmarshal (s : string) : string + reRankingResult :=
  if String.eqb s "pipeline-high" then
    inr {| SelectedPattern := "pipeline"; Confidence := 1.5%float; Reasoning := "" |}
  else if String.eqb s "pipeline-low" then
    inr {| SelectedPattern := "pipeline"; Confidence := (-0.25)%float; Reasoning := "" |}
  else if String.eqb s "swarm" then
    inr {| SelectedPattern := "swarm"; Confidence := 0.9%float; Reasoning := "" |}
  else inl "invalid character".

Definition sampleFmt (_ : float) : string := "0.00".

(** [strings.TrimSpace] restricted to ASCII white space. *)
Definition isAsciiSpace (c : ascii) : bool :=
  bool_decide (c ∈ [" "%char; "009"%char; "010"%char; "011"%char; "012"%char; "013"%char]).

Fixpoint trimLeft (s : string) : string :=
  match s with
  | String c rest => if isAsciiSpace c then trimLeft rest else s
  | EmptyString => EmptyString
  end.

Fixpoint trimRight (s : string) : string :=
  match s with
  | String c rest =>
      match trimRight rest with
      | EmptyString => if isAsciiSpace c then EmptyString else String c EmptyString
      | rest' => String c rest'
      end
  | EmptyString => EmptyString
  end.

Definition sampleTrim (s : string) : string := trimRight (trimLeft s).

(** *** The rerank gate *)

Section GateFacts.
Context {IntentCategory : Type} `{EqDecision IntentCategory}.
Variable IntentUnknown : IntentCategory.

Lemma countStrong_from (scored : list scoredPattern) (n : nat) :
  foldl (λ strong s, if F64.gt (score s) thresholdStrong then S strong else strong) n scored
  = (n + length (strongCandidates scored))%nat.
Proof.
  revert n. induction scored as [|s scored IH]; intros n; simpl.
  - lia.
  - rewrite IH. unfold strongCandidates. rewrite filter_cons.
    destruct (F64.gt (score s) thresholdStrong) eqn:Hs.
    + rewrite decide_True by done. simpl. lia.
    + rewrite decide_False by done. lia.
Qed.

Lemma countStrong_length (scored : list scoredPattern) :
  countStrong scored = length (strongCandidates scored).
Proof. unfold countStrong. by rewrite countStrong_from. Qed.

Lemma shouldInvoke_nil_provider scored (intent : IntentCategory) :
  shouldInvokeLLMReRanker IntentUnknown scored intent None = false.
Proof. reflexivity. Qed.

Lemma shouldInvoke_no_patterns (intent : IntentCategory) llmProvider :
  shouldInvokeLLMReRanker IntentUnknown [] intent llmProvider = false.
Proof. by destruct llmProvider. Qed.

Lemma shouldInvoke_true_iff scored (intent : IntentCategory) (provider : LLMProvider) :
  scored ≠ [] →
  shouldInvokeLLMReRanker IntentUnknown scored intent (Some provider) = true
  ↔ gateConditions IntentUnknown scored intent.
Proof.
  intros Hne. destruct scored as [|s0 rest]; [done|].
  unfold shouldInvokeLLMReRanker, gateConditions, intentIsUnknown,
    topScoreBelow, topTwoClose, manyStrong.
  rewrite <- countStrong_length.
  case_bool_decide as Hi; [by split; auto|].
  destruct (F64.lt (score s0) thresholdTop) eqn:Htop.
  { split; [|done]. intros _. right; left. exists s0. done. }
  assert (Hrace : (∃ a b, (s0 :: rest) !! 0%nat = Some a ∧ (s0 :: rest) !! 1%nat = Some b ∧
                    F64.lt (score a - score b)%float thresholdRace = true)
                  ↔ match rest with
                    | s1 :: _ => F64.lt (score s0 - score s1)%float thresholdRace
                    | [] => false
                    end = true).
  { destruct rest as [|s1 rest]; simpl.
    - split; [|done]. intros (a & b & _ & Hb & _). discriminate.
    - split.
      + intros (a & b & Ha & Hb & H). by simplify_eq.
      + intros H. by exists s0, s1. }
  destruct (match rest with
            | s1 :: _ => F64.lt (score s0 - score s1)%float thresholdRace
            | [] => false
            end) eqn:Hr.
  { split; [|done]. intros _. right; right; left. by apply Hrace. }
  case_bool_decide as Hc.
  { split; [|done]. intros _. by repeat right. }
  split; [done|].
  intros [?|[(a & Ha & H)|[H|?]]]; [done| |by apply Hrace in H|done].
  simpl in Ha. simplify_eq. congruence.
Qed.
End GateFacts.

(** Scenario of the specification: scores [0.95, 0.40, 0.30] with a known
    intent take the fast path; scores [0.65, 0.55, 0.50] call the reranker. *)
Example gate_clear_winner :
  shouldInvokeLLMReRanker SampleUnknown clearWinner SampleBilling
    (Some (sampleProvider "")) = false.
Proof. vm_compute. reflexivity. Qed.

Example gate_uncertain_top :
  shouldInvokeLLMReRanker SampleUnknown sampleCandidates SampleBilling
    (Some (sampleProvider "")) = true.
Proof. vm_compute. reflexivity. Qed.

(** C1, as stated, fails without a provider: the intent is Unknown and the
    top score 0.65 is below 0.70, so gate conditions hold, yet
    [shouldInvokeLLMReRanker] answers false because the provider is nil.  The
    same happens for an empty list of patterns with an Unknown intent.  And
    for scores that are not in descending order the third trigger fires on a
    negative difference: with scores [0.75, 0.99] and a known intent none of
    the four conditions holds (the two scores are 0.24 apart), yet the answer
    is true. *)
Lemma shouldInvoke_without_provider :
  gateConditions SampleUnknown sampleCandidates SampleUnknown
  ∧ topScoreBelow sampleCandidates
  ∧ shouldInvokeLLMReRanker SampleUnknown sampleCandidates SampleUnknown None = false
  ∧ gateConditions SampleUnknown [] SampleUnknown
  ∧ shouldInvokeLLMReRanker SampleUnknown [] SampleUnknown
      (Some (sampleProvider "")) = false
  ∧ ¬ (intentIsUnknown SampleUnknown SampleBilling ∨ topScoreBelow unsortedCandidates
       ∨ topTwoWithin unsortedCandidates ∨ manyStrong unsortedCandidates)
  ∧ shouldInvokeLLMReRanker SampleUnknown unsortedCandidates SampleBilling
      (Some (sampleProvider "")) = true.
Proof.
  assert (Htop : topScoreBelow sampleCandidates).
  { exists (ScoredPattern "fork_join" 0.65%float). split; [reflexivity|].
    vm_compute. reflexivity. }
  repeat split; try done; try by left.
  intros [H|[(s0 & Hs0 & H)|[(s0 & s1 & Hs0 & Hs1 & H)|H]]].
  - discriminate H.
  - injection Hs0 as <-. vm_compute in H. discriminate H.
  - injection Hs0 as <-. injection Hs1 as <-. vm_compute in H. discriminate H.
  - vm_compute in H. lia.
Qed.

(** C1 (amended): given an LLM provider and at least one scored pattern,
    [shouldInvokeLLMReRanker] returns true exactly when one of the four gate
    conditions holds -- the intent is Unknown; the top score is below 0.70;
    there are two or more candidates and the top score minus the second is
    below 0.20; three or more candidates score above 0.60 -- and false when
    none holds.  Without a provider, or without patterns, it returns false
    whatever the conditions. *)
Theorem shouldInvoke_gate {IntentCategory : Type} `{EqDecision IntentCategory}
    (IntentUnknown : IntentCategory)
    (scored : list scoredPattern) (intent : IntentCategory) (provider : LLMProvider) :
  (scored ≠ [] →
     (gateConditions IntentUnknown scored intent →
        shouldInvokeLLMReRanker IntentUnknown scored intent (Some provider) = true)
     ∧ (¬ gateConditions IntentUnknown scored intent →
        shouldInvokeLLMReRanker IntentUnknown scored intent (Some provider) = false))
  ∧ shouldInvokeLLMReRanker IntentUnknown scored intent None = false
  ∧ shouldInvokeLLMReRanker IntentUnknown [] intent (Some provider) = false.
Proof.
  split; [|split; reflexivity].
  intros Hne. pose proof (shouldInvoke_true_iff IntentUnknown scored intent provider Hne) as Hiff.
  split.
  - apply Hiff.
  - intros Hnone.
    destruct (shouldInvokeLLMReRanker IntentUnknown scored intent (Some provider)); [|done].
    exfalso. apply Hnone, Hiff. done.
Qed.

Lemma shouldInvoke_gate_witness :
  shouldInvokeLLMReRanker SampleUnknown sampleCandidates SampleBilling
    (Some (sampleProvider "")) = true
  ∧ shouldInvokeLLMReRanker SampleUnknown clearWinner SampleBilling
      (Some (sampleProvider "")) = false.
Proof.
  split.
  - destruct (shouldInvoke_gate SampleUnknown sampleCandidates SampleBilling
                (sampleProvider "")) as [Hgate _].
    destruct Hgate as [Htrue _]; [discriminate|].
    apply Htrue. right; left. exists (ScoredPattern "fork_join" 0.65%float).
    split; [reflexivity | vm_compute; reflexivity].
  - destruct (shouldInvoke_gate SampleUnknown clearWinner SampleBilling
                (sampleProvider "")) as [Hgate _].
    destruct Hgate as [_ Hfalse]; [discriminate|].
    apply Hfalse.
    intros [H|[(s0 & Hs0 & H)|[(s0 & s1 & Hs0 & Hs1 & H)|H]]].
    + discriminate H.
    + injection Hs0 as <-. vm_compute in H. discriminate H.
    + injection Hs0 as <-. injection Hs1 as <-. vm_compute in H. discriminate H.
    + vm_compute in H. lia.
Defined.

(** *** The LLM rerank *)

Lemma foundInCandidates_elem (candidates : list scoredPattern) (selected : string) :
  foundInCandidates candidates selected = true ↔ selected ∈ (name <$> candidates).
Proof.
  induction candidates as [|c cs IH]; simpl.
  - split; [done|]. by intros ?%elem_of_nil.
  - rewrite elem_of_cons. destruct (String.eqb_spec (name c) selected) as [->|Hne].
    + split; auto.
    + rewrite IH. split; [auto|]. intros [?|?]; [congruence|done].
Qed.

Lemma clampConfidence_cases (c : float) :
  clampConfidence c =
    if F64.lt c 0%float then 0%float
    else if F64.gt c 1%float then 1%float else c.
Proof.
  unfold clampConfidence. destruct (F64.lt c 0%float); [|done].
  vm_compute. reflexivity.
Qed.

Lemma gt_one_not_lt_zero (c : float) :
  F64.gt c 1%float = true → F64.lt c 0%float = false.
Proof.
  unfold F64.gt, F64.lt. rewrite !FloatAxioms.ltb_spec.
  change (Prim2SF 1) with (S754_finite false 4503599627370496 (-52)).
  change (Prim2SF 0) with (S754_zero false).
  destruct (Prim2SF c) as [s|s| |s m e]; simpl; try discriminate;
    destruct s; simpl; try discriminate; reflexivity.
Qed.

Lemma clampConfidence_below (c : float) :
  F64.lt c 0%float = true → clampConfidence c = 0%float.
Proof. intros H. by rewrite clampConfidence_cases, H. Qed.

Lemma clampConfidence_above (c : float) :
  F64.gt c 1%float = true → clampConfidence c = 1%float.
Proof.
  intros H. rewrite clampConfidence_cases, (gt_one_not_lt_zero c H), H. done.
Qed.

Lemma clampConfidence_inside (c : float) :
  F64.lt c 0%float = false → F64.gt c 1%float = false → clampConfidence c = c.
Proof. intros H0 H1. by rewrite clampConfidence_cases, H0, H1. Qed.

(** A clamped number lies between 0 and 1; a NaN would pass both tests
    unchanged, which is why the input must be a number. *)
Lemma clampConfidence_range (c : float) :
  F64.isNaN c = false →
  F64.le 0%float (clampConfidence c) = true ∧ F64.le (clampConfidence c) 1%float = true.
Proof.
  intros Hnan. rewrite clampConfidence_cases.
  destruct (F64.lt c 0%float) eqn:H0; [by vm_compute|].
  destruct (F64.gt c 1%float) eqn:H1; [by vm_compute|].
  split.
  - by apply F64.not_lt_le.
  - by apply F64.not_lt_le.
Qed.

Example clampConfidence_nan : F64.isNaN (clampConfidence nan) = true.
Proof. vm_compute. reflexivity. Qed.

Section RerankFacts.
Variable fmt_2f : float → string.
Variable TrimSpace : string → string.
Variable json_Unmarshal : string → string + reRankingResult.

#[local] Abbreviation reRank := (reRankPatternsWithLLM fmt_2f TrimSpace json_Unmarshal).
#[local] Abbreviation prompt := (buildPrompt fmt_2f).

(** What the function returns once the provider has answered [content]. *)
Lemma reRank_answered (provider : LLMProvider) (userMessage : string)
    (candidates : list scoredPattern) (summaries : gmap string PatternSummary)
    (top : scoredPattern) (content : string) :
  head candidates = Some top →
  Chat provider [ {| Role := "user"; Content := prompt userMessage candidates summaries |} ]
    = inr content →
  reRank (Some provider) userMessage candidates summaries =
    match json_Unmarshal (responseJSON TrimSpace content) with
    | inl err => ("", 0%float, Some (ErrParse err (responseJSON TrimSpace content)))
    | inr result =>
        if foundInCandidates candidates (SelectedPattern result) then
          (SelectedPattern result, clampConfidence (Confidence result), None)
        else (name top, score top, Some (ErrNotInCandidates (SelectedPattern result)))
    end.
Proof.
  intros Htop Hchat. destruct candidates as [|c cs]; [done|].
  simpl in Htop. injection Htop as ->.
  unfold reRankPatternsWithLLM. rewrite Hchat. done.
Qed.

(** C3: for a non-empty candidate list and any response of the provider, a
    result that is not a parse failure names one of the candidates; when the
    parsed [selected_pattern] is not an offered candidate the function returns
    the first candidate with its keyword score, together with the error
    "LLM selected pattern not in candidates". *)
Theorem reRank_selection_in_candidates (provider : LLMProvider) (userMessage : string)
    (candidates : list scoredPattern) (summaries : gmap string PatternSummary)
    (top : scoredPattern) (content : string)
    (selected : string) (confidence : float) (err : option RerankError) :
  head candidates = Some top →
  Chat provider [ {| Role := "user"; Content := prompt userMessage candidates summaries |} ]
    = inr content →
  reRank (Some provider) userMessage candidates summaries = (selected, confidence, err) →
  (is_parse_failure err = false → selected ∈ (name <$> candidates))
  ∧ (∀ result, json_Unmarshal (responseJSON TrimSpace content) = inr result →
       SelectedPattern result ∉ (name <$> candidates) →
       selected = name top ∧ confidence = score top
       ∧ err = Some (ErrNotInCandidates (SelectedPattern result))
       ∧ RerankError_Error (ErrNotInCandidates (SelectedPattern result))
         = "LLM selected pattern not in candidates: " ++ SelectedPattern result).
Proof.
  intros Htop Hchat Hres.
  rewrite (reRank_answered provider userMessage candidates summaries top content Htop Hchat)
    in Hres.
  assert (Hin : name top ∈ (name <$> candidates)).
  { destruct candidates as [|c cs]; [done|]. simpl in Htop. injection Htop as ->.
    rewrite fmap_cons. apply elem_of_cons. by left. }
  destruct (json_Unmarshal (responseJSON TrimSpace content)) as [e|result] eqn:Hparse.
  - injection Hres as <- <- <-. split; [done|]. intros result' [=].
  - destruct (foundInCandidates candidates (SelectedPattern result)) eqn:Hfound;
      injection Hres as <- <- <-.
    + apply foundInCandidates_elem in Hfound. split; [done|].
      intros result' [= <-] Hnot. done.
    + split; [done|]. intros result' [= <-] _. done.
Qed.

(** C8: when the response parses and names an offered candidate, the call
    succeeds with that candidate and a confidence between 0 and 1: a parsed
    confidence below 0.0 gives 0.0, one above 1.0 gives 1.0.  The parsed
    confidence is a number: JSON has no notation for NaN. *)
Theorem reRank_confidence_clamped (provider : LLMProvider) (userMessage : string)
    (candidates : list scoredPattern) (summaries : gmap string PatternSummary)
    (top : scoredPattern) (content : string) (result : reRankingResult) :
  head candidates = Some top →
  Chat provider [ {| Role := "user"; Content := prompt userMessage candidates summaries |} ]
    = inr content →
  json_Unmarshal (responseJSON TrimSpace content) = inr result →
  SelectedPattern result ∈ (name <$> candidates) →
  F64.isNaN (Confidence result) = false →
  ∃ confidence,
    reRank (Some provider) userMessage candidates summaries
      = (SelectedPattern result, confidence, None)
    ∧ F64.le 0%float confidence = true ∧ F64.le confidence 1%float = true
    ∧ (F64.lt (Confidence result) 0%float = true → confidence = 0%float)
    ∧ (F64.gt (Confidence result) 1%float = true → confidence = 1%float)
    ∧ (F64.lt (Confidence result) 0%float = false →
       F64.gt (Confidence result) 1%float = false → confidence = Confidence result).
Proof.
  intros Htop Hchat Hparse Hin Hnan.
  exists (clampConfidence (Confidence result)).
  rewrite (reRank_answered provider userMessage candidates summaries top content Htop Hchat).
  rewrite Hparse. apply foundInCandidates_elem in Hin. rewrite Hin.
  destruct (clampConfidence_range (Confidence result) Hnan) as [Hlo Hhi].
  repeat split; try done.
  - apply clampConfidence_below.
  - apply clampConfidence_above.
  - apply clampConfidence_inside.
Qed.

End RerankFacts.

Definition fencedAnswer : string :=
  "Here you go:" ++ nl ++ "```json" ++ nl ++ "pipeline-high" ++ nl ++ "```" ++ nl.

Example responseJSON_fenced : responseJSON sampleTrim fencedAnswer = "pipeline-high".
Proof. vm_compute. reflexivity. Qed.

Example reRank_out_of_set :
  reRankPatternsWithLLM sampleFmt sampleTrim sampleUnmarshal
    (Some (sampleProvider "swarm")) "review my code" sampleCandidates ∅
  = ("fork_join", 0.65%float, Some (ErrNotInCandidates "swarm")).
Proof. vm_compute. reflexivity. Qed.

Example reRank_clamps_high :
  reRankPatternsWithLLM sampleFmt sampleTrim sampleUnmarshal
    (Some (sampleProvider fencedAnswer)) "review my code" sampleCandidates ∅
  = ("pipeline", 1%float, None).
Proof. vm_compute. reflexivity. Qed.

Example reRank_clamps_low :
  reRankPatternsWithLLM sampleFmt sampleTrim sampleUnmarshal
    (Some (sampleProvider "pipeline-low")) "review my code" sampleCandidates ∅
  = ("pipeline", 0%float, None).
Proof. vm_compute. reflexivity. Qed.

Lemma reRank_selection_in_candidates_witness :
  "fork_join" ∈ (name <$> sampleCandidates)
  ∧ ("fork_join" = "fork_join" ∧ 0.65%float = 0.65%float
     ∧ Some (ErrNotInCandidates "swarm") = Some (ErrNotInCandidates "swarm")
     ∧ RerankError_Error (ErrNotInCandidates "swarm")
       = "LLM selected pattern not in candidates: swarm").
Proof.
  destruct (reRank_selection_in_candidates sampleFmt sampleTrim sampleUnmarshal
              (sampleProvider "swarm") "review my code" sampleCandidates ∅
              (ScoredPattern "fork_join" 0.65%float) "swarm"
              "fork_join" 0.65%float (Some (ErrNotInCandidates "swarm"))
              eq_refl eq_refl eq_refl) as [Hin Hfallback].
  split.
  - apply Hin. reflexivity.
  - apply (Hfallback {| SelectedPattern := "swarm"; Confidence := 0.9%float; Reasoning := "" |}).
    + reflexivity.
    + vm_compute. intros H. repeat (apply elem_of_cons in H as [H|H]; [discriminate H|]).
      by apply elem_of_nil in H.
Defined.

Lemma reRank_confidence_clamped_witness :
  ∃ confidence,
    reRankPatternsWithLLM sampleFmt sampleTrim sampleUnmarshal
      (Some (sampleProvider "pipeline-high")) "review my code" sampleCandidates ∅
      = ("pipeline", confidence, None)
    ∧ F64.le 0%float confidence = true ∧ F64.le confidence 1%float = true
    ∧ (F64.lt 1.5%float 0%float = true → confidence = 0%float)
    ∧ (F64.gt 1.5%float 1%float = true → confidence = 1%float)
    ∧ (F64.lt 1.5%float 0%float = false →
       F64.gt 1.5%float 1%float = false → confidence = 1.5%float).
Proof.
  apply (reRank_confidence_clamped sampleFmt sampleTrim sampleUnmarshal
           (sampleProvider "pipeline-high") "review my code" sampleCandidates ∅
           (ScoredPattern "fork_join" 0.65%float) "pipeline-high"
           {| SelectedPattern := "pipeline"; Confidence := 1.5%float; Reasoning := "" |}).
  - reflexivity.
  - reflexivity.
  - reflexivity.
  - vm_compute. apply list_elem_of_further, list_elem_of_here.
  - reflexivity.
Defined.

(** *** Fenced answers *)

(** [fence] starts with a backtick; [pre] and [body] hold none. *)
Lemma fence_cut (f pre body post : string) :
  Contains pre "`" = false → Contains body "`" = false →
  Index (pre ++ String "`" f ++ body ++ "```" ++ post) (String "`" f)
  = Z.of_nat (String.length pre)
  ∧ slice_from (pre ++ String "`" f ++ body ++ "```" ++ post)
      (Z.of_nat (String.length pre) + Z.of_nat (String.length (String "`" f)))
    = body ++ "```" ++ post
  ∧ Index (body ++ "```" ++ post) "```" = Z.of_nat (String.length body)
  ∧ slice (pre ++ String "`" f ++ body ++ "```" ++ post)
      (Z.of_nat (String.length pre) + Z.of_nat (String.length (String "`" f)))
      (Z.of_nat (String.length pre) + Z.of_nat (String.length (String "`" f))
       + Z.of_nat (String.length body))
    = body.
Proof.
  intros Hpre Hbody.
  split; [by apply (Index_after_free "`"%char f)|].
  rewrite <- (str_app_assoc pre (String "`" f)), <- Nat2Z.inj_add, <- str_length_app.
  split; [apply slice_from_app|].
  split; [by apply (Index_after_free "`"%char "``")|].
  apply slice_app.
Qed.

(** A fenced answer: when the text before the fence and the text in it hold
    no backtick and the fenced text is not empty, [extractJSON] returns
    exactly the text between the opening fence (with or without the [json]
    tag) and the next closing fence. *)
Theorem extractJSON_fenced (pre body post : string) :
  Contains pre "`" = false → Contains body "`" = false → body ≠ "" →
  extractJSON (pre ++ "```json" ++ body ++ "```" ++ post) = body
  ∧ (Contains (pre ++ "```" ++ body ++ "```" ++ post) "```json" = false →
     extractJSON (pre ++ "```" ++ body ++ "```" ++ post) = body).
Proof.
  intros Hpre Hbody Hne.
  assert (Hlen : (0 <? Z.of_nat (String.length body))%Z = true).
  { apply Z.ltb_lt. destruct body; [done|]. cbn [String.length]. lia. }
  split.
  - destruct (fence_cut "``json" pre body post Hpre Hbody) as (Hi & Hfrom & Hend & Hcut).
    unfold extractJSON, Contains. rewrite Hi.
    replace (0 <=? Z.of_nat (String.length pre))%Z with true by (symmetry; apply Z.leb_le; lia).
    change 7%Z with (Z.of_nat (String.length "```json")).
    cbv zeta. rewrite Hfrom, Hend, Hlen. exact Hcut.
  - intros Hnojson.
    destruct (fence_cut "``" pre body post Hpre Hbody) as (Hi & Hfrom & Hend & Hcut).
    unfold extractJSON. rewrite Hnojson. unfold Contains. rewrite Hi.
    replace (0 <=? Z.of_nat (String.length pre))%Z with true by (symmetry; apply Z.leb_le; lia).
    change 3%Z with (Z.of_nat (String.length "```")).
    cbv zeta. rewrite Hfrom, Hend, Hlen. exact Hcut.
Qed.

(** [extractJSON] returns the text as it is, fences included, when it holds
    no fence, when a [json] fence is opened and never closed, and when
    nothing stands between the opening fence and the closing one. *)
Theorem extractJSON_unchanged (text : string) :
  (Contains text "```" = false → extractJSON text = text)
  ∧ (∀ pre rest, text = pre ++ "```json" ++ rest →
       Contains pre "`" = false → Contains rest "```" = false →
       extractJSON text = text)
  ∧ (∀ pre post, text = pre ++ "```json" ++ "```" ++ post →
       Contains pre "`" = false → extractJSON text = text).
Proof.
  split; [|split].
  - intros Hno. unfold extractJSON.
    pose proof (Contains_longer text "```" "json" ltac:(done) Hno) as Hnojson.
    change ("```" ++ "json") with "```json" in Hnojson. by rewrite Hnojson, Hno.
  - intros pre rest -> Hpre Hrest.
    unfold extractJSON, Contains.
    rewrite (Index_after_free "`"%char "``json" pre rest Hpre).
    replace (0 <=? Z.of_nat (String.length pre))%Z with true by (symmetry; apply Z.leb_le; lia).
    change 7%Z with (Z.of_nat (String.length "```json")).
    cbv zeta.
    rewrite <- (str_app_assoc pre "```json"), <- Nat2Z.inj_add, <- str_length_app.
    rewrite slice_from_app.
    unfold Contains in Hrest. apply Z.leb_gt in Hrest.
    replace (0 <? Index rest "```")%Z with false by (symmetry; apply Z.ltb_ge; lia). done.
  - intros pre post -> Hpre.
    destruct (fence_cut "``json" pre "" post Hpre eq_refl) as (Hi & Hfrom & Hend & _).
    rewrite str_app_nil_l in Hi, Hfrom, Hend.
    unfold extractJSON, Contains. rewrite Hi.
    replace (0 <=? Z.of_nat (String.length pre))%Z with true by (symmetry; apply Z.leb_le; lia).
    change 7%Z with (Z.of_nat (String.length "```json")).
    cbv zeta. rewrite Hfrom, Hend. done.
Qed.

(** *** Failures of the reranker *)

Section RerankFailures.
Variable fmt_2f : float → string.
Variable TrimSpace : string → string.
Variable json_Unmarshal : string → string + reRankingResult.

#[local] Abbreviation reRank := (reRankPatternsWithLLM fmt_2f TrimSpace json_Unmarshal).
#[local] Abbreviation prompt := (buildPrompt fmt_2f).

(** The failures of [reRankPatternsWithLLM], in the order of its checks: no
    provider; no candidates; the provider's error; a response that does not
    parse (the error carries the trimmed text that was parsed).  Each of them
    returns the empty name and confidence 0.  Only the fallback for a selected
    pattern that is not a candidate returns a name with its error: the first
    candidate, with its keyword score as it is. *)
Theorem reRank_failure_results (llmProvider : option LLMProvider) (userMessage : string)
    (candidates : list scoredPattern) (summaries : gmap string PatternSummary)
    (selected : string) (confidence : float) (e : RerankError) :
  reRank llmProvider userMessage candidates summaries = (selected, confidence, Some e) →
  (e = ErrNilProvider ↔ llmProvider = None)
  ∧ (e = ErrNoCandidates ↔ is_Some llmProvider ∧ candidates = [])
  ∧ (∀ cause, e = ErrLLMFailed cause →
       ∃ provider, llmProvider = Some provider ∧ candidates ≠ []
         ∧ Chat provider [ {| Role := "user";
                              Content := prompt userMessage candidates summaries |} ]
           = inl cause)
  ∧ (∀ cause responseText, e = ErrParse cause responseText →
       ∃ provider content, llmProvider = Some provider
         ∧ Chat provider [ {| Role := "user";
                              Content := prompt userMessage candidates summaries |} ]
           = inr content
         ∧ responseText = TrimSpace (extractJSON content)
         ∧ json_Unmarshal responseText = inl cause)
  ∧ (is_not_in_candidates e = false → selected = "" ∧ confidence = 0%float)
  ∧ (∀ sel, e = ErrNotInCandidates sel →
       (sel ∉ (name <$> candidates))
       ∧ ∃ top, head candidates = Some top
              ∧ selected = name top ∧ confidence = score top).
Proof.
  unfold reRankPatternsWithLLM.
  destruct llmProvider as [provider|].
  2:{ intros [= <- <- <-]. split_and!; try done. split; [done|]. by intros [[? [=]] _]. }
  destruct candidates as [|top rest] eqn:Hcands.
  { intros [= <- <- <-]. split_and!; try done. }
  rewrite <- Hcands.
  destruct (Chat provider _) as [cause|content] eqn:Hchat.
  { intros [= <- <- <-]. subst candidates.
    split_and!; try done; try (split; [done|by intros [_ ?]]).
    intros cause' [= <-]. by exists provider. }
  unfold responseJSON.
  destruct (json_Unmarshal _) as [cause|result] eqn:Hparse.
  { intros [= <- <- <-]. subst candidates.
    split_and!; try done; try (split; [done|by intros [_ ?]]).
    intros cause' text [= <- <-]. by exists provider, content. }
  destruct (foundInCandidates candidates (SelectedPattern result)) eqn:Hfound; [done|].
  intros [= <- <- <-].
  split_and!; try done; try (split; [done|subst candidates; by intros [_ ?]]).
  intros sel' [= <-]. split.
  - intros Hin%foundInCandidates_elem. congruence.
  - subst candidates. by exists top.
Qed.

End RerankFailures.

(** *** More candidates *)

Section GateMore.
Context {IntentCategory : Type} `{EqDecision IntentCategory}.
Variable IntentUnknown : IntentCategory.

Lemma countStrong_app (scored extra : list scoredPattern) :
  (countStrong scored ≤ countStrong (scored ++ extra)%list)%nat.
Proof.
  rewrite !countStrong_length. unfold strongCandidates.
  rewrite filter_app, length_app. lia.
Qed.

(** Candidates appended to the list never turn the reranker off: a list
    that calls for the LLM still calls for it with more candidates after
    it. *)
Theorem shouldInvoke_more_candidates (scored extra : list scoredPattern)
    (intent : IntentCategory) (llmProvider : option LLMProvider) :
  shouldInvokeLLMReRanker IntentUnknown scored intent llmProvider = true →
  shouldInvokeLLMReRanker IntentUnknown (scored ++ extra)%list intent llmProvider = true.
Proof.
  unfold shouldInvokeLLMReRanker. destruct llmProvider as [provider|]; [|done].
  destruct scored as [|s0 rest]; [done|].
  rewrite <- app_comm_cons.
  case_bool_decide; [done|].
  destruct (F64.lt (score s0) thresholdTop); [done|].
  pose proof (countStrong_app (s0 :: rest) extra) as Hmore.
  rewrite <- app_comm_cons in Hmore.
  destruct rest as [|s1 rest].
  - intros Hthree. exfalso. case_bool_decide as Hc; [|done].
    rewrite countStrong_length in Hc. unfold strongCandidates in Hc.
    rewrite filter_cons in Hc. destruct (decide _); simpl in Hc; lia.
  - rewrite <- app_comm_cons.
    destruct (F64.lt (score s0 - score s1) thresholdRace); [done|].
    intros Hthree. case_bool_decide as Hc; [|done].
    rewrite <- app_comm_cons in Hmore. rewrite bool_decide_eq_true_2; [done|lia].
Qed.
End GateMore.

Lemma extractJSON_fenced_witness :
  extractJSON ("Answer: " ++ "```json" ++ "pipeline-high" ++ "```" ++ " done")
  = "pipeline-high".
Proof.
  refine (proj1 (extractJSON_fenced "Answer: " "pipeline-high" " done" _ _ _)).
  - vm_compute. reflexivity.
  - vm_compute. reflexivity.
  - discriminate.
Defined.

Lemma reRank_failure_results_witness :
  ("swarm" ∉ (name <$> sampleCandidates))
  ∧ ∃ top, head sampleCandidates = Some top
         ∧ "fork_join" = name top ∧ 0.65%float = score top.
Proof.
  destruct (reRank_failure_results sampleFmt sampleTrim sampleUnmarshal
              (Some (sampleProvider "swarm")) "review my code" sampleCandidates ∅
              "fork_join" 0.65%float (ErrNotInCandidates "swarm") reRank_out_of_set)
    as (_ & _ & _ & _ & _ & Hfallback).
  exact (Hfallback "swarm" eq_refl).
Defined.

Lemma shouldInvoke_more_candidates_witness :
  shouldInvokeLLMReRanker SampleUnknown (sampleCandidates ++ clearWinner)%list SampleBilling
    (Some (sampleProvider "")) = true.
Proof.
  exact (shouldInvoke_more_candidates SampleUnknown sampleCandidates clearWinner
           SampleBilling (Some (sampleProvider "")) gate_uncertain_top).
Defined.

End Recommender.

(** ** The spawn_agent tool (package builtin) *)

Module Builtin.

(** A Go [interface{}] value as a decoder of tool parameters produces it,
    plus [[]string], which the tool stores in its result. *)
#[local] Set Warnings "-register-all".
Inductive GoValue :=
| VNil
| VBool (b : bool)
| VFloat (f : float)
| VString (s : string)
| VStrings (l : list string)
| VSlice (l : list GoValue)
| VMap (m : gmap string GoValue).

(** A Go map value is nil or a reference to a map object.  [OwnMap m] is a
    reference to an object that holds [m] and that nothing else refers to, as
    the map [Execute] makes for the request it builds; [SharedMap r] is the
    object at address [r] of the memory the caller shares with the handler,
    to which other requests and tracked children may refer as well. *)
Definition MapRef : Type := nat.

Inductive MapValue :=
| NilMap
| OwnMap (entries : gmap string string)
| SharedMap (ref : MapRef).

Record SpawnSubAgentRequest := {
  ParentSessionID : string;
  ParentAgentID : string;
  AgentID : string;
  WorkflowID : string;
  InitialMessage : string;
  AutoSubscribe : list string;
  Metadata : MapValue
}.

Record SpawnSubAgentResponse := {
  SubAgentID : string;
  SessionID : string;
  Status : string;
  SubscribedTopics : list string
}.

(** [SpawnHandler]: the server side of the tool.  [H] is the state behind the
    handler; [E] is the handler's error type with its [Error()] text. *)
Class SpawnHandler (H E : Type) := {
  handler_SpawnSubAgent : H → option SpawnSubAgentRequest → (E + SpawnSubAgentResponse) * H;
  handler_Error : E → string
}.

(** [shuttle.Error] and [shuttle.Result], with the fields the tool fills. *)
Record ToolError := {
  Code : string;
  Message : string;
  Suggestion : string;
  Retryable : bool
}.

Record Result := {
  Success : bool;
  Data : option GoValue;
  Error : option ToolError;
  ResultMetadata : gmap string GoValue;
  ExecutionTimeMs : Z
}.

(** The tool holds its handler (nil when spawning is not configured). *)
Record SpawnAgentTool (H : Type) := {
  handler : option H;
  parentSession : string;
  parentAgentID : string
}.
Arguments handler {H} _.
Arguments parentSession {H} _.
Arguments parentAgentID {H} _.

Definition NewSpawnAgentTool {H : Type} (handler : option H)
    (parentSessionID parentAgentID : string) : SpawnAgentTool H :=
  {| handler := handler; parentSession := parentSessionID; parentAgentID := parentAgentID |}.

Definition withHandler {H : Type} (h : H) (t : SpawnAgentTool H) : SpawnAgentTool H :=
  {| handler := Some h; parentSession := parentSession t; parentAgentID := parentAgentID t |}.

Definition failure (code message suggestion : string) (retryable : bool) (elapsed : Z) : Result :=
  {| Success := false;
     Data := None;
     Error := Some {| Code := code; Message := message;
                      Suggestion := suggestion; Retryable := retryable |};
     ResultMetadata := ∅;
     ExecutionTimeMs := elapsed |}.

(** Type assertions [v.(string)], [v.([]any)], [v.(map[string]any)] on an
    entry of the parameter map; a missing key asserts like nil. *)
Definition asString (v : option GoValue) : option string :=
  match v with Some (VString s) => Some s | _ => None end.

Definition asSlice (v : option GoValue) : option (list GoValue) :=
  match v with Some (VSlice l) => Some l | _ => None end.

Definition asMap (v : option GoValue) : option (gmap string GoValue) :=
  match v with Some (VMap m) => Some m | _ => None end.

(** The elements of [auto_subscribe] that are strings, in order. *)
Definition stringElements (sub : list GoValue) : list string :=
  omap (λ topic, asString (Some topic)) sub.

(** The entries of [metadata] whose value is a string. *)
Definition stringEntries (md : gmap string GoValue) : gmap string string :=
  omap (λ v, asString (Some v)) md.

Section Execute.
Context {H E : Type} `{SpawnHandler H E}.

(** [elapsed] is the reading of [time.Since(start).Milliseconds()].  The
    result is Go's pair of a [shuttle.Result] and an error, and the tool with the
    handler's state after the call. *)
Definition Execute (t : SpawnAgentTool H) (params : gmap string GoValue) (elapsed : Z)
    : (Result * option string) * SpawnAgentTool H :=
  match handler t with
  | None =>
      (failure "SPAWN_NOT_AVAILABLE"
         "Agent spawning not configured for this server"
         "spawn_agent requires MultiAgentServer with agent registry" false elapsed,
       None, t)
  | Some h =>
    match asString (params !! "agent_id") with
    | None =>
        (failure "INVALID_AGENT_ID" "agent_id must be a non-empty string"
           "Provide agent_id like 'fighter' or 'analyst'" false elapsed, None, t)
    | Some agentID =>
      if String.eqb agentID "" then
        (failure "INVALID_AGENT_ID" "agent_id must be a non-empty string"
           "Provide agent_id like 'fighter' or 'analyst'" false elapsed, None, t)
      else
        let workflowID := default "" (asString (params !! "workflow_id")) in
        let initialMessage := default "" (asString (params !! "initial_message")) in
        let autoSubscribe :=
          match asSlice (params !! "auto_subscribe") with
          | Some sub => stringElements sub
          | None => []
          end in
        let metadata :=
          match asMap (params !! "metadata") with
          | Some md => stringEntries md
          | None => ∅
          end in
        let req := {| ParentSessionID := parentSession t;
                      ParentAgentID := parentAgentID t;
                      AgentID := agentID;
                      WorkflowID := workflowID;
                      InitialMessage := initialMessage;
                      AutoSubscribe := autoSubscribe;
                      Metadata := OwnMap metadata |} in
        match handler_SpawnSubAgent h (Some req) with
        | (inl err, h') =>
            (failure "SPAWN_FAILED" ("Failed to spawn agent: " ++ handler_Error err)
               "Check if agent config exists and server has capacity" true elapsed,
             None, withHandler h' t)
        | (inr resp, h') =>
            let result : gmap string GoValue :=
              {[ "success" := VBool true;
                 "sub_agent_id" := VString (SubAgentID resp);
                 "session_id" := VString (SessionID resp);
                 "status" := VString (Status resp);
                 "subscribed_topics" := VStrings (SubscribedTopics resp) ]} in
            ({| Success := true;
                Data := Some (VMap result);
                Error := None;
                ResultMetadata :=
                  {[ "sub_agent_id" := VString (SubAgentID resp);
                     "session_id" := VString (SessionID resp);
                     "subscribed_topics" := VStrings (SubscribedTopics resp) ]};
                ExecutionTimeMs := elapsed |},
             None, withHandler h' t)
        end
    end
  end.

(** The three ways [agent_id] can be unusable: absent, not a string, or the
    empty string. *)
Definition invalidAgentID (params : gmap string GoValue) : Prop :=
  asString (params !! "agent_id") = None ∨ asString (params !! "agent_id") = Some "".

Lemma Execute_invalid_agent_id (t : SpawnAgentTool H) (h : H)
    (params : gmap string GoValue) (elapsed : Z) :
  handler t = Some h → invalidAgentID params →
  Execute t params elapsed =
    (failure "INVALID_AGENT_ID" "agent_id must be a non-empty string"
       "Provide agent_id like 'fighter' or 'analyst'" false elapsed, None, t).
Proof.
  intros Hh Hbad. unfold Execute. rewrite Hh. by destruct Hbad as [-> | ->].
Qed.

(** C4: [Execute] always returns a nil Go error.  A result that is not a
    success carries a structured error with code, message, suggestion and
    retryable flag, and it arises in exactly three ways: no handler
    (SPAWN_NOT_AVAILABLE), an absent, non-string or empty [agent_id]
    (INVALID_AGENT_ID), or an error of the handler (SPAWN_FAILED, retryable,
    with the handler's error text in the message).  With an unusable
    [agent_id] the result is a failure and the handler is not called: the
    tool and the state behind its handler are unchanged. *)
Theorem Execute_errors_structured (t t' : SpawnAgentTool H)
    (params : gmap string GoValue) (elapsed : Z)
    (result : Result) (err : option string) :
  Execute t params elapsed = (result, err, t') →
  err = None
  ∧ (Success result = false →
     Data result = None ∧
     ∃ e, Error result = Some e
        ∧ Message e ≠ "" ∧ Suggestion e ≠ ""
        ∧ ((handler t = None ∧ t' = t
            ∧ Code e = "SPAWN_NOT_AVAILABLE" ∧ Retryable e = false)
           ∨ (is_Some (handler t) ∧ invalidAgentID params ∧ t' = t
              ∧ Code e = "INVALID_AGENT_ID" ∧ Retryable e = false)
           ∨ (∃ h req herr h',
                handler t = Some h
                ∧ handler_SpawnSubAgent h (Some req) = (inl herr, h')
                ∧ t' = withHandler h' t
                ∧ Code e = "SPAWN_FAILED" ∧ Retryable e = true
                ∧ Message e = "Failed to spawn agent: " ++ handler_Error herr)))
  ∧ (invalidAgentID params → Success result = false ∧ t' = t)
  ∧ (Success result = true →
     Error result = None
     ∧ ∃ h req resp h',
         handler t = Some h
         ∧ handler_SpawnSubAgent h (Some req) = (inr resp, h')
         ∧ AgentID req ≠ ""
         ∧ asString (params !! "agent_id") = Some (AgentID req)).
Proof.
  unfold Execute. intros Hexec.
  destruct (handler t) as [h|] eqn:Hh.
  - destruct (asString (params !! "agent_id")) as [agentID|] eqn:Hid.
    + destruct (String.eqb_spec agentID "") as [->|Hne].
      * injection Hexec as <- <- <-. simpl.
        split; [done|]. split; [|split]; [| |discriminate].
        -- intros _. split; [done|]. eexists. split; [done|]. simpl.
           split; [discriminate|]. split; [discriminate|]. right; left.
           repeat split; eauto. by right.
        -- done.
      * match type of Hexec with
        | match handler_SpawnSubAgent h (Some ?r) with _ => _ end = _ =>
            set (req := r) in *;
            destruct (handler_SpawnSubAgent h (Some req)) as [[herr|resp] h'] eqn:Hcall
        end; injection Hexec as <- <- <-; simpl.
        -- split; [done|]. split; [|split]; [| |discriminate].
           ++ intros _. split; [done|]. eexists. split; [done|]. simpl.
              split; [discriminate|]. split; [discriminate|]. right; right.
              exists h, req, herr, h'. done.
           ++ intros [Hbad|Hbad]; congruence.
        -- split; [done|]. split; [discriminate|]. split.
           ++ intros [Hbad|Hbad]; congruence.
           ++ intros _. split; [done|]. exists h, req, resp, h'. done.
    + injection Hexec as <- <- <-. simpl.
      split; [done|]. split; [|split]; [| |discriminate].
      * intros _. split; [done|]. eexists. split; [done|]. simpl.
        split; [discriminate|]. split; [discriminate|]. right; left.
        repeat split; eauto. by left.
      * done.
  - injection Hexec as <- <- <-. simpl.
    split; [done|]. split; [|split]; [| |discriminate].
    + intros _. split; [done|]. eexists. split; [done|]. simpl.
      split; [discriminate|]. split; [discriminate|]. left. done.
    + done.
Qed.

(** *** The request handed to the handler *)

Lemma asString_Some (v : option GoValue) (x : string) :
  asString v = Some x ↔ v = Some (VString x).
Proof. destruct v as [[]|]; simpl; split; congruence. Qed.

Lemma elem_of_stringElements (sub : list GoValue) (topic : string) :
  topic ∈ stringElements sub ↔ VString topic ∈ sub.
Proof.
  unfold stringElements. rewrite list_elem_of_omap. split.
  - intros (v & Hin & Hv). apply asString_Some in Hv. by simplify_eq.
  - intros Hin. by exists (VString topic).
Qed.

Lemma stringElements_sublist (sub : list GoValue) :
  VString <$> stringElements sub `sublist_of` sub.
Proof.
  induction sub as [|v sub IH]; [done|]. unfold stringElements in *. cbn [omap list_omap].
  destruct (asString (Some v)) as [x|] eqn:Hv.
  - apply asString_Some in Hv. simplify_eq. cbn. by apply sublist_skip.
  - by apply sublist_cons.
Qed.

(** Whether a value is a string, which is what the assertion [v.(string)]
    tests. *)
Definition isString (v : GoValue) : bool :=
  match v with VString _ => true | _ => false end.

Lemma stringElements_filter (sub : list GoValue) :
  VString <$> stringElements sub = filter (λ v, isString v = true) sub.
Proof.
  induction sub as [|v sub IH]; [done|]. unfold stringElements in *.
  cbn [omap list_omap]. rewrite filter_cons.
  destruct v; cbn;
    first [ rewrite decide_True by done; cbn; f_equal; apply IH
          | rewrite decide_False by done; apply IH ].
Qed.

Lemma lookup_stringEntries (md : gmap string GoValue) (k v : string) :
  stringEntries md !! k = Some v ↔ md !! k = Some (VString v).
Proof.
  unfold stringEntries. rewrite lookup_omap_Some. split.
  - intros (x & Hx & Hl). apply asString_Some in Hx. by simplify_eq.
  - intros Hl. by exists (VString v).
Qed.

(** With a handler and a usable [agent_id], [Execute] calls the handler with
    one request and keeps the state the handler answers.  The parent session
    and the parent agent of the request are those of the tool, whatever the
    parameters hold; the agent id is the parameter; a workflow id or initial
    message that is absent or not a string counts as empty; the topics are
    exactly the string elements of [auto_subscribe], each as often as it
    stands there and in their order; and the metadata is never nil: it is a
    map made for this request that holds exactly the entries of [metadata]
    whose value is a string. *)
Theorem Execute_forwards_request (t : SpawnAgentTool H) (h : H)
    (params : gmap string GoValue) (elapsed : Z) :
  handler t = Some h → ¬ invalidAgentID params →
  ∃ req,
    (Execute t params elapsed).2 = withHandler (handler_SpawnSubAgent h (Some req)).2 t
    ∧ Success (Execute t params elapsed).1.1
      = (if (handler_SpawnSubAgent h (Some req)).1 is inr _ then true else false)
    ∧ ParentSessionID req = parentSession t
    ∧ ParentAgentID req = parentAgentID t
    ∧ params !! "agent_id" = Some (VString (AgentID req))
    ∧ AgentID req ≠ ""
    ∧ WorkflowID req = default "" (asString (params !! "workflow_id"))
    ∧ InitialMessage req = default "" (asString (params !! "initial_message"))
    ∧ (∀ topic, topic ∈ AutoSubscribe req
                ↔ ∃ sub, params !! "auto_subscribe" = Some (VSlice sub)
                         ∧ VString topic ∈ sub)
    ∧ (∀ sub, params !! "auto_subscribe" = Some (VSlice sub) →
              VString <$> AutoSubscribe req `sublist_of` sub)
    ∧ VString <$> AutoSubscribe req
      = match params !! "auto_subscribe" with
        | Some (VSlice sub) => filter (λ v, isString v = true) sub
        | _ => []
        end
    ∧ ∃ md, Metadata req = OwnMap md
          ∧ ∀ k v, md !! k = Some v
                   ↔ ∃ m, params !! "metadata" = Some (VMap m)
                          ∧ m !! k = Some (VString v).
Proof.
  intros Hh Hok. unfold Execute. rewrite Hh.
  destruct (asString (params !! "agent_id")) as [agentID|] eqn:Hid;
    [|destruct Hok; by left].
  destruct (String.eqb_spec agentID "") as [->|Hne]; [destruct Hok; by right|].
  apply asString_Some in Hid.
  match goal with |- context [handler_SpawnSubAgent h (Some ?r)] => exists r end.
  destruct (handler_SpawnSubAgent h _) as [[herr|resp] h'] eqn:Hcall; cbn;
    (repeat (split; [done|]); split; [|split; [|split; [|eexists; split; [done|]]]]).
  all: try (intros topic; destruct (params !! "auto_subscribe") as [[]|]; cbn;
            try (split; [by intros ?%elem_of_nil | by intros (? & [=] & _)]);
            rewrite elem_of_stringElements;
            split; [intros ?; by eexists | by intros (? & [= <-] & ?)]).
  all: try (intros sub ->; cbn; apply stringElements_sublist).
  all: try (destruct (params !! "auto_subscribe") as [[]|]; cbn; try done;
            apply stringElements_filter).
  all: intros k v; destruct (params !! "metadata") as [[]|]; cbn;
       try (split; [by intros ?%lookup_empty_Some | by intros (? & [=] & _)]);
       rewrite lookup_stringEntries;
       split; [intros ?; by eexists | by intros (? & [= <-] & ?)].
Qed.

End Execute.

End Builtin.

(** ** The spawn manager (package server) *)

Module Server.
Import Builtin.

(** [agent.Session], with the fields the spawn manager writes and reads.
    Times are nanoseconds. *)
Record Session := {
  ID : string;
  sessionAgentID : string;
  sessionParentID : string;
  CreatedAt : Z;
  UpdatedAt : Z
}.

(** A bus subscription: the spawn manager reads [ID] and [Topic]. *)
Record Subscription := {
  subscriptionID : string;
  Topic : string
}.

(** The collaborators of the server, over a world state [W]: the agent
    loader, the session id generator, the clock, the session store and the
    message bus.  An error is its text.  [getOrLoadAgent] and
    [GenerateSessionID] belong to the server package but are not among the
    files at hand; like the others they may change the world, not the spawn
    table. *)
Class Collaborators (W Agent : Type) := {
  getOrLoadAgent : string → W → (string + Agent) * W;
  GenerateSessionID : W → string * W;
  timeNow : W → Z * W;
  SaveSession : Session → W → option string * W;
  LoadSession : string → W → (string + Session) * W;
  busSubscribe : string → string → nat → W → (string + Subscription) * W;
  busGetSubscriptionsByAgent : string → W → list Subscription;
  busUnsubscribe : string → W → W
}.

Inductive LogLevel := LevelDebug | LevelInfo | LevelWarn.

Record LogEntry := {
  level : LogLevel;
  msg : string;
  fields : list (string * string)
}.

(** The errors [SpawnSubAgent] builds with [fmt.Errorf]. *)
Inductive SpawnError :=
| ErrNilRequest
| ErrParentRequired
| ErrAgentRequired
| ErrNoRegistry
| ErrSpawnLimit (existingSpawns maxSpawnsPerParent : nat)
| ErrLoadAgent (agentID cause : string)
| ErrCreateSession (cause : string).

Definition SpawnError_Error (e : SpawnError) : string :=
  match e with
  | ErrNilRequest => "spawn request cannot be nil"
  | ErrParentRequired => "parent session ID is required"
  | ErrAgentRequired => "agent ID is required"
  | ErrNoRegistry => "agent registry not configured"
  | ErrSpawnLimit existing maxSpawns =>
      "spawn limit reached: parent has " ++ pretty existing
      ++ " spawned agents (max: " ++ pretty maxSpawns ++ ")"
  | ErrLoadAgent agentID cause => "failed to load agent " ++ agentID ++ ": " ++ cause
  | ErrCreateSession cause => "failed to create session: " ++ cause
  end.

Definition is_spawn_limit (e : SpawnError) : bool :=
  match e with ErrSpawnLimit _ _ => true | _ => false end.

(** [truncateString] *)
Definition truncateString (s : string) (maxLen : nat) : string :=
  if bool_decide (String.length s ≤ maxLen)%nat then s
  else GoStrings.slice_to s maxLen ++ "...".

Section SpawnManager.
Context {W Agent : Type} `{Collaborators W Agent}.

(** [cancelFunc] is the handle of the context created for the child; a
    context is named by a number.  [metadata] is a Go map value: nil, or the
    address of a map object in [mapObjects] of the server. *)
Record spawnedAgentContext := {
  parentSessionID : string;
  parentAgentID : string;
  subAgentID : string;
  subSessionID : string;
  workflowID : string;
  agent : Agent;
  spawnedAt : Z;
  subscriptions : list string;
  metadata : option MapRef;
  cancelFunc : option nat
}.

(** The server: which collaborators are configured (non-nil), the spawn
    table, the world behind the collaborators, the log written so far, the
    contexts created and canceled, the monitor goroutines started, and the
    map objects that the entries of the table and the requests of the callers
    refer to ([nextMap] is the address the next new object gets). *)
Record MultiAgentServer := {
  registry : bool;
  logger : bool;
  messageBus : bool;
  spawnedAgents : gmap string spawnedAgentContext;
  world : W;
  logs : list LogEntry;
  nextContext : nat;
  canceled : gset nat;
  monitors : list (nat * string);
  mapObjects : gmap MapRef (gmap string string);
  nextMap : MapRef
}.

Definition withSpawnedAgents (m : gmap string spawnedAgentContext) (s : MultiAgentServer)
    : MultiAgentServer :=
  {| registry := registry s; logger := logger s; messageBus := messageBus s;
     spawnedAgents := m; world := world s; logs := logs s;
     nextContext := nextContext s; canceled := canceled s; monitors := monitors s;
     mapObjects := mapObjects s; nextMap := nextMap s |}.

Definition withWorld (w : W) (s : MultiAgentServer) : MultiAgentServer :=
  {| registry := registry s; logger := logger s; messageBus := messageBus s;
     spawnedAgents := spawnedAgents s; world := w; logs := logs s;
     nextContext := nextContext s; canceled := canceled s; monitors := monitors s;
     mapObjects := mapObjects s; nextMap := nextMap s |}.

Definition withLogs (l : list LogEntry) (s : MultiAgentServer) : MultiAgentServer :=
  {| registry := registry s; logger := logger s; messageBus := messageBus s;
     spawnedAgents := spawnedAgents s; world := world s; logs := l;
     nextContext := nextContext s; canceled := canceled s; monitors := monitors s;
     mapObjects := mapObjects s; nextMap := nextMap s |}.

(** [context.WithCancel]: a fresh context and its cancel handle. *)
Definition newContext (s : MultiAgentServer) : nat * MultiAgentServer :=
  (nextContext s,
   {| registry := registry s; logger := logger s; messageBus := messageBus s;
      spawnedAgents := spawnedAgents s; world := world s; logs := logs s;
      nextContext := S (nextContext s); canceled := canceled s; monitors := monitors s;
      mapObjects := mapObjects s; nextMap := nextMap s |}).

Definition cancel (c : nat) (s : MultiAgentServer) : MultiAgentServer :=
  {| registry := registry s; logger := logger s; messageBus := messageBus s;
     spawnedAgents := spawnedAgents s; world := world s; logs := logs s;
     nextContext := nextContext s; canceled := {[ c ]} ∪ canceled s; monitors := monitors s;
     mapObjects := mapObjects s; nextMap := nextMap s |}.

(** [go s.monitorSpawnedAgent(subCtx, sessionID)] *)
Definition startMonitor (c : nat) (sessionID : string) (s : MultiAgentServer)
    : MultiAgentServer :=
  {| registry := registry s; logger := logger s; messageBus := messageBus s;
     spawnedAgents := spawnedAgents s; world := world s; logs := logs s;
     nextContext := nextContext s; canceled := canceled s;
     monitors := monitors s ++ [(c, sessionID)];
     mapObjects := mapObjects s; nextMap := nextMap s |}.

(** [make(map[string]string)] and the writes that fill it: a new map
    object. *)
Definition newMap (entries : gmap string string) (s : MultiAgentServer)
    : MapRef * MultiAgentServer :=
  (nextMap s,
   {| registry := registry s; logger := logger s; messageBus := messageBus s;
      spawnedAgents := spawnedAgents s; world := world s; logs := logs s;
      nextContext := nextContext s; canceled := canceled s; monitors := monitors s;
      mapObjects := <[nextMap s := entries]> (mapObjects s); nextMap := S (nextMap s) |}).

(** [m[key] = value] on the map object at [r]: every holder of a reference
    to that object sees the entry. *)
Definition writeMap (r : MapRef) (key value : string) (s : MultiAgentServer)
    : MultiAgentServer :=
  {| registry := registry s; logger := logger s; messageBus := messageBus s;
     spawnedAgents := spawnedAgents s; world := world s; logs := logs s;
     nextContext := nextContext s; canceled := canceled s; monitors := monitors s;
     mapObjects := <[r := <[key := value]> (default ∅ (mapObjects s !! r))]> (mapObjects s);
     nextMap := nextMap s |}.

(** The map value of a request as the server keeps it.  The server copies
    the reference, not the map: a shared object stays where it is, and an
    object owned by the request is from now on an object of [mapObjects]. *)
Definition holdMap (m : MapValue) (s : MultiAgentServer)
    : option MapRef * MultiAgentServer :=
  match m with
  | NilMap => (None, s)
  | OwnMap entries => let '(r, s) := newMap entries s in (Some r, s)
  | SharedMap r => (Some r, s)
  end.

(** A nil logger is replaced by a no-op logger. *)
Definition logTo (lvl : LogLevel) (m : string) (fs : list (string * string))
    (s : MultiAgentServer) : MultiAgentServer :=
  if logger s then withLogs (logs s ++ [ {| level := lvl; msg := m; fields := fs |} ]) s
  else s.

(** A call to a collaborator. *)
Definition call {A : Type} (f : W → A * W) (s : MultiAgentServer) : A * MultiAgentServer :=
  let '(a, w) := f (world s) in (a, withWorld w s).

(** [countSpawnedAgentsByParent]: the loop over the spawn table. *)
Definition countSpawnedAgentsByParent (s : MultiAgentServer) (parent : string) : nat :=
  map_fold (λ _ spawned count,
              if String.eqb (parentSessionID spawned) parent then S count else count)
           0 (spawnedAgents s).

Definition maxSpawnsPerParent : nat := 10.

(** The auto-subscribe loop: a failed subscription is logged and skipped. *)
Fixpoint autoSubscribeLoop (subAgent : string) (topics : list string)
    (subscribedTopics : list string) (s : MultiAgentServer)
    : list string * MultiAgentServer :=
  match topics with
  | [] => (subscribedTopics, s)
  | topic :: rest =>
      match call (busSubscribe subAgent topic 100) s with
      | (inl err, s1) =>
          autoSubscribeLoop subAgent rest subscribedTopics
            (logTo LevelWarn "Failed to auto-subscribe to topic"
               [("topic", topic); ("sub_agent_id", subAgent); ("error", err)] s1)
      | (inr subscription, s1) =>
          autoSubscribeLoop subAgent rest (subscribedTopics ++ [topic])
            (logTo LevelInfo "Auto-subscribed spawned agent to topic"
               [("sub_agent_id", subAgent); ("topic", topic);
                ("subscription_id", subscriptionID subscription)] s1)
      end
  end.

Definition fullSubAgentID (req : SpawnSubAgentRequest) : string :=
  if String.eqb (WorkflowID req) "" then AgentID req
  else WorkflowID req ++ ":" ++ AgentID req.

(** The first half of [SpawnSubAgent], for a non-nil request: validation,
    the spawn limit, loading the agent and storing the new session.  It
    answers the error, or the agent and the new session id. *)
Definition createSubSession (s : MultiAgentServer) (req : SpawnSubAgentRequest)
    : (SpawnError + Agent * string) * MultiAgentServer :=
  if String.eqb (ParentSessionID req) "" then (inl ErrParentRequired, s)
  else if String.eqb (AgentID req) "" then (inl ErrAgentRequired, s)
  else if negb (registry s) then (inl ErrNoRegistry, s)
  else
    let s := logTo LevelInfo "Spawning sub-agent"
               [("parent_session", ParentSessionID req);
                ("parent_agent", Builtin.ParentAgentID req);
                ("agent_id", AgentID req); ("workflow_id", WorkflowID req)] s in
    let existingSpawns := countSpawnedAgentsByParent s (ParentSessionID req) in
    if bool_decide (maxSpawnsPerParent ≤ existingSpawns)%nat then
      (inl (ErrSpawnLimit existingSpawns maxSpawnsPerParent), s)
    else
      match call (getOrLoadAgent (AgentID req)) s with
      | (inl err, s) => (inl (ErrLoadAgent (AgentID req) err), s)
      | (inr ag, s) =>
        let '(sessionID, s) := call GenerateSessionID s in
        let '(createdAt, s) := call timeNow s in
        let '(updatedAt, s) := call timeNow s in
        let session := {| ID := sessionID;
                          sessionAgentID := AgentID req;
                          sessionParentID := ParentSessionID req;
                          CreatedAt := createdAt;
                          UpdatedAt := updatedAt |} in
        match call (SaveSession session) s with
        | (Some err, s) => (inl (ErrCreateSession err), s)
        | (None, s) =>
            (inr (ag, sessionID),
             logTo LevelInfo "Created sub-agent session"
               [("session_id", sessionID); ("sub_agent_id", fullSubAgentID req)] s)
        end
      end.

(** The second half: tracking the child, the initial message, the monitor
    and the response.  The entry keeps the map of the request itself (line
    124), and the initial message is written into that map (lines 140-144), or
    into a new one when the request had none. *)
Definition trackSpawned (req : SpawnSubAgentRequest) (ag : Agent) (sessionID : string)
    (subscribedTopics : list string) (s : MultiAgentServer)
    : SpawnSubAgentResponse * MultiAgentServer :=
  let subAgent := fullSubAgentID req in
  let '(subCtx, s) := newContext s in
  let '(now, s) := call timeNow s in
  let '(md, s) := holdMap (Metadata req) s in
  let spawnedAgent := {| parentSessionID := ParentSessionID req;
                         parentAgentID := Builtin.ParentAgentID req;
                         subAgentID := subAgent;
                         subSessionID := sessionID;
                         workflowID := WorkflowID req;
                         agent := ag;
                         spawnedAt := now;
                         subscriptions := subscribedTopics;
                         metadata := md;
                         cancelFunc := Some subCtx |} in
  let s := withSpawnedAgents (<[sessionID := spawnedAgent]> (spawnedAgents s)) s in
  let s := logTo LevelInfo "Spawned sub-agent tracked"
             [("session_id", sessionID); ("sub_agent_id", subAgent);
              ("subscribed_topics", pretty (length subscribedTopics))] s in
  let s :=
    if String.eqb (InitialMessage req) "" then s
    else
      let '(r, s) := match md with
                     | Some r => (r, s)
                     | None => newMap ∅ s
                     end in
      let s := writeMap r "initial_message" (InitialMessage req) s in
      let spawnedAgent := {| parentSessionID := ParentSessionID req;
                             parentAgentID := Builtin.ParentAgentID req;
                             subAgentID := subAgent;
                             subSessionID := sessionID;
                             workflowID := WorkflowID req;
                             agent := ag;
                             spawnedAt := now;
                             subscriptions := subscribedTopics;
                             metadata := Some r;
                             cancelFunc := Some subCtx |} in
      logTo LevelInfo
        "Initial message stored in metadata (parent should send via send_message/publish)"
        [("session_id", sessionID);
         ("message_preview", truncateString (InitialMessage req) 50)]
        (withSpawnedAgents (<[sessionID := spawnedAgent]> (spawnedAgents s)) s) in
  let s := startMonitor subCtx sessionID s in
  let resp := {| SubAgentID := subAgent;
                 SessionID := sessionID;
                 Status := "spawned";
                 SubscribedTopics := subscribedTopics |} in
  (resp,
   logTo LevelInfo "Sub-agent spawn complete"
     [("sub_agent_id", subAgent); ("session_id", sessionID);
      ("subscribed_topics", pretty (length subscribedTopics))] s).

Definition SpawnSubAgent (s : MultiAgentServer) (req : option SpawnSubAgentRequest)
    : (SpawnError + SpawnSubAgentResponse) * MultiAgentServer :=
  match req with
  | None => (inl ErrNilRequest, s)
  | Some req =>
    match createSubSession s req with
    | (inl err, s) => (inl err, s)
    | (inr (ag, sessionID), s) =>
        let '(subscribedTopics, s) :=
          if messageBus s && bool_decide (0 < length (AutoSubscribe req))%nat then
            autoSubscribeLoop (fullSubAgentID req) (AutoSubscribe req) [] s
          else ([], s) in
        let '(resp, s) := trackSpawned req ag sessionID subscribedTopics s in
        (inr resp, s)
    end
  end.

(** The unsubscribe loop of [cleanupSpawnedAgent] for one recorded topic: a
    snapshot of the agent's subscriptions, then [Unsubscribe] for each one on
    that topic (its error is dropped). *)
Definition unsubscribeTopic (subAgent topic : string) (s : MultiAgentServer)
    : MultiAgentServer :=
  foldl (λ s sub,
           if String.eqb (Topic sub) topic then
             logTo LevelDebug "Unsubscribed spawned agent from topic"
               [("sub_agent_id", subAgent); ("topic", topic)]
               (withWorld (busUnsubscribe (subscriptionID sub) (world s)) s)
           else s)
        s (busGetSubscriptionsByAgent subAgent (world s)).

Definition cleanupSpawnedAgent (sessionID reason : string) (s : MultiAgentServer)
    : MultiAgentServer :=
  match spawnedAgents s !! sessionID with
  | None => s
  | Some spawned =>
      let s := withSpawnedAgents (delete sessionID (spawnedAgents s)) s in
      let s := logTo LevelInfo "Cleaning up spawned agent"
                 [("session_id", sessionID); ("sub_agent_id", subAgentID spawned);
                  ("reason", reason)] s in
      let s := match cancelFunc spawned with
               | Some c => cancel c s
               | None => s
               end in
      let s := if messageBus s then
                 foldl (λ s topic, unsubscribeTopic (subAgentID spawned) topic s)
                       s (subscriptions spawned)
               else s in
      logTo LevelInfo "Spawned agent cleanup complete"
        [("session_id", sessionID); ("sub_agent_id", subAgentID spawned)] s
  end.

(** [cleanupSpawnedAgentsByParent].  Go leaves the iteration order of a map
    open; the model visits the table in the order of [map_to_list]. *)
Definition childrenOf (parent : string) (s : MultiAgentServer) : list string :=
  (filter (λ kv, parentSessionID kv.2 = parent) (map_to_list (spawnedAgents s))).*1.

Definition cleanupSpawnedAgentsByParent (parent : string) (s : MultiAgentServer)
    : MultiAgentServer :=
  let toCleanup := childrenOf parent s in
  if bool_decide (0 < length toCleanup)%nat then
    foldl (λ s sessionID, cleanupSpawnedAgent sessionID "parent session ended" s)
          (logTo LevelInfo "Cleaning up spawned agents for parent"
             [("parent_session", parent); ("spawned_count", pretty (length toCleanup))] s)
          toCleanup
  else s.

(** One round of the [select] loop of [monitorSpawnedAgent]: either the
    context is done, or the ticker fired.  The answer tells whether the loop
    goes on. *)
Inductive MonitorEvent := CtxDone | Tick.

Definition idleLimit : Z := 10 * 60 * 1000000000.

Definition monitorRound (sessionID : string) (ev : MonitorEvent) (s : MultiAgentServer)
    : bool * MultiAgentServer :=
  match ev with
  | CtxDone =>
      (false,
       cleanupSpawnedAgent sessionID "parent context canceled"
         (logTo LevelInfo "Spawned agent monitor canceled" [("session_id", sessionID)] s))
  | Tick =>
      match call (LoadSession sessionID) s with
      | (inl err, s) =>
          (true, logTo LevelWarn "Failed to get spawned agent session"
                   [("session_id", sessionID); ("error", err)] s)
      | (inr session, s) =>
          let '(now, s) := call timeNow s in
          if (idleLimit <? now - UpdatedAt session)%Z then
            let '(now', s) := call timeNow s in
            (false,
             cleanupSpawnedAgent sessionID "session expired"
               (logTo LevelInfo "Spawned agent session expired"
                  [("session_id", sessionID);
                   ("idle_time", pretty (now' - UpdatedAt session)%Z)] s))
          else (true, s)
      end
  end.

(** [monitorSpawnedAgent]: the loop, over the events its [select] receives;
    it ends with the first round that returns. *)
Fixpoint monitorSpawnedAgent (sessionID : string) (events : list MonitorEvent)
    (s : MultiAgentServer) : MultiAgentServer :=
  match events with
  | [] => s
  | ev :: rest =>
      match monitorRound sessionID ev s with
      | (true, s) => monitorSpawnedAgent sessionID rest s
      | (false, s) => s
      end
  end.

(** *** Operations on the server, one at a time

    [step] and [run] are the behaviour of callers that do not overlap: each
    operation ends before the next begins.  [SpawnSubAgent] holds no lock from
    its count to its insert, so calls that overlap are not covered by [run];
    they are the subject of [move] and [interleave] below. *)

Inductive Op :=
| OpSpawn (req : option SpawnSubAgentRequest)
| OpCleanup (sessionID reason : string)
| OpCleanupByParent (parent : string)
| OpMonitor (subCtx : nat) (sessionID : string) (ev : MonitorEvent).

Definition stopMonitor (c : nat) (sessionID : string) (s : MultiAgentServer)
    : MultiAgentServer :=
  {| registry := registry s; logger := logger s; messageBus := messageBus s;
     spawnedAgents := spawnedAgents s; world := world s; logs := logs s;
     nextContext := nextContext s; canceled := canceled s;
     monitors := filter (λ m, m ≠ (c, sessionID)) (monitors s);
     mapObjects := mapObjects s; nextMap := nextMap s |}.

(** A monitor round happens only for a started monitor, and its [CtxDone]
    case only once the context has been canceled. *)
Definition monitorEnabled (c : nat) (sessionID : string) (ev : MonitorEvent)
    (s : MultiAgentServer) : bool :=
  bool_decide ((c, sessionID) ∈ monitors s)
  && match ev with CtxDone => bool_decide (c ∈ canceled s) | Tick => true end.

Definition step (s : MultiAgentServer) (op : Op) : MultiAgentServer :=
  match op with
  | OpSpawn req => (SpawnSubAgent s req).2
  | OpCleanup sessionID reason => cleanupSpawnedAgent sessionID reason s
  | OpCleanupByParent parent => cleanupSpawnedAgentsByParent parent s
  | OpMonitor c sessionID ev =>
      if monitorEnabled c sessionID ev s then
        match monitorRound sessionID ev s with
        | (true, s) => s
        | (false, s) => stopMonitor c sessionID s
        end
      else s
  end.

Definition run (ops : list Op) (s : MultiAgentServer) : MultiAgentServer :=
  foldl step s ops.

(** *** Overlapping calls of [SpawnSubAgent]

    The count of the children of a parent is taken under the read lock (lines
    54 and 170-181), which is given back before the collaborators are called;
    the child is inserted under the write lock taken at line 128.  Between the
    two no lock is held, so a second call can run its own count there.  The
    model cuts a call in two at the point where its session is stored (line
    89): [createSubSession] before, [finishSpawn] after.  Every schedule of
    the two halves is an execution of the Go code, which has finer ones. *)

(** Lines 91-166 of [SpawnSubAgent]: auto-subscription, then tracking. *)
Definition finishSpawn (req : SpawnSubAgentRequest) (ag : Agent) (sessionID : string)
    (s : MultiAgentServer) : SpawnSubAgentResponse * MultiAgentServer :=
  let '(subscribedTopics, s) :=
    if messageBus s && bool_decide (0 < length (AutoSubscribe req))%nat then
      autoSubscribeLoop (fullSubAgentID req) (AutoSubscribe req) [] s
    else ([], s) in
  trackSpawned req ag sessionID subscribedTopics s.

(** A call that has passed the limit check and stored its session, and has
    not tracked its child yet. *)
Record PendingSpawn := {
  pendingRequest : SpawnSubAgentRequest;
  pendingAgent : Agent;
  pendingSession : string
}.

Record Concurrent := {
  server : MultiAgentServer;
  pending : list PendingSpawn
}.

Inductive Move :=
| SpawnBegin (req : option SpawnSubAgentRequest)
| SpawnEnd (i : nat)
| Whole (op : Op).

(** [SpawnBegin] runs a call up to line 89 (a failing call ends there);
    [SpawnEnd i] lets the [i]-th call in progress run to its return; [Whole]
    is an operation that no other overlaps. *)
Definition move (c : Concurrent) (m : Move) : Concurrent :=
  match m with
  | SpawnBegin None => c
  | SpawnBegin (Some req) =>
      match createSubSession (server c) req with
      | (inl _, s) => {| server := s; pending := pending c |}
      | (inr (ag, sessionID), s) =>
          {| server := s;
             pending := pending c ++ [{| pendingRequest := req; pendingAgent := ag;
                                         pendingSession := sessionID |}] |}
      end
  | SpawnEnd i =>
      match pending c !! i with
      | None => c
      | Some p =>
          {| server := (finishSpawn (pendingRequest p) (pendingAgent p)
                          (pendingSession p) (server c)).2;
             pending := delete i (pending c) |}
      end
  | Whole op => {| server := step (server c) op; pending := pending c |}
  end.

Definition interleave (moves : list Move) (c : Concurrent) : Concurrent :=
  foldl move c moves.

Definition quiet (s : MultiAgentServer) : Concurrent := {| server := s; pending := [] |}.

(** The bound of the spawn table. *)
Definition withinSpawnLimit (s : MultiAgentServer) : Prop :=
  ∀ parent, (countSpawnedAgentsByParent s parent ≤ maxSpawnsPerParent)%nat.

(** The subscription attempts of the auto-subscribe loop, one after the
    other from world [w]: each topic with the outcome of its [Subscribe]. *)
Fixpoint subscribeAttempts (subAgent : string) (topics : list string) (w : W)
    : list (string * bool) :=
  match topics with
  | [] => []
  | topic :: rest =>
      let '(r, w') := busSubscribe subAgent topic 100 w in
      (topic, if r is inr _ then true else false) :: subscribeAttempts subAgent rest w'
  end.

Definition succeededTopics (attempts : list (string * bool)) : list string :=
  (filter (λ a, a.2 = true) attempts).*1.

(** *** The map of a request and of a tracked child *)

(** The entries of the map a request refers to, before the call (nil has
    none). *)
Definition requestMap (s : MultiAgentServer) (req : SpawnSubAgentRequest)
    : option (gmap string string) :=
  match Metadata req with
  | NilMap => None
  | OwnMap entries => Some entries
  | SharedMap r => Some (default ∅ (mapObjects s !! r))
  end.

(** The reference a child tracked for [req] holds: the shared object of the
    request itself; for a map the request owns, or for the map made for the
    initial message of a request without one, the next address. *)
Definition heldMap (s : MultiAgentServer) (req : SpawnSubAgentRequest) : option MapRef :=
  match Metadata req with
  | SharedMap r => Some r
  | OwnMap _ => Some (nextMap s)
  | NilMap => if String.eqb (InitialMessage req) "" then None else Some (nextMap s)
  end.

(** The metadata recorded for a child: the entries of the request's map,
    with the initial message under its key when there is one. *)
Definition recordedMetadata (s : MultiAgentServer) (req : SpawnSubAgentRequest)
    : option (gmap string string) :=
  if String.eqb (InitialMessage req) "" then requestMap s req
  else Some (<["initial_message" := InitialMessage req]> (default ∅ (requestMap s req))).

(** The entries a tracked child sees through its [metadata]. *)
Definition metadataOf (s : MultiAgentServer) (sp : spawnedAgentContext)
    : option (gmap string string) :=
  r ← metadata sp; Some (default ∅ (mapObjects s !! r)).

(** The map objects after a child has been tracked for [req]. *)
Definition mapsAfterSpawn (s : MultiAgentServer) (req : SpawnSubAgentRequest)
    : gmap MapRef (gmap string string) :=
  match Metadata req with
  | NilMap =>
      if String.eqb (InitialMessage req) "" then mapObjects s
      else <[nextMap s := <["initial_message" := InitialMessage req]> ∅]> (mapObjects s)
  | OwnMap entries =>
      if String.eqb (InitialMessage req) "" then <[nextMap s := entries]> (mapObjects s)
      else <[nextMap s := <["initial_message" := InitialMessage req]> entries]>
             (mapObjects s)
  | SharedMap r =>
      if String.eqb (InitialMessage req) "" then mapObjects s
      else <[r := <["initial_message" := InitialMessage req]>
                    (default ∅ (mapObjects s !! r))]> (mapObjects s)
  end.

(** *** Frame lemmas: what each helper leaves alone *)

Lemma logTo_spawnedAgents lvl m fs s : spawnedAgents (logTo lvl m fs s) = spawnedAgents s.
Proof. unfold logTo. by destruct (logger s). Qed.

Lemma logTo_world lvl m fs s : world (logTo lvl m fs s) = world s.
Proof. unfold logTo. by destruct (logger s). Qed.

Lemma logTo_messageBus lvl m fs s : messageBus (logTo lvl m fs s) = messageBus s.
Proof. unfold logTo. by destruct (logger s). Qed.

Lemma logTo_logger lvl m fs s : logger (logTo lvl m fs s) = logger s.
Proof. unfold logTo. by destruct (logger s) eqn:Hl. Qed.

Lemma call_spawnedAgents {A} (f : W → A * W) s : spawnedAgents (call f s).2 = spawnedAgents s.
Proof. unfold call. by destruct (f (world s)). Qed.

Lemma call_messageBus {A} (f : W → A * W) s : messageBus (call f s).2 = messageBus s.
Proof. unfold call. by destruct (f (world s)). Qed.

Lemma call_result {A} (f : W → A * W) s : (call f s).1 = (f (world s)).1.
Proof. unfold call. by destruct (f (world s)). Qed.

Lemma call_world {A} (f : W → A * W) s : world (call f s).2 = (f (world s)).2.
Proof. unfold call. by destruct (f (world s)). Qed.

(** *** Counting children *)

#[local] Abbreviation countIn m parent :=
  (map_fold (λ (_ : string) (spawned : spawnedAgentContext) (count : nat),
               if String.eqb (parentSessionID spawned) parent then S count else count)
            0 m).

Lemma countIn_insert_fresh (m : gmap string spawnedAgentContext) k v parent :
  m !! k = None →
  countIn (<[k := v]> m) parent =
    if String.eqb (parentSessionID v) parent then S (countIn m parent) else countIn m parent.
Proof.
  intros Hk. rewrite map_fold_insert_L; [done| |done].
  intros j1 j2 z1 z2 y _ _ _.
  by destruct (String.eqb (parentSessionID z1) parent),
              (String.eqb (parentSessionID z2) parent).
Qed.

Lemma countIn_delete_present (m : gmap string spawnedAgentContext) k v parent :
  m !! k = Some v →
  countIn m parent =
    if String.eqb (parentSessionID v) parent
    then S (countIn (delete k m) parent) else countIn (delete k m) parent.
Proof.
  intros Hk. rewrite <- (insert_delete_id m k v Hk) at 1.
  apply countIn_insert_fresh, lookup_delete_eq.
Qed.

Lemma countIn_delete_le (m : gmap string spawnedAgentContext) k parent :
  (countIn (delete k m) parent ≤ countIn m parent)%nat.
Proof.
  destruct (m !! k) as [v|] eqn:Hk.
  - rewrite (countIn_delete_present m k v parent Hk).
    destruct (String.eqb (parentSessionID v) parent); lia.
  - by rewrite delete_id.
Qed.

Lemma countIn_insert (m : gmap string spawnedAgentContext) k v parent :
  countIn (<[k := v]> m) parent =
    if String.eqb (parentSessionID v) parent
    then S (countIn (delete k m) parent) else countIn (delete k m) parent.
Proof.
  rewrite <- insert_delete_eq. apply countIn_insert_fresh, lookup_delete_eq.
Qed.

Lemma countIn_insert_le (m : gmap string spawnedAgentContext) k v parent :
  (countIn (<[k := v]> m) parent ≤ S (countIn m parent))%nat.
Proof.
  rewrite countIn_insert. pose proof (countIn_delete_le m k parent).
  destruct (String.eqb (parentSessionID v) parent); lia.
Qed.

Lemma countIn_insert_other (m : gmap string spawnedAgentContext) k v parent :
  parentSessionID v ≠ parent →
  (countIn (<[k := v]> m) parent ≤ countIn m parent)%nat.
Proof.
  intros Hne. rewrite countIn_insert. pose proof (countIn_delete_le m k parent).
  destruct (String.eqb_spec (parentSessionID v) parent); [done|lia].
Qed.

(** *** Helpers that leave the spawn table and the configuration alone *)

Definition sameTable (s s' : MultiAgentServer) : Prop :=
  spawnedAgents s' = spawnedAgents s ∧ messageBus s' = messageBus s
  ∧ logger s' = logger s ∧ registry s' = registry s
  ∧ mapObjects s' = mapObjects s ∧ nextMap s' = nextMap s.

Lemma sameTable_refl s : sameTable s s.
Proof. by repeat split. Qed.

Lemma sameTable_trans s1 s2 s3 : sameTable s1 s2 → sameTable s2 s3 → sameTable s1 s3.
Proof.
  unfold sameTable. intros (?&?&?&?&?&?) (?&?&?&?&?&?). repeat split; congruence.
Qed.

Lemma sameTable_logTo lvl m fs s : sameTable s (logTo lvl m fs s).
Proof. unfold logTo. destruct (logger s) eqn:Hl; by repeat split. Qed.

Lemma sameTable_call {A} (f : W → A * W) s a s' : call f s = (a, s') → sameTable s s'.
Proof. unfold call. destruct (f (world s)). intros [= <- <-]. by repeat split. Qed.

Lemma sameTable_withWorld w s : sameTable s (withWorld w s).
Proof. by repeat split. Qed.

Lemma sameTable_cancel c s : sameTable s (cancel c s).
Proof. by repeat split. Qed.

Lemma sameTable_startMonitor c sessionID s : sameTable s (startMonitor c sessionID s).
Proof. by repeat split. Qed.

Lemma sameTable_stopMonitor c sessionID s : sameTable s (stopMonitor c sessionID s).
Proof. by repeat split. Qed.

Lemma sameTable_newContext s c s' : newContext s = (c, s') → sameTable s s'.
Proof. intros [= <- <-]. by repeat split. Qed.

Lemma sameTable_foldl {A} (f : MultiAgentServer → A → MultiAgentServer) (l : list A) s :
  (∀ s x, sameTable s (f s x)) → sameTable s (foldl f s l).
Proof.
  intros Hf. revert s. induction l as [|x l IH]; intros s; simpl.
  - apply sameTable_refl.
  - eapply sameTable_trans; [apply Hf | apply IH].
Qed.

(** Walks a chain of helper calls back to the state it started from. *)
#[local] Ltac frame :=
  repeat first
    [ apply sameTable_refl
    | match goal with
      | |- sameTable ?s (logTo _ _ _ ?s') =>
          apply (sameTable_trans s s'); [|apply sameTable_logTo]
      | |- sameTable ?s (withWorld _ ?s') =>
          apply (sameTable_trans s s'); [|apply sameTable_withWorld]
      | |- sameTable ?s (cancel _ ?s') =>
          apply (sameTable_trans s s'); [|apply sameTable_cancel]
      | |- sameTable ?s (startMonitor _ _ ?s') =>
          apply (sameTable_trans s s'); [|apply sameTable_startMonitor]
      | |- sameTable ?s (stopMonitor _ _ ?s') =>
          apply (sameTable_trans s s'); [|apply sameTable_stopMonitor]
      | Hc : call _ ?s0 = (_, ?s') |- sameTable ?s ?s' =>
          apply (sameTable_trans s s0); [|exact (sameTable_call _ _ _ _ Hc)]
      | Hc : newContext ?s0 = (_, ?s') |- sameTable ?s ?s' =>
          apply (sameTable_trans s s0); [|exact (sameTable_newContext _ _ _ Hc)]
      end ].

Lemma autoSubscribeLoop_sameTable subAgent topics acc s :
  sameTable s (autoSubscribeLoop subAgent topics acc s).2.
Proof.
  revert acc s. induction topics as [|topic rest IH]; intros acc s; simpl.
  - apply sameTable_refl.
  - destruct (call (busSubscribe subAgent topic 100) s) as [[err|sub] s1] eqn:Hc.
    + eapply sameTable_trans; [|apply IH]. frame.
    + eapply sameTable_trans; [|apply IH]. frame.
Qed.

Lemma unsubscribeTopic_sameTable subAgent topic s :
  sameTable s (unsubscribeTopic subAgent topic s).
Proof.
  unfold unsubscribeTopic. apply sameTable_foldl. intros s' sub.
  destruct (String.eqb (Topic sub) topic); frame.
Qed.

Lemma createSubSession_sameTable s req r s' :
  createSubSession s req = (r, s') → sameTable s s'.
Proof.
  unfold createSubSession. intros Hc.
  repeat case_match; simplify_eq; frame.
Qed.

Lemma createSubSession_ok s req ag sessionID s' :
  createSubSession s req = (inr (ag, sessionID), s') →
  ParentSessionID req ≠ "" ∧ AgentID req ≠ "" ∧ registry s = true
  ∧ (countSpawnedAgentsByParent s (ParentSessionID req) < maxSpawnsPerParent)%nat.
Proof.
  unfold createSubSession, countSpawnedAgentsByParent. rewrite logTo_spawnedAgents.
  intros Hc.
  destruct (String.eqb_spec (ParentSessionID req) ""); [done|].
  destruct (String.eqb_spec (AgentID req) ""); [done|].
  destruct (registry s); [|done]. simpl in Hc.
  case_bool_decide; [done|]. repeat split; [done..|lia].
Qed.

Lemma createSubSession_limit s req :
  (maxSpawnsPerParent ≤ countSpawnedAgentsByParent s (ParentSessionID req))%nat →
  ∃ e, (createSubSession s req).1 = inl e
     ∧ (ParentSessionID req ≠ "" → AgentID req ≠ "" → registry s = true →
        e = ErrSpawnLimit (countSpawnedAgentsByParent s (ParentSessionID req))
              maxSpawnsPerParent).
Proof.
  unfold createSubSession, countSpawnedAgentsByParent. rewrite logTo_spawnedAgents.
  intros Hmax.
  destruct (String.eqb_spec (ParentSessionID req) ""); [by eexists|].
  destruct (String.eqb_spec (AgentID req) ""); [by eexists|].
  destruct (registry s); [|by eexists]. simpl.
  rewrite bool_decide_eq_true_2 by done. by eexists.
Qed.

(** The state after [trackSpawned], field by field. *)
Lemma trackSpawned_state req ag sessionID topics s resp s' :
  trackSpawned req ag sessionID topics s = (resp, s') →
  resp = {| SubAgentID := fullSubAgentID req; SessionID := sessionID;
            Status := "spawned"; SubscribedTopics := topics |}
  ∧ messageBus s' = messageBus s ∧ logger s' = logger s ∧ registry s' = registry s
  ∧ nextContext s' = S (nextContext s)
  ∧ canceled s' = canceled s
  ∧ monitors s' = (monitors s ++ [(nextContext s, sessionID)])%list
  ∧ mapObjects s' = mapsAfterSpawn s req
  ∧ ∃ now,
      spawnedAgents s'
      = <[sessionID := {| parentSessionID := ParentSessionID req;
                          parentAgentID := Builtin.ParentAgentID req;
                          subAgentID := fullSubAgentID req;
                          subSessionID := sessionID;
                          workflowID := WorkflowID req;
                          agent := ag;
                          spawnedAt := now;
                          subscriptions := topics;
                          metadata := heldMap s req;
                          cancelFunc := Some (nextContext s) |}]> (spawnedAgents s).
Proof.
  unfold trackSpawned, heldMap, mapsAfterSpawn, holdMap, newMap, writeMap, newContext,
    call, logTo.
  cbn. destruct (timeNow (world s)) as [now w]. cbn.
  destruct (Metadata req) as [|entries|r]; cbn;
    destruct (String.eqb (InitialMessage req) ""); cbn;
    destruct (logger s) eqn:Hlog; cbn; rewrite ?Hlog; cbn;
    intros [= <- <-]; cbn; rewrite ?Hlog; cbn;
    rewrite ?insert_insert_eq, ?lookup_insert_eq; cbn;
    (repeat (split; [done|])); by exists now.
Qed.

Lemma trackSpawned_spec req ag sessionID topics s resp s' :
  trackSpawned req ag sessionID topics s = (resp, s') →
  resp = {| SubAgentID := fullSubAgentID req; SessionID := sessionID;
            Status := "spawned"; SubscribedTopics := topics |}
  ∧ messageBus s' = messageBus s
  ∧ ∃ sp, spawnedAgents s' = <[sessionID := sp]> (spawnedAgents s)
        ∧ parentSessionID sp = ParentSessionID req
        ∧ subAgentID sp = fullSubAgentID req
        ∧ subscriptions sp = topics.
Proof.
  intros (-> & Hbus & _ & _ & _ & _ & _ & _ & now & Htab)%trackSpawned_state.
  split; [done|]. split; [done|]. by eexists.
Qed.

(** A failed spawn leaves the spawn table as it was. *)
Lemma SpawnSubAgent_error s req e s' :
  SpawnSubAgent s req = (inl e, s') → sameTable s s'.
Proof.
  unfold SpawnSubAgent. destruct req as [req|]; [|intros [= <- <-]; apply sameTable_refl].
  destruct (createSubSession s req) as [[err|[ag sessionID]] s1] eqn:Hc.
  - intros [= <- <-]. by eapply createSubSession_sameTable.
  - repeat case_match; done.
Qed.

(** A successful spawn: the response and the entry added to the table. *)
Lemma SpawnSubAgent_ok s req resp s' :
  SpawnSubAgent s req = (inr resp, s') →
  ∃ r sp, req = Some r
    ∧ Status resp = "spawned"
    ∧ SubAgentID resp = fullSubAgentID r
    ∧ spawnedAgents s' = <[SessionID resp := sp]> (spawnedAgents s)
    ∧ parentSessionID sp = ParentSessionID r
    ∧ subscriptions sp = SubscribedTopics resp
    ∧ (countSpawnedAgentsByParent s (ParentSessionID r) < maxSpawnsPerParent)%nat.
Proof.
  unfold SpawnSubAgent. destruct req as [req|]; [|done].
  destruct (createSubSession s req) as [[err|[ag sessionID]] s1] eqn:Hc; [done|].
  pose proof (createSubSession_sameTable _ _ _ _ Hc) as (Htab1 & _).
  pose proof (createSubSession_ok _ _ _ _ _ Hc) as (_ & _ & _ & Hcount).
  destruct (if messageBus s1 && _ then _ else _) as [topics s2] eqn:Hsub.
  assert (Htab2 : spawnedAgents s2 = spawnedAgents s1).
  { destruct (messageBus s1 && _).
    - pose proof (autoSubscribeLoop_sameTable (fullSubAgentID req) (AutoSubscribe req) [] s1)
        as (Ht & _).
      rewrite Hsub in Ht. done.
    - by injection Hsub as <- <-. }
  destruct (trackSpawned req ag sessionID topics s2) as [resp' s3] eqn:Htrack.
  intros [= <- <-].
  apply trackSpawned_spec in Htrack as (-> & _ & sp & Htab3 & Hparent & Hsubagent & Hsubs).
  exists req, sp. simpl. rewrite Htab3, Htab2, Htab1. done.
Qed.

Lemma unsubscribeAll_sameTable subAgent topics s :
  sameTable s (if messageBus s then
                 foldl (λ s topic, unsubscribeTopic subAgent topic s) s topics
               else s).
Proof.
  destruct (messageBus s); [|apply sameTable_refl].
  apply sameTable_foldl. intros. apply unsubscribeTopic_sameTable.
Qed.

Lemma cleanupSpawnedAgent_table sessionID reason s :
  spawnedAgents (cleanupSpawnedAgent sessionID reason s)
  = delete sessionID (spawnedAgents s).
Proof.
  unfold cleanupSpawnedAgent. destruct (spawnedAgents s !! sessionID) as [sp|] eqn:Hl.
  - rewrite logTo_spawnedAgents.
    match goal with
    | |- spawnedAgents (if messageBus ?s0 then _ else _) = _ =>
        destruct (unsubscribeAll_sameTable (subAgentID sp) (subscriptions sp) s0) as (-> & _)
    end.
    destruct (cancelFunc sp); simpl; by rewrite logTo_spawnedAgents.
  - by rewrite delete_id.
Qed.

(** The table never gains children through this relation. *)
Definition noMoreChildren (s s' : MultiAgentServer) : Prop :=
  ∀ parent, (countSpawnedAgentsByParent s' parent ≤ countSpawnedAgentsByParent s parent)%nat.

Lemma noMoreChildren_sameTable s s' : sameTable s s' → noMoreChildren s s'.
Proof. intros (Ht & _) parent. unfold countSpawnedAgentsByParent. by rewrite Ht. Qed.

Lemma noMoreChildren_trans s1 s2 s3 :
  noMoreChildren s1 s2 → noMoreChildren s2 s3 → noMoreChildren s1 s3.
Proof. intros H12 H23 parent. specialize (H12 parent). specialize (H23 parent). lia. Qed.

Lemma noMoreChildren_cleanup sessionID reason s :
  noMoreChildren s (cleanupSpawnedAgent sessionID reason s).
Proof.
  intros parent. unfold countSpawnedAgentsByParent.
  rewrite cleanupSpawnedAgent_table. apply countIn_delete_le.
Qed.

Lemma noMoreChildren_foldl {A} (f : MultiAgentServer → A → MultiAgentServer) (l : list A) s :
  (∀ s x, noMoreChildren s (f s x)) → noMoreChildren s (foldl f s l).
Proof.
  intros Hf. revert s. induction l as [|x l IH]; intros s; simpl.
  - by intros parent.
  - eapply noMoreChildren_trans; [apply Hf | apply IH].
Qed.

Lemma noMoreChildren_cleanupByParent parent s :
  noMoreChildren s (cleanupSpawnedAgentsByParent parent s).
Proof.
  unfold cleanupSpawnedAgentsByParent. case_bool_decide; [|by intros ?].
  eapply noMoreChildren_trans; [apply noMoreChildren_sameTable, sameTable_logTo|].
  apply noMoreChildren_foldl. intros. apply noMoreChildren_cleanup.
Qed.

Lemma noMoreChildren_monitorRound sessionID ev s :
  noMoreChildren s (monitorRound sessionID ev s).2.
Proof.
  unfold monitorRound. destruct ev.
  - simpl. eapply noMoreChildren_trans; [|apply noMoreChildren_cleanup].
    apply noMoreChildren_sameTable, sameTable_logTo.
  - repeat case_match; simplify_eq; simpl.
    + apply noMoreChildren_sameTable. frame.
    + eapply noMoreChildren_trans; [|apply noMoreChildren_cleanup].
      apply noMoreChildren_sameTable. frame.
    + apply noMoreChildren_sameTable. frame.
Qed.

Lemma withinSpawnLimit_noMoreChildren s s' :
  noMoreChildren s s' → withinSpawnLimit s → withinSpawnLimit s'.
Proof. intros Hle Hs parent. specialize (Hle parent). specialize (Hs parent). lia. Qed.

Lemma withinSpawnLimit_step s op : withinSpawnLimit s → withinSpawnLimit (step s op).
Proof.
  intros Hs. destruct op as [req|sessionID reason|parent|c sessionID ev]; simpl.
  - destruct (SpawnSubAgent s req) as [[e|resp] s'] eqn:Hspawn; simpl.
    + apply SpawnSubAgent_error in Hspawn.
      by eapply withinSpawnLimit_noMoreChildren; [apply noMoreChildren_sameTable|].
    + apply SpawnSubAgent_ok in Hspawn
        as (r & sp & -> & _ & _ & Htab & Hparent & _ & Hcount).
      intros parent. unfold countSpawnedAgentsByParent in *. rewrite Htab.
      destruct (decide (parentSessionID sp = parent)) as [<-|Hne].
      * pose proof (countIn_insert_le (spawnedAgents s) (SessionID resp) sp
                      (parentSessionID sp)).
        rewrite Hparent in *. lia.
      * pose proof (countIn_insert_other (spawnedAgents s) (SessionID resp) sp parent Hne).
        specialize (Hs parent). unfold countSpawnedAgentsByParent in Hs. lia.
  - by eapply withinSpawnLimit_noMoreChildren; [apply noMoreChildren_cleanup|].
  - by eapply withinSpawnLimit_noMoreChildren; [apply noMoreChildren_cleanupByParent|].
  - destruct (monitorEnabled c sessionID ev s); [|done].
    pose proof (noMoreChildren_monitorRound sessionID ev s) as Hm.
    destruct (monitorRound sessionID ev s) as [[] s']; simpl in Hm.
    + by eapply withinSpawnLimit_noMoreChildren.
    + eapply withinSpawnLimit_noMoreChildren; [|exact Hs].
      eapply noMoreChildren_trans; [exact Hm|].
      apply noMoreChildren_sameTable, sameTable_stopMonitor.
Qed.

Lemma withinSpawnLimit_run ops s : withinSpawnLimit s → withinSpawnLimit (run ops s).
Proof.
  unfold run. revert s. induction ops as [|op ops IH]; intros s Hs; simpl; [done|].
  by apply IH, withinSpawnLimit_step.
Qed.

Lemma autoSubscribeLoop_topics subAgent topics acc s :
  (autoSubscribeLoop subAgent topics acc s).1
  = (acc ++ succeededTopics (subscribeAttempts subAgent topics (world s)))%list.
Proof.
  revert acc s. induction topics as [|topic rest IH]; intros acc s; simpl.
  - unfold succeededTopics. simpl. by rewrite app_nil_r.
  - unfold call. destruct (busSubscribe subAgent topic 100 (world s)) as [[err|sub] w'].
    + rewrite IH, logTo_world. simpl. unfold succeededTopics.
      rewrite filter_cons, decide_False by done. done.
    + rewrite IH, logTo_world. simpl. unfold succeededTopics.
      rewrite filter_cons, decide_True by done. simpl. by rewrite <- app_assoc.
Qed.

Lemma succeededTopics_elem topic attempts :
  topic ∈ succeededTopics attempts ↔ (topic, true) ∈ attempts.
Proof.
  unfold succeededTopics. rewrite list_elem_of_fmap. split.
  - intros ([t b] & -> & [Hb Hin]%list_elem_of_filter). simpl in *. by subst.
  - intros Hin. exists (topic, true). split; [done|]. by apply list_elem_of_filter.
Qed.

(** The two halves make up the call: a call whose halves follow each other
    with nothing in between is the call of [step], and so is every [Whole]
    operation. *)
Lemma SpawnSubAgent_halves s req :
  SpawnSubAgent s (Some req)
  = match createSubSession s req with
    | (inl err, s) => (inl err, s)
    | (inr (ag, sessionID), s) =>
        let '(resp, s) := finishSpawn req ag sessionID s in (inr resp, s)
    end.
Proof.
  unfold SpawnSubAgent, finishSpawn.
  destruct (createSubSession s req) as [[err|[ag sessionID]] s1]; [done|].
  by destruct (if messageBus s1 && _ then _ else _).
Qed.

Lemma interleave_one_call s req :
  interleave [SpawnBegin req; SpawnEnd 0] (quiet s) = quiet (step s (OpSpawn req)).
Proof.
  destruct req as [req|]; [|done]. unfold interleave, quiet, step.
  rewrite SpawnSubAgent_halves. cbn [foldl move server pending].
  destruct (createSubSession s req) as [[err|[ag sessionID]] s1]; simpl; [done|].
  by destruct (finishSpawn req ag sessionID s1).
Qed.

Lemma interleave_whole ops s :
  interleave (Whole <$> ops) (quiet s) = quiet (run ops s).
Proof.
  unfold interleave, run, quiet. revert s.
  induction ops as [|op ops IH]; intros s; simpl; [done|]. apply IH.
Qed.

(** *** The claims about the spawn manager *)

(** The spawn limit for calls that do not overlap: when the parent of a
    request already has [maxSpawnsPerParent] (10) children in the spawn
    table, [SpawnSubAgent] fails and leaves the table unchanged, and for a
    request that passes validation on a server with a registry the error is
    the spawn-limit error; and a table within the limit stays within the limit
    after any sequence of operations (spawns, cleanups, cleanups by parent,
    monitor rounds) of [run], where each ends before the next begins.  For
    calls that overlap the bound fails, see [interleave]. *)
Theorem spawn_limit_enforced (s : MultiAgentServer) (req : SpawnSubAgentRequest)
    (ops : list Op) :
  ((maxSpawnsPerParent ≤ countSpawnedAgentsByParent s (ParentSessionID req))%nat →
   ∃ e, (SpawnSubAgent s (Some req)).1 = inl e
      ∧ spawnedAgents (SpawnSubAgent s (Some req)).2 = spawnedAgents s
      ∧ (ParentSessionID req ≠ "" → AgentID req ≠ "" → registry s = true →
         e = ErrSpawnLimit (countSpawnedAgentsByParent s (ParentSessionID req)) 10
         ∧ is_spawn_limit e = true))
  ∧ (withinSpawnLimit s →
     ∀ parent, (countSpawnedAgentsByParent (run ops s) parent ≤ 10)%nat).
Proof.
  split.
  - intros Hmax. destruct (createSubSession_limit s req Hmax) as (e & He & Hkind).
    exists e. destruct (SpawnSubAgent s (Some req)) as [r s'] eqn:Hspawn.
    assert (r = inl e) as ->.
    { unfold SpawnSubAgent in Hspawn.
      destruct (createSubSession s req) as [[err|[ag sessionID]] s1]; simpl in He; [|done].
      by simplify_eq. }
    apply SpawnSubAgent_error in Hspawn as (Htab & _). simpl.
    repeat split; [done|..]; intros; by rewrite (Hkind ltac:(done) ltac:(done) ltac:(done)).
  - intros Hs. by apply withinSpawnLimit_run.
Qed.

(** C5: once the new session of a spawn is stored, failing subscriptions do
    not abort it: [SpawnSubAgent] succeeds whatever the bus answers, and
    [SubscribedTopics] lists, in order, exactly the topics of [auto_subscribe]
    whose subscription succeeded; a topic with no successful subscription is
    absent.  The child is tracked with the same list.  (Without a message bus
    nothing is subscribed and the list is empty.) *)
Theorem autoSubscribe_failure_keeps_spawn (s s1 : MultiAgentServer)
    (req : SpawnSubAgentRequest) (ag : Agent) (sessionID : string) :
  AutoSubscribe req ≠ [] →
  createSubSession s req = (inr (ag, sessionID), s1) →
  let attempts :=
    if messageBus s then subscribeAttempts (fullSubAgentID req) (AutoSubscribe req) (world s1)
    else [] in
  ∃ resp s',
    SpawnSubAgent s (Some req) = (inr resp, s')
    ∧ SessionID resp = sessionID
    ∧ SubscribedTopics resp = succeededTopics attempts
    ∧ (∀ topic, topic ∈ SubscribedTopics resp ↔ (topic, true) ∈ attempts)
    ∧ (∀ topic, (topic, true) ∉ attempts → topic ∉ SubscribedTopics resp)
    ∧ ∃ sp, spawnedAgents s' !! sessionID = Some sp
          ∧ subscriptions sp = SubscribedTopics resp.
Proof.
  intros Hne Hc attempts.
  pose proof (createSubSession_sameTable _ _ _ _ Hc) as (_ & Hbus & _).
  unfold SpawnSubAgent. rewrite Hc.
  destruct (if messageBus s1 && _ then _ else _) as [topics s2] eqn:Hsub.
  assert (Htopics : topics = succeededTopics attempts).
  { subst attempts. rewrite Hbus in Hsub. destruct (messageBus s); simpl in Hsub.
    - rewrite bool_decide_eq_true_2 in Hsub
        by (destruct (AutoSubscribe req); [done|simpl; lia]).
      pose proof (autoSubscribeLoop_topics (fullSubAgentID req) (AutoSubscribe req) [] s1)
        as Hloop.
      rewrite Hsub in Hloop. done.
    - by injection Hsub as <- <-. }
  destruct (trackSpawned req ag sessionID topics s2) as [resp s3] eqn:Htrack.
  apply trackSpawned_spec in Htrack as (-> & _ & sp & Htab & _ & _ & Hsubs).
  eexists _, s3. split; [done|]. simpl. rewrite Htopics in *.
  repeat split.
  - by intros ?%succeededTopics_elem.
  - by intros ?%succeededTopics_elem.
  - by intros topic Hnot ?%succeededTopics_elem.
  - exists sp. rewrite Htab, lookup_insert_eq. done.
Qed.

(** C9: the response of a successful [SpawnSubAgent] has status "spawned",
    never "running" or "error"; a failure is the error of the result and
    carries no response. *)
Theorem spawn_status_spawned (s s' : MultiAgentServer)
    (req : option SpawnSubAgentRequest) (resp : SpawnSubAgentResponse) :
  SpawnSubAgent s req = (inr resp, s') →
  Status resp = "spawned" ∧ Status resp ≠ "running" ∧ Status resp ≠ "error".
Proof.
  intros (r & sp & _ & -> & _)%SpawnSubAgent_ok. done.
Qed.

(** C10: [cleanupSpawnedAgent] on a session id that is not in the spawn
    table returns the server unchanged -- table, world (bus subscriptions),
    canceled contexts, monitors and log -- and so cleaning up the same id a
    second time, with any reason, changes nothing. *)
Theorem cleanup_idempotent (s : MultiAgentServer) (sessionID reason reason' : string) :
  (spawnedAgents s !! sessionID = None → cleanupSpawnedAgent sessionID reason s = s)
  ∧ cleanupSpawnedAgent sessionID reason' (cleanupSpawnedAgent sessionID reason s)
    = cleanupSpawnedAgent sessionID reason s.
Proof.
  assert (Habsent : ∀ s0 r, spawnedAgents s0 !! sessionID = None →
                            cleanupSpawnedAgent sessionID r s0 = s0).
  { intros s0 r Hl. unfold cleanupSpawnedAgent. by rewrite Hl. }
  split; [apply Habsent|].
  apply Habsent. rewrite cleanupSpawnedAgent_table. apply lookup_delete_eq.
Qed.

(** *** More about the spawn table *)

(** Helpers that change nothing but the world and the log. *)
Definition onlyWorldAndLog (s s' : MultiAgentServer) : Prop :=
  sameTable s s' ∧ nextContext s' = nextContext s
  ∧ canceled s' = canceled s ∧ monitors s' = monitors s.

Lemma onlyWorldAndLog_refl s : onlyWorldAndLog s s.
Proof. split; [apply sameTable_refl|done]. Qed.

Lemma onlyWorldAndLog_trans s1 s2 s3 :
  onlyWorldAndLog s1 s2 → onlyWorldAndLog s2 s3 → onlyWorldAndLog s1 s3.
Proof.
  intros (Ht & ? & ? & ?) (Ht' & ? & ? & ?).
  split; [by eapply sameTable_trans|]. repeat split; congruence.
Qed.

Lemma onlyWorldAndLog_logTo lvl m fs s : onlyWorldAndLog s (logTo lvl m fs s).
Proof.
  split; [apply sameTable_logTo|]. unfold logTo. by destruct (logger s).
Qed.

Lemma onlyWorldAndLog_withWorld w s : onlyWorldAndLog s (withWorld w s).
Proof. split; [apply sameTable_withWorld|done]. Qed.

Lemma onlyWorldAndLog_call {A} (f : W → A * W) s a s' :
  call f s = (a, s') → onlyWorldAndLog s s'.
Proof.
  intros Hc. split; [by eapply sameTable_call|].
  unfold call in Hc. destruct (f (world s)). by injection Hc as <- <-.
Qed.

Lemma onlyWorldAndLog_foldl {A} (f : MultiAgentServer → A → MultiAgentServer)
    (l : list A) s :
  (∀ s x, onlyWorldAndLog s (f s x)) → onlyWorldAndLog s (foldl f s l).
Proof.
  intros Hf. revert s. induction l as [|x l IH]; intros s; simpl.
  - apply onlyWorldAndLog_refl.
  - eapply onlyWorldAndLog_trans; [apply Hf | apply IH].
Qed.

Lemma unsubscribeTopic_onlyWorldAndLog subAgent topic s :
  onlyWorldAndLog s (unsubscribeTopic subAgent topic s).
Proof.
  unfold unsubscribeTopic. apply onlyWorldAndLog_foldl. intros s' sub.
  destruct (String.eqb (Topic sub) topic); [|apply onlyWorldAndLog_refl].
  eapply onlyWorldAndLog_trans; [apply onlyWorldAndLog_withWorld|].
  apply onlyWorldAndLog_logTo.
Qed.

Lemma unsubscribeAll_onlyWorldAndLog subAgent topics s :
  onlyWorldAndLog s (if messageBus s then
                       foldl (λ s topic, unsubscribeTopic subAgent topic s) s topics
                     else s).
Proof.
  destruct (messageBus s); [|apply onlyWorldAndLog_refl].
  apply onlyWorldAndLog_foldl. intros. apply unsubscribeTopic_onlyWorldAndLog.
Qed.

Lemma autoSubscribeLoop_onlyWorldAndLog subAgent topics acc s :
  onlyWorldAndLog s (autoSubscribeLoop subAgent topics acc s).2.
Proof.
  revert acc s. induction topics as [|topic rest IH]; intros acc s; simpl.
  - apply onlyWorldAndLog_refl.
  - destruct (call (busSubscribe subAgent topic 100) s) as [[err|sub] s1] eqn:Hc;
      (eapply onlyWorldAndLog_trans; [|apply IH]);
      (eapply onlyWorldAndLog_trans;
        [by eapply onlyWorldAndLog_call | apply onlyWorldAndLog_logTo]).
Qed.

(** The count of [countSpawnedAgentsByParent] and the selection of
    [cleanupSpawnedAgentsByParent] agree. *)
Lemma countSpawnedAgentsByParent_children s parent :
  countSpawnedAgentsByParent s parent = length (childrenOf parent s).
Proof.
  unfold countSpawnedAgentsByParent, childrenOf.
  rewrite map_fold_foldr, length_fmap.
  induction (map_to_list (spawnedAgents s)) as [|[k sp] l IH]; simpl; [done|].
  rewrite filter_cons, IH. simpl.
  destruct (String.eqb_spec (parentSessionID sp) parent).
  - by rewrite decide_True.
  - by rewrite decide_False.
Qed.

Lemma elem_of_childrenOf s parent sessionID :
  sessionID ∈ childrenOf parent s
  ↔ ∃ sp, spawnedAgents s !! sessionID = Some sp ∧ parentSessionID sp = parent.
Proof.
  unfold childrenOf. rewrite list_elem_of_fmap. split.
  - intros ([k sp] & -> & [Hp Hin%elem_of_map_to_list]%list_elem_of_filter).
    by exists sp.
  - intros (sp & Hl & Hp). exists (sessionID, sp). split; [done|].
    apply list_elem_of_filter. split; [done|]. by apply elem_of_map_to_list.
Qed.

Lemma countIn_none (m : gmap string spawnedAgentContext) parent :
  (∀ k sp, m !! k = Some sp → parentSessionID sp ≠ parent) → countIn m parent = 0%nat.
Proof.
  induction m as [|k sp m Hk IH] using map_ind; intros Hm.
  - by rewrite map_fold_empty.
  - rewrite countIn_insert_fresh by done.
    destruct (String.eqb_spec (parentSessionID sp) parent) as [Heq|_].
    + exfalso. apply (Hm k sp); [apply lookup_insert_eq|done].
    + apply IH. intros k' sp' Hl. apply (Hm k' sp').
      rewrite lookup_insert_ne; [done|]. intros ->. congruence.
Qed.

Lemma countIn_delete_other (m : gmap string spawnedAgentContext) k parent :
  (∀ sp, m !! k = Some sp → parentSessionID sp ≠ parent) →
  countIn (delete k m) parent = countIn m parent.
Proof.
  intros Hk. destruct (m !! k) as [sp|] eqn:Hl.
  - rewrite (countIn_delete_present m k sp parent Hl).
    destruct (String.eqb_spec (parentSessionID sp) parent); [|done].
    by destruct (Hk sp).
  - by rewrite delete_id.
Qed.

(** What [cleanupSpawnedAgent] does to the contexts, and what it leaves. *)
Lemma cleanupSpawnedAgent_present sessionID reason s sp :
  spawnedAgents s !! sessionID = Some sp →
  canceled (cleanupSpawnedAgent sessionID reason s)
    = match cancelFunc sp with
      | Some c => {[ c ]} ∪ canceled s
      | None => canceled s
      end
  ∧ nextContext (cleanupSpawnedAgent sessionID reason s) = nextContext s
  ∧ monitors (cleanupSpawnedAgent sessionID reason s) = monitors s.
Proof.
  intros Hl. unfold cleanupSpawnedAgent. rewrite Hl.
  match goal with
  | |- context [logTo _ "Spawned agent cleanup complete" _ ?s1] =>
      destruct (onlyWorldAndLog_logTo LevelInfo "Spawned agent cleanup complete"
                  [("session_id", sessionID); ("sub_agent_id", subAgentID sp)] s1)
        as (_ & -> & -> & ->)
  end.
  match goal with
  | |- context [if messageBus ?s0 then _ else _] =>
      destruct (unsubscribeAll_onlyWorldAndLog (subAgentID sp) (subscriptions sp) s0)
        as (_ & -> & -> & ->)
  end.
  destruct (cancelFunc sp); simpl;
    match goal with
    | |- context [logTo ?l ?m ?f ?s1] =>
        destruct (onlyWorldAndLog_logTo l m f s1) as (_ & -> & -> & ->)
    end; done.
Qed.

Lemma cleanupSpawnedAgent_canceled_mono sessionID reason s :
  canceled s ⊆ canceled (cleanupSpawnedAgent sessionID reason s).
Proof.
  destruct (spawnedAgents s !! sessionID) as [sp|] eqn:Hl.
  - destruct (cleanupSpawnedAgent_present sessionID reason s sp Hl) as (-> & _).
    destruct (cancelFunc sp); set_solver.
  - unfold cleanupSpawnedAgent. by rewrite Hl.
Qed.

(** Cleaning up a tracked child removes exactly its entry, cancels exactly
    its context, and lowers the count of its parent by one. *)
Theorem cleanup_removes_child (s : MultiAgentServer) (sessionID reason : string)
    (sp : spawnedAgentContext) :
  spawnedAgents s !! sessionID = Some sp →
  spawnedAgents (cleanupSpawnedAgent sessionID reason s) !! sessionID = None
  ∧ (∀ other, other ≠ sessionID →
       spawnedAgents (cleanupSpawnedAgent sessionID reason s) !! other
       = spawnedAgents s !! other)
  ∧ (∀ c, c ∈ canceled (cleanupSpawnedAgent sessionID reason s)
          ↔ c ∈ canceled s ∨ cancelFunc sp = Some c)
  ∧ countSpawnedAgentsByParent s (parentSessionID sp)
    = S (countSpawnedAgentsByParent (cleanupSpawnedAgent sessionID reason s)
           (parentSessionID sp))
  ∧ (∀ parent, parent ≠ parentSessionID sp →
       countSpawnedAgentsByParent (cleanupSpawnedAgent sessionID reason s) parent
       = countSpawnedAgentsByParent s parent).
Proof.
  intros Hl. unfold countSpawnedAgentsByParent. rewrite cleanupSpawnedAgent_table.
  destruct (cleanupSpawnedAgent_present sessionID reason s sp Hl) as (-> & _).
  split; [apply lookup_delete_eq|]. split; [|split; [|split]].
  - intros other Hne. by rewrite lookup_delete_ne.
  - intros c. destruct (cancelFunc sp) as [c'|].
    + rewrite elem_of_union, elem_of_singleton.
      split; [intros [->|?]; auto | intros [?|[= ->]]; auto].
    + split; [auto | intros [?|[=]]; done].
  - rewrite (countIn_delete_present _ _ _ (parentSessionID sp) Hl).
    by rewrite String.eqb_refl.
  - intros parent Hne. apply countIn_delete_other. intros sp' Hl'. congruence.
Qed.

(** The spawn table after cleaning up a list of sessions. *)
Lemma cleanup_list_table (ids : list string) (reason : string) s :
  spawnedAgents (foldl (λ s sessionID, cleanupSpawnedAgent sessionID reason s) s ids)
  = foldl (λ m sessionID, delete sessionID m) (spawnedAgents s) ids.
Proof.
  revert s. induction ids as [|sessionID ids IH]; intros s; simpl; [done|].
  by rewrite IH, cleanupSpawnedAgent_table.
Qed.

Lemma lookup_delete_list (ids : list string) (m : gmap string spawnedAgentContext) k :
  foldl (λ m sessionID, delete sessionID m) m ids !! k
  = if decide (k ∈ ids) then None else m !! k.
Proof.
  revert m. induction ids as [|sessionID ids IH]; intros m; cbn [foldl].
  - destruct (decide (k ∈ [])) as [Hin|_]; [by apply elem_of_nil in Hin|done].
  - rewrite IH.
    destruct (decide (k ∈ ids)) as [Hin|Hnin], (decide (k ∈ sessionID :: ids)) as [Hin'|Hnin'];
      try done.
    + exfalso. apply Hnin'. by apply list_elem_of_further.
    + apply elem_of_cons in Hin' as [->|?]; [apply lookup_delete_eq|done].
    + apply lookup_delete_ne. intros ->. apply Hnin', list_elem_of_here.
Qed.

Lemma countIn_delete_list (ids : list string) (m : gmap string spawnedAgentContext) parent :
  (∀ k sp, k ∈ ids → m !! k = Some sp → parentSessionID sp ≠ parent) →
  countIn (foldl (λ m sessionID, delete sessionID m) m ids) parent = countIn m parent.
Proof.
  revert m. induction ids as [|sessionID ids IH]; intros m Hids; simpl; [done|].
  rewrite IH.
  - apply countIn_delete_other. intros sp Hl.
    apply (Hids sessionID sp); [apply list_elem_of_here|done].
  - intros k sp Hin [_ Hl]%lookup_delete_Some.
    apply (Hids k sp); [by apply list_elem_of_further|done].
Qed.

Lemma cleanup_list_canceled (ids : list string) (reason : string) s k sp c :
  k ∈ ids → spawnedAgents s !! k = Some sp → cancelFunc sp = Some c →
  c ∈ canceled (foldl (λ s sessionID, cleanupSpawnedAgent sessionID reason s) s ids).
Proof.
  assert (Hmono : ∀ ids' s0,
            canceled s0 ⊆ canceled (foldl (λ s sessionID,
                                      cleanupSpawnedAgent sessionID reason s) s0 ids')).
  { induction ids' as [|i ids' IH]; intros s0; simpl; [done|].
    etrans; [apply (cleanupSpawnedAgent_canceled_mono i reason)|apply IH]. }
  revert s. induction ids as [|sessionID ids IH]; intros s Hin Hl Hc; simpl.
  - by apply elem_of_nil in Hin.
  - destruct (decide (k = sessionID)) as [->|Hne].
    + apply Hmono.
      destruct (cleanupSpawnedAgent_present sessionID reason s sp Hl) as (-> & _).
      rewrite Hc. apply elem_of_union. left. by apply elem_of_singleton.
    + apply IH; [|rewrite cleanupSpawnedAgent_table, lookup_delete_ne; done|done].
      apply elem_of_cons in Hin as [?|?]; done.
Qed.

(** [cleanupSpawnedAgentsByParent] removes every child of the parent and
    cancels its context; the children of other parents stay as they are; and
    a second call for the same parent changes nothing. *)
Theorem cleanupByParent_removes_children (s : MultiAgentServer) (parent : string) :
  countSpawnedAgentsByParent (cleanupSpawnedAgentsByParent parent s) parent = 0%nat
  ∧ (∀ sessionID sp,
       spawnedAgents s !! sessionID = Some sp →
       if decide (parentSessionID sp = parent) then
         spawnedAgents (cleanupSpawnedAgentsByParent parent s) !! sessionID = None
         ∧ (∀ c, cancelFunc sp = Some c →
                 c ∈ canceled (cleanupSpawnedAgentsByParent parent s))
       else
         spawnedAgents (cleanupSpawnedAgentsByParent parent s) !! sessionID = Some sp)
  ∧ (∀ sessionID,
       spawnedAgents s !! sessionID = None →
       spawnedAgents (cleanupSpawnedAgentsByParent parent s) !! sessionID = None)
  ∧ (∀ other, other ≠ parent →
       countSpawnedAgentsByParent (cleanupSpawnedAgentsByParent parent s) other
       = countSpawnedAgentsByParent s other)
  ∧ cleanupSpawnedAgentsByParent parent (cleanupSpawnedAgentsByParent parent s)
    = cleanupSpawnedAgentsByParent parent s.
Proof.
  assert (Htab : spawnedAgents (cleanupSpawnedAgentsByParent parent s)
                 = foldl (λ m sessionID, delete sessionID m) (spawnedAgents s)
                     (childrenOf parent s)).
  { unfold cleanupSpawnedAgentsByParent. case_bool_decide as Hlen.
    - by rewrite cleanup_list_table, logTo_spawnedAgents.
    - destruct (childrenOf parent s); [done|simpl in Hlen; lia]. }
  assert (Hlook : ∀ k, spawnedAgents (cleanupSpawnedAgentsByParent parent s) !! k
                       = match spawnedAgents s !! k with
                         | Some sp => if decide (parentSessionID sp = parent)
                                      then None else Some sp
                         | None => None
                         end).
  { intros k. rewrite Htab, lookup_delete_list.
    destruct (spawnedAgents s !! k) as [sp|] eqn:Hl.
    - destruct (decide (parentSessionID sp = parent)) as [Hp|Hp].
      + rewrite decide_True; [done|]. apply elem_of_childrenOf. by exists sp.
      + rewrite decide_False; [done|].
        intros (sp' & Hl' & Hp')%elem_of_childrenOf. congruence.
    - by destruct (decide (k ∈ childrenOf parent s)). }
  assert (Hzero : countSpawnedAgentsByParent (cleanupSpawnedAgentsByParent parent s) parent
                  = 0%nat).
  { unfold countSpawnedAgentsByParent. apply countIn_none. intros k sp Hk.
    rewrite Hlook in Hk. destruct (spawnedAgents s !! k) as [sp'|]; [|done].
    destruct (decide (parentSessionID sp' = parent)); [done|]. congruence. }
  split; [done|]. split; [|split; [|split]].
  - intros sessionID sp Hl. specialize (Hlook sessionID). rewrite Hl in Hlook.
    destruct (decide (parentSessionID sp = parent)) as [Hp|Hp]; [|done].
    split; [done|]. intros c Hc.
    assert (Hin : sessionID ∈ childrenOf parent s)
      by (apply elem_of_childrenOf; by exists sp).
    unfold cleanupSpawnedAgentsByParent. rewrite bool_decide_eq_true_2.
    + apply (cleanup_list_canceled _ _ _ sessionID sp c Hin); [|done].
      by rewrite logTo_spawnedAgents.
    + destruct (childrenOf parent s); [by apply elem_of_nil in Hin|simpl; lia].
  - intros sessionID Hl. by rewrite Hlook, Hl.
  - intros other Hne. unfold countSpawnedAgentsByParent. rewrite Htab.
    apply countIn_delete_list.
    intros k sp (sp' & Hl' & Hp')%elem_of_childrenOf Hl. congruence.
  - rewrite countSpawnedAgentsByParent_children in Hzero.
    unfold cleanupSpawnedAgentsByParent at 1.
    destruct (childrenOf parent (cleanupSpawnedAgentsByParent parent s)); [done|].
    simpl in Hzero. lia.
Qed.

(** *** More about [SpawnSubAgent] *)

Lemma logTo_nextContext lvl m fs s : nextContext (logTo lvl m fs s) = nextContext s.
Proof. unfold logTo. by destruct (logger s). Qed.

Lemma logTo_canceled lvl m fs s : canceled (logTo lvl m fs s) = canceled s.
Proof. unfold logTo. by destruct (logger s). Qed.

Lemma logTo_monitors lvl m fs s : monitors (logTo lvl m fs s) = monitors s.
Proof. unfold logTo. by destruct (logger s). Qed.

Lemma createSubSession_onlyWorldAndLog s req r s1 :
  createSubSession s req = (r, s1) → onlyWorldAndLog s s1.
Proof.
  unfold createSubSession. intros Hc.
  repeat case_match; simplify_eq;
    repeat first
      [ apply onlyWorldAndLog_refl
      | match goal with
        | |- onlyWorldAndLog ?s (logTo _ _ _ ?s') =>
            apply (onlyWorldAndLog_trans s s'); [|apply onlyWorldAndLog_logTo]
        | Hcall : call _ ?s0 = (_, ?s') |- onlyWorldAndLog ?s ?s' =>
            apply (onlyWorldAndLog_trans s s0);
            [|exact (onlyWorldAndLog_call _ _ _ _ Hcall)]
        end ].
Qed.

(** A failed spawn changes nothing but the world and the log. *)
Lemma SpawnSubAgent_error_frame s req e s' :
  SpawnSubAgent s req = (inl e, s') → onlyWorldAndLog s s'.
Proof.
  unfold SpawnSubAgent. destruct req as [req|]; [|intros [= <- <-]; apply onlyWorldAndLog_refl].
  destruct (createSubSession s req) as [[err|[ag sessionID]] s1] eqn:Hc.
  - intros [= <- <-]. by eapply createSubSession_onlyWorldAndLog.
  - repeat case_match; done.
Qed.

(** An error of [createSubSession] that is raised before any collaborator is
    called. *)
Definition rejectedEarly (e : SpawnError) : bool :=
  match e with
  | ErrNilRequest | ErrParentRequired | ErrAgentRequired | ErrNoRegistry
  | ErrSpawnLimit _ _ => true
  | ErrLoadAgent _ _ | ErrCreateSession _ => false
  end.

Definition isValidationError (e : SpawnError) : bool :=
  match e with
  | ErrNilRequest | ErrParentRequired | ErrAgentRequired | ErrNoRegistry => true
  | _ => false
  end.

(** A failed spawn tracks nothing: the spawn table, the contexts and the
    monitors are as before.  A request that fails validation has no effect at
    all: the server is returned as it was, without a log line.  The checks
    come in a fixed order (nil request, parent session id, agent id,
    registry), and a request refused for the spawn limit has called no
    collaborator: the world is unchanged. *)
Theorem spawn_rejection_effects (s s' : MultiAgentServer)
    (req : option SpawnSubAgentRequest) (e : SpawnError) :
  SpawnSubAgent s req = (inl e, s') →
  (spawnedAgents s' = spawnedAgents s ∧ canceled s' = canceled s
   ∧ monitors s' = monitors s ∧ nextContext s' = nextContext s)
  ∧ (isValidationError e = true → s' = s)
  ∧ (rejectedEarly e = true → world s' = world s)
  ∧ (e = ErrNilRequest ↔ req = None)
  ∧ (∀ r, req = Some r →
       (e = ErrParentRequired ↔ ParentSessionID r = "")
       ∧ (e = ErrAgentRequired ↔ ParentSessionID r ≠ "" ∧ AgentID r = "")
       ∧ (e = ErrNoRegistry ↔
          ParentSessionID r ≠ "" ∧ AgentID r ≠ "" ∧ registry s = false)).
Proof.
  intros Hs. split.
  { by apply SpawnSubAgent_error_frame in Hs as ((? & _) & ? & ? & ?). }
  revert Hs.
  assert (Hfin : ∀ (r : SpawnSubAgentRequest) (P1 P2 P3 : Prop),
            (P1 ↔ ParentSessionID r = "") →
            (P2 ↔ ParentSessionID r ≠ "" ∧ AgentID r = "") →
            (P3 ↔ ParentSessionID r ≠ "" ∧ AgentID r ≠ "" ∧ registry s = false) →
            ∀ r', Some r = Some r' →
              (P1 ↔ ParentSessionID r' = "")
              ∧ (P2 ↔ ParentSessionID r' ≠ "" ∧ AgentID r' = "")
              ∧ (P3 ↔ ParentSessionID r' ≠ "" ∧ AgentID r' ≠ "" ∧ registry s = false)).
  { intros r P1 P2 P3 H1 H2 H3 r' [= <-]. done. }
  unfold SpawnSubAgent. destruct req as [r|].
  2:{ intros [= <- <-]. split; [done|]. split; [done|]. split; [done|]. intros r [=]. }
  unfold createSubSession.
  destruct (String.eqb_spec (ParentSessionID r) "") as [Hp|Hp].
  { cbn. intros [= <- <-]. split; [done|]. split; [done|]. split; [done|].
    apply Hfin; split; try done; intros (? & ?); done. }
  destruct (String.eqb_spec (AgentID r) "") as [Ha|Ha].
  { cbn. intros [= <- <-]. split; [done|]. split; [done|]. split; [done|].
    apply Hfin; split; try done; intros (? & ? & ?); done. }
  destruct (registry s) eqn:Hreg; simpl.
  2:{ cbn. intros [= <- <-]. split; [done|]. split; [done|]. split; [done|].
      apply Hfin; split; try done; intros (? & ?); done. }
  case_bool_decide as Hlimit.
  { cbn. intros [= <- <-]. simpl. rewrite logTo_world.
    split; [done|]. split; [done|]. split; [done|].
    apply Hfin; split; try done; try (intros (? & ?); done); intros (? & ? & ?); done. }
  intros Hspawn.
  assert (He : isValidationError e = false ∧ rejectedEarly e = false).
  { repeat case_match; simplify_eq; done. }
  destruct He as [Hv Hr].
  assert (Hne : e ≠ ErrNilRequest ∧ e ≠ ErrParentRequired ∧ e ≠ ErrAgentRequired
                ∧ e ≠ ErrNoRegistry).
  { repeat split; intros ->; discriminate. }
  destruct Hne as (? & ? & ? & ?). rewrite Hv, Hr.
  split; [done|]. split; [done|]. split; [split; done|].
  apply Hfin; split; try done; try (intros (? & ?); done); intros (? & ? & ?); congruence.
Qed.

Lemma logTo_mapObjects lvl m fs s : mapObjects (logTo lvl m fs s) = mapObjects s.
Proof. unfold logTo. by destruct (logger s). Qed.

Lemma heldMap_same s s' req : nextMap s' = nextMap s → heldMap s' req = heldMap s req.
Proof. unfold heldMap. by intros ->. Qed.

Lemma mapsAfterSpawn_same s s' req :
  mapObjects s' = mapObjects s → nextMap s' = nextMap s →
  mapsAfterSpawn s' req = mapsAfterSpawn s req.
Proof. unfold mapsAfterSpawn. by intros -> ->. Qed.

(** The state after a successful spawn, field by field. *)
Lemma SpawnSubAgent_tracked s s' req resp :
  SpawnSubAgent s (Some req) = (inr resp, s') →
  SubAgentID resp = fullSubAgentID req
  ∧ nextContext s' = S (nextContext s)
  ∧ canceled s' = canceled s
  ∧ monitors s' = (monitors s ++ [(nextContext s, SessionID resp)])%list
  ∧ mapObjects s' = mapsAfterSpawn s req
  ∧ ∃ ag now,
      spawnedAgents s'
      = <[SessionID resp := {| parentSessionID := ParentSessionID req;
                               parentAgentID := Builtin.ParentAgentID req;
                               subAgentID := fullSubAgentID req;
                               subSessionID := SessionID resp;
                               workflowID := WorkflowID req;
                               agent := ag;
                               spawnedAt := now;
                               subscriptions := SubscribedTopics resp;
                               metadata := heldMap s req;
                               cancelFunc := Some (nextContext s) |}]> (spawnedAgents s).
Proof.
  unfold SpawnSubAgent.
  destruct (createSubSession s req) as [[err|[ag sessionID]] s1] eqn:Hc; [done|].
  pose proof (createSubSession_onlyWorldAndLog _ _ _ _ Hc) as H1.
  destruct (if messageBus s1 && _ then _ else _) as [topics s2] eqn:Hsub.
  assert (H2 : onlyWorldAndLog s1 s2).
  { destruct (messageBus s1 && _).
    - pose proof (autoSubscribeLoop_onlyWorldAndLog (fullSubAgentID req)
                    (AutoSubscribe req) [] s1) as Hloop.
      by rewrite Hsub in Hloop.
    - injection Hsub as <- <-. apply onlyWorldAndLog_refl. }
  destruct (onlyWorldAndLog_trans _ _ _ H1 H2)
    as ((Htab & _ & _ & _ & Hobjects & Hnextmap) & Hnext & Hcan & Hmon).
  destruct (trackSpawned req ag sessionID topics s2) as [resp' s3] eqn:Htrack.
  intros [= <- <-].
  apply trackSpawned_state in Htrack
    as (-> & _ & _ & _ & Hn3 & Hc3 & Hm3 & Hmaps3 & now & Ht3). simpl.
  rewrite Ht3, Hn3, Hc3, Hm3, Hmaps3, Htab, Hnext, Hcan, Hmon.
  rewrite (heldMap_same s s2 req Hnextmap), (mapsAfterSpawn_same s s2 req Hobjects Hnextmap).
  repeat split. by exists ag, now.
Qed.

(** What a spawn does to the map objects: only the object the new child
    refers to can change, and the initial message of a request is written
    into the map of the request itself. *)
Lemma mapsAfterSpawn_lookup s req :
  (∀ r, heldMap s req ≠ Some r → mapsAfterSpawn s req !! r = mapObjects s !! r)
  ∧ (∀ r, Metadata req = SharedMap r → InitialMessage req ≠ "" →
       mapsAfterSpawn s req !! r
       = Some (<["initial_message" := InitialMessage req]> (default ∅ (mapObjects s !! r))))
  ∧ (r ← heldMap s req; Some (default ∅ (mapsAfterSpawn s req !! r)))
    = recordedMetadata s req.
Proof.
  unfold heldMap, mapsAfterSpawn, recordedMetadata, requestMap.
  destruct (Metadata req) as [|entries|r0];
    destruct (String.eqb_spec (InitialMessage req) "") as [Hmsg|Hmsg]; cbn.
  all: split; [intros r Hr; try done; apply lookup_insert_ne; congruence|].
  all: split; [intros r [=] ?; try done; subst; apply lookup_insert_eq|].
  all: by rewrite ?lookup_insert_eq.
Qed.

(** A successful spawn tracks the child under the session id of the
    response, with the parent, the full sub-agent id, the workflow, the
    subscribed topics and a fresh context; it starts one monitor for it,
    cancels nothing and leaves every other entry of the table as it was.  The
    entry refers to the map of the request itself, not to a copy, and shows
    the entries of that map with the initial message of the request added.
    No other map object changes; the initial message is written into the map
    the caller handed in, so every tracked child that refers to the same map
    shows it as well. *)
Theorem spawn_tracks_child (s s' : MultiAgentServer) (req : SpawnSubAgentRequest)
    (resp : SpawnSubAgentResponse) :
  SpawnSubAgent s (Some req) = (inr resp, s') →
  (∃ sp, spawnedAgents s' !! SessionID resp = Some sp
       ∧ parentSessionID sp = ParentSessionID req
       ∧ parentAgentID sp = Builtin.ParentAgentID req
       ∧ subAgentID sp = SubAgentID resp
       ∧ subSessionID sp = SessionID resp
       ∧ workflowID sp = WorkflowID req
       ∧ subscriptions sp = SubscribedTopics resp
       ∧ metadata sp = heldMap s req
       ∧ metadataOf s' sp = recordedMetadata s req
       ∧ cancelFunc sp = Some (nextContext s))
  ∧ SubAgentID resp = (if String.eqb (WorkflowID req) "" then AgentID req
                       else WorkflowID req ++ ":" ++ AgentID req)
  ∧ (∀ other, other ≠ SessionID resp →
       spawnedAgents s' !! other = spawnedAgents s !! other)
  ∧ (∀ r, heldMap s req ≠ Some r → mapObjects s' !! r = mapObjects s !! r)
  ∧ (∀ r, Metadata req = SharedMap r → InitialMessage req ≠ "" →
       mapObjects s' !! r
       = Some (<["initial_message" := InitialMessage req]> (default ∅ (mapObjects s !! r))))
  ∧ monitors s' = (monitors s ++ [(nextContext s, SessionID resp)])%list
  ∧ nextContext s' = S (nextContext s)
  ∧ canceled s' = canceled s.
Proof.
  intros (Hid & Hnext & Hcan & Hmon & Hmaps & ag & now & Htab)%SpawnSubAgent_tracked.
  destruct (mapsAfterSpawn_lookup s req) as (Hframe & Hwrite & Hshown).
  rewrite Htab, Hid, Hmaps. split; [|split; [done|split; [|done]]].
  - eexists. rewrite lookup_insert_eq. split; [done|].
    unfold metadataOf. cbn. rewrite Hmaps. done.
  - intros other Hne. by rewrite lookup_insert_ne.
Qed.

Lemma cleanupSpawnedAgent_maps sessionID reason s :
  mapObjects (cleanupSpawnedAgent sessionID reason s) = mapObjects s.
Proof.
  unfold cleanupSpawnedAgent. destruct (spawnedAgents s !! sessionID) as [sp|]; [|done].
  rewrite logTo_mapObjects.
  match goal with
  | |- mapObjects (if messageBus ?s0 then _ else _) = _ =>
      destruct (unsubscribeAll_sameTable (subAgentID sp) (subscriptions sp) s0)
        as (_ & _ & _ & _ & -> & _)
  end.
  destruct (cancelFunc sp); cbn; by rewrite logTo_mapObjects.
Qed.

(** Spawning a child under a session id that was not in use and cleaning it
    up again gives back every entry of the spawn table, and cancels the
    context of the child only.  The map objects are not given back: the
    cleanup leaves them as the spawn left them, so the initial message
    written into a map the caller shares stays there; every other map object
    is as it was before the spawn. *)
Theorem spawn_cleanup_round_trip (s s' : MultiAgentServer) (req : SpawnSubAgentRequest)
    (resp : SpawnSubAgentResponse) (reason : string) :
  SpawnSubAgent s (Some req) = (inr resp, s') →
  spawnedAgents s !! SessionID resp = None →
  spawnedAgents (cleanupSpawnedAgent (SessionID resp) reason s') = spawnedAgents s
  ∧ canceled (cleanupSpawnedAgent (SessionID resp) reason s')
    = {[ nextContext s ]} ∪ canceled s
  ∧ (∀ parent, countSpawnedAgentsByParent s' parent
               = (if String.eqb (ParentSessionID req) parent
                  then S (countSpawnedAgentsByParent s parent)
                  else countSpawnedAgentsByParent s parent))
  ∧ mapObjects (cleanupSpawnedAgent (SessionID resp) reason s') = mapObjects s'
  ∧ (∀ r, heldMap s req ≠ Some r → mapObjects s' !! r = mapObjects s !! r)
  ∧ (∀ r, Metadata req = SharedMap r → InitialMessage req ≠ "" →
       mapObjects s' !! r
       = Some (<["initial_message" := InitialMessage req]> (default ∅ (mapObjects s !! r)))).
Proof.
  intros (_ & _ & Hcan & _ & Hmaps & ag & now & Htab)%SpawnSubAgent_tracked Hfresh.
  destruct (mapsAfterSpawn_lookup s req) as (Hframe & Hwrite & _).
  split; [|split; [|split; [|split]]].
  - rewrite cleanupSpawnedAgent_table, Htab, delete_insert_eq. by apply delete_id.
  - edestruct (cleanupSpawnedAgent_present (SessionID resp) reason s') as (-> & _).
    { rewrite Htab. apply lookup_insert_eq. }
    simpl. by rewrite Hcan.
  - intros parent. unfold countSpawnedAgentsByParent.
    rewrite Htab, countIn_insert_fresh by done. done.
  - apply cleanupSpawnedAgent_maps.
  - by rewrite Hmaps.
Qed.

(** The subscribed topics of a response are topics of the request, in the
    order of the request and each at most as often; without a message bus
    there are none. *)
Theorem subscribed_topics_sublist (s s' : MultiAgentServer) (req : SpawnSubAgentRequest)
    (resp : SpawnSubAgentResponse) :
  SpawnSubAgent s (Some req) = (inr resp, s') →
  SubscribedTopics resp `sublist_of` AutoSubscribe req
  ∧ (messageBus s = false → SubscribedTopics resp = []).
Proof.
  unfold SpawnSubAgent.
  destruct (createSubSession s req) as [[err|[ag sessionID]] s1] eqn:Hc; [done|].
  pose proof (createSubSession_sameTable _ _ _ _ Hc) as (_ & Hbus & _).
  destruct (if messageBus s1 && _ then _ else _) as [topics s2] eqn:Hsub.
  destruct (trackSpawned req ag sessionID topics s2) as [resp' s3] eqn:Htrack.
  intros [= <- <-]. apply trackSpawned_spec in Htrack as (-> & _). simpl.
  assert (Hall : ∀ subAgent ts w,
            succeededTopics (subscribeAttempts subAgent ts w) `sublist_of` ts).
  { intros subAgent ts. induction ts as [|t ts IH]; intros w; simpl.
    - constructor.
    - destruct (busSubscribe subAgent t 100 w) as [[err|sub] w']; unfold succeededTopics;
        rewrite filter_cons; simpl.
      + apply sublist_cons, IH.
      + apply sublist_skip, IH. }
  rewrite Hbus in Hsub. destruct (messageBus s); simpl in Hsub.
  - split; [|done]. case_bool_decide.
    + pose proof (autoSubscribeLoop_topics (fullSubAgentID req) (AutoSubscribe req) [] s1)
        as Hloop.
      rewrite Hsub in Hloop. simpl in Hloop. rewrite Hloop. apply Hall.
    + injection Hsub as <- <-. apply sublist_nil_l.
  - injection Hsub as <- <-. split; [apply sublist_nil_l|done].
Qed.

(** What a successful spawn tells about the request and the server. *)
Lemma SpawnSubAgent_ok_valid s req resp s' :
  SpawnSubAgent s (Some req) = (inr resp, s') →
  ParentSessionID req ≠ "" ∧ AgentID req ≠ "" ∧ registry s = true
  ∧ (countSpawnedAgentsByParent s (ParentSessionID req) < maxSpawnsPerParent)%nat
  ∧ Status resp = "spawned".
Proof.
  intros Hspawn.
  pose proof (SpawnSubAgent_ok _ _ _ _ Hspawn) as (r & sp & _ & Hstatus & _).
  unfold SpawnSubAgent in Hspawn.
  destruct (createSubSession s req) as [[err|[ag sessionID]] s1] eqn:Hc; [done|].
  apply createSubSession_ok in Hc as (? & ? & ? & ?). done.
Qed.

(** *** Subscriptions after a cleanup *)

(** What [Unsubscribe] is expected to do: the subscriptions an agent has
    afterwards are subscriptions it had before, and none of them has the
    identifier that was unsubscribed. *)
Definition unsubscribeRemoves : Prop :=
  ∀ (agentID subID : string) (w : W) (sub : Subscription),
    sub ∈ busGetSubscriptionsByAgent agentID (busUnsubscribe subID w) →
    sub ∈ busGetSubscriptionsByAgent agentID w ∧ subscriptionID sub ≠ subID.

Lemma unsubscribeTopic_left (subAgent topic : string) (s : MultiAgentServer)
    (sub : Subscription) :
  unsubscribeRemoves →
  sub ∈ busGetSubscriptionsByAgent subAgent (world (unsubscribeTopic subAgent topic s)) →
  sub ∈ busGetSubscriptionsByAgent subAgent (world s) ∧ Topic sub ≠ topic.
Proof.
  intros Hlaw. unfold unsubscribeTopic.
  assert (Hloop : ∀ (snapshot : list Subscription) s0,
            sub ∈ busGetSubscriptionsByAgent subAgent
                    (world (foldl (λ s sub',
                                     if String.eqb (Topic sub') topic then
                                       logTo LevelDebug "Unsubscribed spawned agent from topic"
                                         [("sub_agent_id", subAgent); ("topic", topic)]
                                         (withWorld
                                            (busUnsubscribe (subscriptionID sub') (world s)) s)
                                     else s) s0 snapshot)) →
            sub ∈ busGetSubscriptionsByAgent subAgent (world s0)
            ∧ ∀ sub', sub' ∈ snapshot → Topic sub' = topic →
                      subscriptionID sub ≠ subscriptionID sub').
  { induction snapshot as [|sub0 snapshot IH]; intros s0 Hin; cbn [foldl] in Hin.
    - split; [done|]. by intros sub' ?%elem_of_nil.
    - apply IH in Hin as [Hin Hrest].
      destruct (String.eqb_spec (Topic sub0) topic) as [Htopic|Htopic].
      + rewrite logTo_world in Hin. cbn in Hin. apply Hlaw in Hin as [Hin Hid].
        split; [done|]. intros sub' [->|?]%elem_of_cons ?; [done|by apply Hrest].
      + split; [done|]. intros sub' [->|?]%elem_of_cons ?; [done|by apply Hrest]. }
  intros [Hin Hids]%Hloop. split; [done|]. intros Htopic.
  by apply (Hids sub Hin Htopic).
Qed.

Lemma unsubscribeAll_left (subAgent : string) (topics : list string)
    (s : MultiAgentServer) (sub : Subscription) :
  unsubscribeRemoves →
  sub ∈ busGetSubscriptionsByAgent subAgent
          (world (foldl (λ s topic, unsubscribeTopic subAgent topic s) s topics)) →
  sub ∈ busGetSubscriptionsByAgent subAgent (world s) ∧ Topic sub ∉ topics.
Proof.
  intros Hlaw. revert s. induction topics as [|topic topics IH]; intros s Hin;
    cbn [foldl] in Hin.
  - split; [done|]. by intros ?%elem_of_nil.
  - apply IH in Hin as [Hin Hrest].
    apply unsubscribeTopic_left in Hin as [Hin Htopic]; [|done].
    split; [done|]. intros [?|?]%elem_of_cons; done.
Qed.

(** On a server with a message bus whose [Unsubscribe] removes what it is
    asked to remove, cleaning up a child leaves the sub-agent id of the child
    without any subscription to the topics recorded for the child; the
    subscriptions that remain are subscriptions it had before. *)
Theorem cleanup_unsubscribes_topics (s : MultiAgentServer) (sessionID reason : string)
    (sp : spawnedAgentContext) (sub : Subscription) :
  unsubscribeRemoves →
  messageBus s = true →
  spawnedAgents s !! sessionID = Some sp →
  sub ∈ busGetSubscriptionsByAgent (subAgentID sp)
          (world (cleanupSpawnedAgent sessionID reason s)) →
  sub ∈ busGetSubscriptionsByAgent (subAgentID sp) (world s)
  ∧ Topic sub ∉ subscriptions sp.
Proof.
  intros Hlaw Hbus Hl. unfold cleanupSpawnedAgent. rewrite Hl, logTo_world.
  match goal with
  | |- context [if messageBus ?s0 then _ else _] =>
      assert (Hs0 : messageBus s0 = true ∧ world s0 = world s)
  end.
  { destruct (cancelFunc sp); cbn; by rewrite logTo_messageBus, logTo_world. }
  destruct Hs0 as [-> Hworld]. intros [Hin Htopics]%unsubscribeAll_left; [|done].
  by rewrite Hworld in Hin.
Qed.

(** *** The monitor *)

(** A round that lets the loop go on was a tick and left the table and the
    contexts alone; a round that ends the loop has cleaned the session up. *)
Lemma monitorRound_table sessionID ev s goOn s' :
  monitorRound sessionID ev s = (goOn, s') →
  if goOn then
    ev = Tick ∧ spawnedAgents s' = spawnedAgents s ∧ canceled s' = canceled s
  else
    spawnedAgents s' = delete sessionID (spawnedAgents s)
    ∧ canceled s ⊆ canceled s'
    ∧ (∀ sp c, spawnedAgents s !! sessionID = Some sp → cancelFunc sp = Some c →
               c ∈ canceled s').
Proof.
  assert (Hclean : ∀ reason s0, onlyWorldAndLog s s0 →
            spawnedAgents (cleanupSpawnedAgent sessionID reason s0)
            = delete sessionID (spawnedAgents s)
            ∧ canceled s ⊆ canceled (cleanupSpawnedAgent sessionID reason s0)
            ∧ (∀ sp c, spawnedAgents s !! sessionID = Some sp → cancelFunc sp = Some c →
                       c ∈ canceled (cleanupSpawnedAgent sessionID reason s0))).
  { intros reason s0 ((Ht & _) & _ & Hc & _).
    rewrite cleanupSpawnedAgent_table, Ht. split; [done|]. split.
    - rewrite <- Hc. apply cleanupSpawnedAgent_canceled_mono.
    - intros sp c Hl Hcf. rewrite <- Ht in Hl.
      destruct (cleanupSpawnedAgent_present sessionID reason s0 sp Hl) as (-> & _).
      rewrite Hcf. apply elem_of_union. left. by apply elem_of_singleton. }
  unfold monitorRound. destruct ev.
  - intros [= <- <-]. apply Hclean, onlyWorldAndLog_logTo.
  - destruct (call (LoadSession sessionID) s) as [[err|session] s1] eqn:Hload.
    + intros [= <- <-]. split; [done|].
      destruct (onlyWorldAndLog_trans _ _ _ (onlyWorldAndLog_call _ _ _ _ Hload)
                  (onlyWorldAndLog_logTo LevelWarn "Failed to get spawned agent session"
                     [("session_id", sessionID); ("error", err)] s1))
        as ((? & _) & _ & ? & _).
      done.
    + destruct (call timeNow s1) as [now s2] eqn:Hnow.
      pose proof (onlyWorldAndLog_trans _ _ _ (onlyWorldAndLog_call _ _ _ _ Hload)
                    (onlyWorldAndLog_call _ _ _ _ Hnow)) as H2.
      destruct (idleLimit <? now - UpdatedAt session)%Z.
      * destruct (call timeNow s2) as [now' s3] eqn:Hnow'. intros [= <- <-].
        apply Hclean.
        eapply onlyWorldAndLog_trans; [|apply onlyWorldAndLog_logTo].
        eapply onlyWorldAndLog_trans; [exact H2|].
        by eapply onlyWorldAndLog_call.
      * intros [= <- <-]. split; [done|]. by destruct H2 as ((? & _) & _ & ? & _).
Qed.

(** The monitor of a child touches the entry of that child only.  Once its
    context is done the loop has ended with the child untracked and the
    context of the child canceled; and when the loop ends in any other way
    the child is untracked as well, or the table is as it was. *)
Theorem monitor_cleans_own_session (sessionID : string) (events : list MonitorEvent)
    (s : MultiAgentServer) :
  (∀ other, other ≠ sessionID →
     spawnedAgents (monitorSpawnedAgent sessionID events s) !! other
     = spawnedAgents s !! other)
  ∧ (CtxDone ∈ events →
     spawnedAgents (monitorSpawnedAgent sessionID events s) !! sessionID = None
     ∧ ∀ sp c, spawnedAgents s !! sessionID = Some sp → cancelFunc sp = Some c →
               c ∈ canceled (monitorSpawnedAgent sessionID events s))
  ∧ (spawnedAgents (monitorSpawnedAgent sessionID events s) !! sessionID = None
     ∨ spawnedAgents (monitorSpawnedAgent sessionID events s) = spawnedAgents s).
Proof.
  revert s. induction events as [|ev events IH]; intros s; cbn [monitorSpawnedAgent].
  - split; [done|]. split; [|by right]. by intros ?%elem_of_nil.
  - destruct (monitorRound sessionID ev s) as [[] s1] eqn:Hround;
      apply monitorRound_table in Hround.
    + destruct Hround as (-> & Htab & Hcan).
      destruct (IH s1) as (Hother & Hdone & Hend). rewrite Htab in *.
      split; [done|]. split; [|done].
      intros [[=]|Hin]%elem_of_cons. destruct (Hdone Hin) as [Hnone Hc].
      split; [done|]. done.
    + destruct Hround as (Htab & _ & Hc). rewrite Htab.
      split; [intros other Hne; by rewrite lookup_delete_ne|].
      split; [|left; apply lookup_delete_eq].
      intros _. split; [apply lookup_delete_eq|done].
Qed.

(** *** Contexts of tracked children *)

(** Every context in use was handed out by [newContext]; the context of a
    tracked child is not canceled, and two tracked children do not share
    one. *)
Definition contextsFresh (s : MultiAgentServer) : Prop :=
  (∀ c, c ∈ canceled s → (c < nextContext s)%nat)
  ∧ (∀ k sp c, spawnedAgents s !! k = Some sp → cancelFunc sp = Some c →
       (c < nextContext s)%nat ∧ c ∉ canceled s)
  ∧ (∀ k1 k2 sp1 sp2 c,
       spawnedAgents s !! k1 = Some sp1 → spawnedAgents s !! k2 = Some sp2 →
       cancelFunc sp1 = Some c → cancelFunc sp2 = Some c → k1 = k2).

Lemma contextsFresh_same s s' :
  spawnedAgents s' = spawnedAgents s → canceled s' = canceled s →
  nextContext s' = nextContext s → contextsFresh s → contextsFresh s'.
Proof. unfold contextsFresh. by intros -> -> ->. Qed.

Lemma contextsFresh_frame s s' : onlyWorldAndLog s s' → contextsFresh s → contextsFresh s'.
Proof. intros ((? & _) & ? & ? & _). by apply contextsFresh_same. Qed.

Lemma contextsFresh_cleanup sessionID reason s :
  contextsFresh s → contextsFresh (cleanupSpawnedAgent sessionID reason s).
Proof.
  intros (Hcan & Hlive & Hinj).
  destruct (spawnedAgents s !! sessionID) as [sp|] eqn:Hl.
  2:{ unfold cleanupSpawnedAgent. by rewrite Hl. }
  unfold contextsFresh. rewrite cleanupSpawnedAgent_table.
  destruct (cleanupSpawnedAgent_present sessionID reason s sp Hl) as (-> & -> & _).
  split; [|split].
  - intros c Hc. destruct (cancelFunc sp) as [c0|] eqn:Hcf; [|by apply Hcan].
    apply elem_of_union in Hc as [->%elem_of_singleton|Hc]; [|by apply Hcan].
    by destruct (Hlive sessionID sp c0 Hl Hcf).
  - intros k sp' c [Hne Hl']%lookup_delete_Some Hcf'.
    destruct (Hlive k sp' c Hl' Hcf') as [Hlt Hnc]. split; [done|].
    destruct (cancelFunc sp) as [c0|] eqn:Hcf; [|done].
    intros [->%elem_of_singleton|Hc]%elem_of_union; [|done].
    apply Hne. by apply (Hinj sessionID k sp sp' c0).
  - intros k1 k2 sp1 sp2 c [_ Hl1]%lookup_delete_Some [_ Hl2]%lookup_delete_Some.
    by apply Hinj.
Qed.

Lemma contextsFresh_cleanup_list (ids : list string) reason s :
  contextsFresh s →
  contextsFresh (foldl (λ s sessionID, cleanupSpawnedAgent sessionID reason s) s ids).
Proof.
  revert s. induction ids as [|sessionID ids IH]; intros s Hs; simpl; [done|].
  by apply IH, contextsFresh_cleanup.
Qed.

Lemma contextsFresh_spawn s req r s' :
  SpawnSubAgent s req = (r, s') → contextsFresh s → contextsFresh s'.
Proof.
  destruct r as [e|resp]; intros Hspawn.
  { apply contextsFresh_frame. by eapply SpawnSubAgent_error_frame. }
  destruct req as [req|]; [|done].
  apply SpawnSubAgent_tracked in Hspawn as (_ & Hnext & Hcanc & _ & _ & ag & now & Htab).
  intros (Hcan & Hlive & Hinj). unfold contextsFresh. rewrite Htab, Hnext, Hcanc.
  split; [|split].
  - intros c Hc. specialize (Hcan c Hc). lia.
  - intros k sp c Hl Hcf. destruct (decide (k = SessionID resp)) as [->|Hne].
    + rewrite lookup_insert_eq in Hl. injection Hl as <-. simpl in Hcf.
      injection Hcf as <-. split; [lia|]. intros Hc. specialize (Hcan _ Hc). lia.
    + rewrite lookup_insert_ne in Hl by done.
      destruct (Hlive k sp c Hl Hcf). split; [lia|done].
  - intros k1 k2 sp1 sp2 c Hl1 Hl2 Hc1 Hc2.
    destruct (decide (k1 = SessionID resp)) as [->|Hne1],
             (decide (k2 = SessionID resp)) as [->|Hne2]; [done| | |].
    + rewrite lookup_insert_eq in Hl1. injection Hl1 as <-. simpl in Hc1.
      injection Hc1 as <-. rewrite lookup_insert_ne in Hl2 by done.
      destruct (Hlive k2 sp2 _ Hl2 Hc2). lia.
    + rewrite lookup_insert_eq in Hl2. injection Hl2 as <-. simpl in Hc2.
      injection Hc2 as <-. rewrite lookup_insert_ne in Hl1 by done.
      destruct (Hlive k1 sp1 _ Hl1 Hc1). lia.
    + rewrite lookup_insert_ne in Hl1, Hl2 by done. by eapply Hinj.
Qed.

Lemma contextsFresh_monitorRound sessionID ev s :
  contextsFresh s → contextsFresh (monitorRound sessionID ev s).2.
Proof.
  intros Hs. unfold monitorRound. destruct ev; simpl.
  - apply contextsFresh_cleanup.
    eapply contextsFresh_frame; [apply onlyWorldAndLog_logTo|done].
  - destruct (call (LoadSession sessionID) s) as [[err|session] s1] eqn:Hload; simpl.
    + eapply contextsFresh_frame; [apply onlyWorldAndLog_logTo|].
      eapply contextsFresh_frame; [by eapply onlyWorldAndLog_call|done].
    + destruct (call timeNow s1) as [now s2] eqn:Hnow.
      assert (contextsFresh s2).
      { eapply contextsFresh_frame; [by eapply onlyWorldAndLog_call|].
        eapply contextsFresh_frame; [by eapply onlyWorldAndLog_call|done]. }
      destruct (idleLimit <? now - UpdatedAt session)%Z; [|done].
      destruct (call timeNow s2) as [now' s3] eqn:Hnow'. simpl.
      apply contextsFresh_cleanup.
      eapply contextsFresh_frame; [apply onlyWorldAndLog_logTo|].
      eapply contextsFresh_frame; [by eapply onlyWorldAndLog_call|done].
Qed.

Lemma contextsFresh_step s op : contextsFresh s → contextsFresh (step s op).
Proof.
  intros Hs. destruct op as [req|sessionID reason|parent|c sessionID ev]; simpl.
  - destruct (SpawnSubAgent s req) as [r s'] eqn:Hspawn. by eapply contextsFresh_spawn.
  - by apply contextsFresh_cleanup.
  - unfold cleanupSpawnedAgentsByParent. case_bool_decide; [|done].
    apply contextsFresh_cleanup_list.
    eapply contextsFresh_frame; [apply onlyWorldAndLog_logTo|done].
  - destruct (monitorEnabled c sessionID ev s); [|done].
    pose proof (contextsFresh_monitorRound sessionID ev s Hs) as Hm.
    destruct (monitorRound sessionID ev s) as [[] s']; [done|].
    by apply (contextsFresh_same s').
Qed.

(** Through any sequence of operations, taken one at a time, the context of
    a tracked child is never canceled (cleaning up one child cancels the
    context of that child only), and no two tracked children share a
    context. *)
Theorem tracked_child_context_live (s : MultiAgentServer) (ops : list Op)
    (k : string) (sp : spawnedAgentContext) (c : nat) :
  contextsFresh s →
  spawnedAgents (run ops s) !! k = Some sp → cancelFunc sp = Some c →
  (c ∉ canceled (run ops s))
  ∧ (∀ k' sp', spawnedAgents (run ops s) !! k' = Some sp' → cancelFunc sp' = Some c →
               k' = k).
Proof.
  intros Hs. assert (Hrun : contextsFresh (run ops s)).
  { unfold run. revert s Hs. induction ops as [|op ops IH]; intros s Hs; simpl; [done|].
    by apply IH, contextsFresh_step. }
  destruct Hrun as (_ & Hlive & Hinj). intros Hl Hcf. split.
  - by destruct (Hlive k sp c Hl Hcf).
  - intros k' sp' Hl' Hcf'. by apply (Hinj k' k sp' sp c).
Qed.

End SpawnManager.

(** [truncateString] returns a string of at most [maxLen] bytes as it is;
    a longer one is cut to its first [maxLen] bytes, followed by three dots.
    The result has at most [maxLen + 3] bytes, so a string one or two bytes
    over the limit comes out longer than it went in. *)
Theorem truncateString_bounds (s : string) (maxLen : nat) :
  ((String.length s ≤ maxLen)%nat → truncateString s maxLen = s)
  ∧ ((maxLen < String.length s)%nat →
     ∃ kept, truncateString s maxLen = kept ++ "..."
           ∧ String.length kept = maxLen ∧ String.prefix kept s = true)
  ∧ (String.length (truncateString s maxLen) ≤ maxLen + 3)%nat
  ∧ ((maxLen < String.length s < maxLen + 3)%nat →
     (String.length s < String.length (truncateString s maxLen))%nat).
Proof.
  unfold truncateString, GoStrings.slice_to.
  assert (Hcut : (maxLen < String.length s)%nat →
            String.length (String.substring 0 maxLen s ++ "...") = (maxLen + 3)%nat).
  { intros Hlt. rewrite GoStrings.str_length_app, GoStrings.str_length_substring_0 by lia.
    done. }
  case_bool_decide as Hlen.
  - split; [done|]. split; [lia|]. split; lia.
  - split; [lia|]. split; [|split].
    + intros _. eexists. split; [done|].
      split; [apply GoStrings.str_length_substring_0; lia|].
      apply GoStrings.str_prefix_substring_0.
    + rewrite Hcut; lia.
    + intros ?. rewrite Hcut; lia.
Qed.

(** *** A small world for examples

    Session ids are numbered, the clock advances by one second per reading,
    an agent loads unless it is listed as unknown, and a subscription succeeds
    unless its topic is listed as closed. *)

Record SimWorld := {
  nextID : nat;
  clock : Z;
  sessions : gmap string Session;
  busSubscriptions : list (string * Subscription);
  closedTopics : list string;
  unknownAgents : list string
}.

Definition simLoad (agentID : string) (w : SimWorld) : (string + string) * SimWorld :=
  (if bool_decide (agentID ∈ unknownAgents w) then inl "agent not found" else inr agentID, w).

Definition simSessionID (w : SimWorld) : string * SimWorld :=
  ("sess_" ++ pretty (nextID w),
   {| nextID := S (nextID w); clock := clock w; sessions := sessions w;
      busSubscriptions := busSubscriptions w; closedTopics := closedTopics w;
      unknownAgents := unknownAgents w |}).

Definition simNow (w : SimWorld) : Z * SimWorld :=
  (clock w,
   {| nextID := nextID w; clock := (clock w + 1000000000)%Z; sessions := sessions w;
      busSubscriptions := busSubscriptions w; closedTopics := closedTopics w;
      unknownAgents := unknownAgents w |}).

Definition simSave (session : Session) (w : SimWorld) : option string * SimWorld :=
  (None,
   {| nextID := nextID w; clock := clock w;
      sessions := <[ID session := session]> (sessions w);
      busSubscriptions := busSubscriptions w; closedTopics := closedTopics w;
      unknownAgents := unknownAgents w |}).

Definition simLoadSession (sessionID : string) (w : SimWorld) : (string + Session) * SimWorld :=
  (match sessions w !! sessionID with
   | Some session => inr session
   | None => inl "session not found"
   end, w).

Definition simSubscribe (agentID topic : string) (buffer : nat) (w : SimWorld)
    : (string + Subscription) * SimWorld :=
  if bool_decide (topic ∈ closedTopics w) then (inl "topic closed", w)
  else
    let sub := {| subscriptionID := "sub_" ++ pretty (nextID w); Topic := topic |} in
    (inr sub,
     {| nextID := S (nextID w); clock := clock w; sessions := sessions w;
        busSubscriptions := (busSubscriptions w ++ [(agentID, sub)])%list;
        closedTopics := closedTopics w; unknownAgents := unknownAgents w |}).

Definition simSubscriptionsOf (agentID : string) (w : SimWorld) : list Subscription :=
  (filter (λ e, e.1 = agentID) (busSubscriptions w)).*2.

Definition simUnsubscribe (subID : string) (w : SimWorld) : SimWorld :=
  {| nextID := nextID w; clock := clock w; sessions := sessions w;
     busSubscriptions := filter (λ e, subscriptionID e.2 ≠ subID) (busSubscriptions w);
     closedTopics := closedTopics w; unknownAgents := unknownAgents w |}.

#[global] Instance simCollaborators : Collaborators SimWorld string := {
  getOrLoadAgent := simLoad;
  GenerateSessionID := simSessionID;
  timeNow := simNow;
  SaveSession := simSave;
  LoadSession := simLoadSession;
  busSubscribe := simSubscribe;
  busGetSubscriptionsByAgent := simSubscriptionsOf;
  busUnsubscribe := simUnsubscribe
}.

Definition simWorld0 : SimWorld :=
  {| nextID := 0; clock := 0; sessions := ∅; busSubscriptions := [];
     closedTopics := ["closed-topic"]; unknownAgents := ["ghost"] |}.

Definition simServer0 : MultiAgentServer (W := SimWorld) (Agent := string) :=
  {| registry := true; logger := true; messageBus := true;
     spawnedAgents := ∅; world := simWorld0; logs := [];
     nextContext := 0; canceled := ∅; monitors := [];
     mapObjects := ∅; nextMap := 0 |}.

Definition fighterRequest : SpawnSubAgentRequest :=
  {| ParentSessionID := "parent-1"; ParentAgentID := "dungeon-master";
     AgentID := "fighter"; WorkflowID := "dungeon-crawl";
     InitialMessage := "roll for initiative";
     AutoSubscribe := ["party-chat"; "closed-topic"; "loot"];
     Metadata := NilMap |}.

(** The server after ten spawns by the same parent. *)
Definition simServerFull : MultiAgentServer (W := SimWorld) (Agent := string) :=
  run (replicate 10 (OpSpawn (Some fighterRequest))) simServer0.

Example sim_first_spawn :
  (SpawnSubAgent simServer0 (Some fighterRequest)).1
  = inr {| SubAgentID := "dungeon-crawl:fighter"; SessionID := "sess_0";
           Status := "spawned"; SubscribedTopics := ["party-chat"; "loot"] |}.
Proof. vm_compute. reflexivity. Qed.

Example sim_full_count : countSpawnedAgentsByParent simServerFull "parent-1" = 10%nat.
Proof. vm_compute. reflexivity. Qed.

(** The server after nine spawns by the same parent, and two further calls
    for that parent that overlap: both run their count before either tracks
    its child. *)
Definition simServerNine : MultiAgentServer (W := SimWorld) (Agent := string) :=
  run (replicate 9 (OpSpawn (Some fighterRequest))) simServer0.

Definition overlappingSpawns : list Move :=
  [SpawnBegin (Some fighterRequest); SpawnBegin (Some fighterRequest);
   SpawnEnd 0; SpawnEnd 0].

Definition simServerRaced : Concurrent (W := SimWorld) (Agent := string) :=
  interleave overlappingSpawns (quiet simServerNine).

Example sim_eleventh_spawn :
  (SpawnSubAgent simServerFull (Some fighterRequest)).1 = inl (ErrSpawnLimit 10 10).
Proof. vm_compute. reflexivity. Qed.

Example sim_unknown_agent :
  (SpawnSubAgent simServer0
     (Some {| ParentSessionID := "parent-1"; ParentAgentID := "dungeon-master";
              AgentID := "ghost"; WorkflowID := ""; InitialMessage := "";
              AutoSubscribe := []; Metadata := NilMap |})).1
  = inl (ErrLoadAgent "ghost" "agent not found").
Proof. vm_compute. reflexivity. Qed.

(** The server after one spawn, and after cleaning that child up. *)
Definition simServerOne : MultiAgentServer (W := SimWorld) (Agent := string) :=
  run [OpSpawn (Some fighterRequest)] simServer0.

Definition simServerCleaned : MultiAgentServer (W := SimWorld) (Agent := string) :=
  cleanupSpawnedAgent "sess_0" "session expired" simServerOne.

Example sim_spawn_effects :
  busSubscriptions (world simServerOne)
  = [("dungeon-crawl:fighter", {| subscriptionID := "sub_1"; Topic := "party-chat" |});
     ("dungeon-crawl:fighter", {| subscriptionID := "sub_2"; Topic := "loot" |})]
  ∧ monitors simServerOne = [(0%nat, "sess_0")]
  ∧ (metadata <$> spawnedAgents simServerOne !! "sess_0") = Some (Some 0%nat)
  ∧ (spawnedAgents simServerOne !! "sess_0" ≫= metadataOf simServerOne)
    = Some {[ "initial_message" := "roll for initiative" ]}.
Proof. vm_compute. done. Qed.

(** A caller that keeps one metadata map and hands it to two spawns: the map
    object 7 is the caller's, both requests refer to it. *)
Definition simServerShared : MultiAgentServer (W := SimWorld) (Agent := string) :=
  {| messageBus := messageBus simServer0; logger := logger simServer0;
     registry := registry simServer0; spawnedAgents := spawnedAgents simServer0;
     world := world simServer0; logs := logs simServer0;
     nextContext := nextContext simServer0; canceled := canceled simServer0;
     monitors := monitors simServer0;
     mapObjects := {[ 7%nat := {[ "role" := "tank" ]} ]}; nextMap := 8 |}.

Definition sharedRequest (message : string) : SpawnSubAgentRequest :=
  {| ParentSessionID := "parent-1"; ParentAgentID := "dungeon-master";
     AgentID := "fighter"; WorkflowID := "dungeon-crawl";
     InitialMessage := message; AutoSubscribe := []; Metadata := SharedMap 7 |}.

Definition simServerSharedOne : MultiAgentServer (W := SimWorld) (Agent := string) :=
  (SpawnSubAgent simServerShared (Some (sharedRequest "guard the door"))).2.

Definition simServerSharedTwo : MultiAgentServer (W := SimWorld) (Agent := string) :=
  (SpawnSubAgent simServerSharedOne (Some (sharedRequest "open the chest"))).2.

(** The second spawn overwrites the initial message the first child shows:
    both entries refer to the caller's map. *)
Example sim_shared_metadata :
  (spawnedAgents simServerSharedOne !! "sess_0" ≫= metadataOf simServerSharedOne)
  = Some {[ "role" := "tank"; "initial_message" := "guard the door" ]}
  ∧ (spawnedAgents simServerSharedTwo !! "sess_0" ≫= metadataOf simServerSharedTwo)
    = Some {[ "role" := "tank"; "initial_message" := "open the chest" ]}
  ∧ spawnedAgents simServerSharedTwo !! "sess_0"
    = spawnedAgents simServerSharedOne !! "sess_0"
  ∧ (metadata <$> spawnedAgents simServerSharedTwo !! "sess_1") = Some (Some 7%nat).
Proof. vm_compute. done. Qed.

Example sim_cleanup_effects :
  spawnedAgents simServerCleaned !! "sess_0" = None
  ∧ busSubscriptions (world simServerCleaned) = []
  ∧ elements (canceled simServerCleaned) = [0%nat].
Proof. vm_compute. done. Qed.

Example sim_monitor_after_cancel :
  monitors (step simServerCleaned (OpMonitor 0 "sess_0" CtxDone)) = []
  ∧ spawnedAgents (step simServerCleaned (OpMonitor 0 "sess_0" CtxDone))
    = spawnedAgents simServerCleaned.
Proof. vm_compute. done. Qed.

Lemma withinSpawnLimit_simServer0 : withinSpawnLimit simServer0.
Proof.
  intros parent. unfold countSpawnedAgentsByParent. simpl.
  rewrite map_fold_empty. lia.
Qed.

Lemma spawn_limit_enforced_witness :
  (∃ e, (SpawnSubAgent simServerFull (Some fighterRequest)).1 = inl e
      ∧ spawnedAgents (SpawnSubAgent simServerFull (Some fighterRequest)).2
        = spawnedAgents simServerFull
      ∧ e = ErrSpawnLimit
              (countSpawnedAgentsByParent simServerFull (ParentSessionID fighterRequest)) 10
      ∧ is_spawn_limit e = true)
  ∧ ∀ parent,
      (countSpawnedAgentsByParent
         (run [OpSpawn (Some fighterRequest); OpCleanupByParent "parent-1";
               OpSpawn (Some fighterRequest)] simServerFull) parent ≤ 10)%nat.
Proof.
  destruct (spawn_limit_enforced simServerFull fighterRequest
              [OpSpawn (Some fighterRequest); OpCleanupByParent "parent-1";
               OpSpawn (Some fighterRequest)]) as [Hrefused Hbound].
  split.
  - destruct Hrefused as (e & He & Htab & Hkind).
    + vm_compute. lia.
    + exists e. split; [exact He|]. split; [exact Htab|].
      apply Hkind; [discriminate|discriminate|reflexivity].
  - apply Hbound. unfold simServerFull.
    apply withinSpawnLimit_run, withinSpawnLimit_simServer0.
Defined.

(** C2: the bound of ten children per parent fails for calls of
    [SpawnSubAgent] that overlap.  The count of a call (lines 54-58, under the
    read lock of lines 170-181) and its insert (lines 128-130, under a write
    lock taken later) are not one critical section.  From a server within the
    limit, where the parent has nine children, two calls for that parent both
    count nine, both pass the check and both track their child: the parent
    then has eleven children.  A further call is refused with the spawn-limit
    error, which reports eleven children against the maximum of ten. *)
Theorem spawn_limit_race :
  countSpawnedAgentsByParent simServerNine "parent-1" = 9%nat
  ∧ withinSpawnLimit simServerNine
  ∧ pending simServerRaced = []
  ∧ countSpawnedAgentsByParent (server simServerRaced) "parent-1" = 11%nat
  ∧ ¬ withinSpawnLimit (server simServerRaced)
  ∧ (SpawnSubAgent (server simServerRaced) (Some fighterRequest)).1
    = inl (ErrSpawnLimit 11 10).
Proof.
  assert (Hcount : countSpawnedAgentsByParent (server simServerRaced) "parent-1" = 11%nat)
    by (vm_compute; reflexivity).
  split_and!.
  - vm_compute. reflexivity.
  - apply withinSpawnLimit_run, withinSpawnLimit_simServer0.
  - vm_compute. reflexivity.
  - exact Hcount.
  - intros Hlimit. specialize (Hlimit "parent-1"). rewrite Hcount in Hlimit.
    unfold maxSpawnsPerParent in Hlimit. lia.
  - vm_compute. reflexivity.
Qed.

Lemma autoSubscribe_failure_keeps_spawn_witness :
  ∃ resp s',
    SpawnSubAgent simServer0 (Some fighterRequest) = (inr resp, s')
    ∧ SubscribedTopics resp = ["party-chat"; "loot"]
    ∧ "closed-topic" ∉ SubscribedTopics resp.
Proof.
  destruct (autoSubscribe_failure_keeps_spawn simServer0
              (createSubSession simServer0 fighterRequest).2
              fighterRequest "fighter" "sess_0")
    as (resp & s' & Hspawn & _ & Htopics & _ & Habsent & _).
  - discriminate.
  - vm_compute. reflexivity.
  - exists resp, s'. split; [exact Hspawn|]. split.
    + rewrite Htopics. vm_compute. reflexivity.
    + apply Habsent.
      match goal with
      | |- _ ∉ ?a =>
          assert (Hatt : a = [("party-chat", true); ("closed-topic", false); ("loot", true)])
            by (vm_compute; reflexivity);
          rewrite Hatt
      end.
      intros Hin.
      repeat (apply elem_of_cons in Hin as [Hin|Hin]; [discriminate Hin|]).
      by apply elem_of_nil in Hin.
Defined.

Lemma spawn_status_spawned_witness :
  Status {| SubAgentID := "dungeon-crawl:fighter"; SessionID := "sess_0";
            Status := "spawned"; SubscribedTopics := ["party-chat"; "loot"] |} = "spawned"
  ∧ Status {| SubAgentID := "dungeon-crawl:fighter"; SessionID := "sess_0";
              Status := "spawned"; SubscribedTopics := ["party-chat"; "loot"] |} ≠ "running"
  ∧ Status {| SubAgentID := "dungeon-crawl:fighter"; SessionID := "sess_0";
              Status := "spawned"; SubscribedTopics := ["party-chat"; "loot"] |} ≠ "error".
Proof.
  refine (spawn_status_spawned simServer0
            (SpawnSubAgent simServer0 (Some fighterRequest)).2
            (Some fighterRequest)
            {| SubAgentID := "dungeon-crawl:fighter"; SessionID := "sess_0";
               Status := "spawned"; SubscribedTopics := ["party-chat"; "loot"] |} _).
  vm_compute. reflexivity.
Defined.

Lemma cleanup_idempotent_witness :
  cleanupSpawnedAgent "sess_7" "session expired" simServerOne = simServerOne
  ∧ cleanupSpawnedAgent "sess_0" "parent context canceled"
      (cleanupSpawnedAgent "sess_0" "session expired" simServerOne)
    = cleanupSpawnedAgent "sess_0" "session expired" simServerOne.
Proof.
  split.
  - refine (proj1 (cleanup_idempotent simServerOne "sess_7" "session expired" "") _).
    vm_compute. reflexivity.
  - exact (proj2 (cleanup_idempotent simServerOne "sess_0" "session expired"
                    "parent context canceled")).
Defined.

(** The response to the first spawn and the entry it tracks. *)
Definition simResponse : SpawnSubAgentResponse :=
  {| SubAgentID := "dungeon-crawl:fighter"; SessionID := "sess_0";
     Status := "spawned"; SubscribedTopics := ["party-chat"; "loot"] |}.

Definition simChild : spawnedAgentContext (Agent := string) :=
  {| parentSessionID := "parent-1"; parentAgentID := "dungeon-master";
     subAgentID := "dungeon-crawl:fighter"; subSessionID := "sess_0";
     workflowID := "dungeon-crawl"; agent := "fighter"; spawnedAt := 2000000000;
     subscriptions := ["party-chat"; "loot"];
     metadata := Some 0%nat;
     cancelFunc := Some 0%nat |}.

Lemma simServer0_spawn :
  SpawnSubAgent simServer0 (Some fighterRequest) = (inr simResponse, simServerOne).
Proof. vm_compute. reflexivity. Qed.

Lemma simServerOne_child : spawnedAgents simServerOne !! "sess_0" = Some simChild.
Proof. vm_compute. reflexivity. Qed.

Lemma contextsFresh_simServer0 : contextsFresh simServer0.
Proof.
  unfold contextsFresh, simServer0. simpl. split; [|split].
  - intros c Hc. by apply not_elem_of_empty in Hc.
  - intros k sp c Hl. by rewrite lookup_empty in Hl.
  - intros k1 k2 sp1 sp2 c Hl. by rewrite lookup_empty in Hl.
Qed.

Lemma cleanup_removes_child_witness :
  spawnedAgents (cleanupSpawnedAgent "sess_0" "session expired" simServerOne) !! "sess_0"
  = None
  ∧ countSpawnedAgentsByParent simServerOne "parent-1"
    = S (countSpawnedAgentsByParent
           (cleanupSpawnedAgent "sess_0" "session expired" simServerOne) "parent-1").
Proof.
  destruct (cleanup_removes_child simServerOne "sess_0" "session expired" simChild
              simServerOne_child) as (Hgone & _ & _ & Hcount & _).
  exact (conj Hgone Hcount).
Defined.

Lemma spawn_rejection_effects_witness :
  spawnedAgents (SpawnSubAgent simServerFull (Some fighterRequest)).2
  = spawnedAgents simServerFull
  ∧ world (SpawnSubAgent simServerFull (Some fighterRequest)).2 = world simServerFull.
Proof.
  destruct (spawn_rejection_effects simServerFull
              (SpawnSubAgent simServerFull (Some fighterRequest)).2
              (Some fighterRequest) (ErrSpawnLimit 10 10))
    as ((Htab & _) & _ & Hworld & _).
  - vm_compute. reflexivity.
  - split; [exact Htab|]. apply Hworld. reflexivity.
Defined.

Lemma simServerShared_spawn :
  SpawnSubAgent simServerSharedOne (Some (sharedRequest "open the chest"))
  = (inr {| SubAgentID := "dungeon-crawl:fighter"; SessionID := "sess_1";
            Status := "spawned"; SubscribedTopics := [] |}, simServerSharedTwo).
Proof. vm_compute. reflexivity. Qed.

Lemma spawn_tracks_child_witness :
  (∃ sp, spawnedAgents simServerSharedTwo !! "sess_1" = Some sp
       ∧ parentSessionID sp = "parent-1"
       ∧ metadata sp = Some 7%nat
       ∧ metadataOf simServerSharedTwo sp
         = Some {[ "role" := "tank"; "initial_message" := "open the chest" ]})
  ∧ spawnedAgents simServerSharedTwo !! "sess_0"
    = spawnedAgents simServerSharedOne !! "sess_0"
  ∧ mapObjects simServerSharedTwo !! 7%nat
    = Some {[ "role" := "tank"; "initial_message" := "open the chest" ]}
  ∧ mapObjects simServerSharedTwo !! 3%nat = mapObjects simServerSharedOne !! 3%nat.
Proof.
  destruct (spawn_tracks_child simServerSharedOne simServerSharedTwo
              (sharedRequest "open the chest") _ simServerShared_spawn)
    as ((sp & Hl & Hp & _ & _ & _ & _ & _ & Hmd & Hshown & _)
        & _ & Hother & Hframe & Hwrite & _).
  split; [|split; [|split]].
  - exists sp. split; [exact Hl|]. split; [exact Hp|]. split; [exact Hmd|].
    etrans; [exact Hshown|]. vm_compute. reflexivity.
  - apply Hother. discriminate.
  - etrans; [apply Hwrite; [reflexivity|discriminate]|]. vm_compute. reflexivity.
  - apply Hframe. discriminate.
Defined.

Lemma spawn_cleanup_round_trip_witness :
  spawnedAgents (cleanupSpawnedAgent "sess_0" "session expired" simServerOne)
  = spawnedAgents simServer0
  ∧ canceled (cleanupSpawnedAgent "sess_0" "session expired" simServerOne)
    = {[ 0%nat ]} ∪ canceled simServer0
  ∧ mapObjects (cleanupSpawnedAgent "sess_0" "session expired" simServerOne)
    = mapObjects simServerOne.
Proof.
  destruct (spawn_cleanup_round_trip simServer0 simServerOne fighterRequest simResponse
              "session expired" simServer0_spawn) as (Htab & Hcan & _ & Hmaps & _).
  - vm_compute. reflexivity.
  - exact (conj Htab (conj Hcan Hmaps)).
Defined.

Lemma subscribed_topics_sublist_witness :
  SubscribedTopics simResponse `sublist_of` AutoSubscribe fighterRequest.
Proof.
  exact (proj1 (subscribed_topics_sublist simServer0 simServerOne fighterRequest
                  simResponse simServer0_spawn)).
Defined.

Lemma sim_unsubscribeRemoves : unsubscribeRemoves (W := SimWorld) (Agent := string).
Proof.
  intros agentID subID w sub. cbn. unfold simSubscriptionsOf, simUnsubscribe. cbn.
  rewrite !list_elem_of_fmap.
  intros ([a sub'] & -> & [Ha [Hid Hin]%list_elem_of_filter]%list_elem_of_filter).
  split; [|done]. exists (a, sub'). split; [done|]. by apply list_elem_of_filter.
Qed.

(** A second child with the same sub-agent id, subscribed to another topic. *)
Definition announcedRequest : SpawnSubAgentRequest :=
  {| ParentSessionID := "parent-1"; ParentAgentID := "dungeon-master";
     AgentID := "fighter"; WorkflowID := "dungeon-crawl";
     InitialMessage := ""; AutoSubscribe := ["announcements"]; Metadata := NilMap |}.

Definition simServerTwo : MultiAgentServer (W := SimWorld) (Agent := string) :=
  run [OpSpawn (Some fighterRequest); OpSpawn (Some announcedRequest)] simServer0.

Lemma simServerTwo_child : spawnedAgents simServerTwo !! "sess_0" = Some simChild.
Proof. vm_compute. reflexivity. Qed.

Lemma simServerTwo_cleaned :
  busGetSubscriptionsByAgent "dungeon-crawl:fighter"
    (world (cleanupSpawnedAgent "sess_0" "session expired" simServerTwo))
  = [ {| subscriptionID := "sub_4"; Topic := "announcements" |} ].
Proof. vm_compute. reflexivity. Qed.

Lemma cleanup_unsubscribes_topics_witness :
  {| subscriptionID := "sub_4"; Topic := "announcements" |}
    ∈ busGetSubscriptionsByAgent "dungeon-crawl:fighter" (world simServerTwo)
  ∧ "announcements" ∉ ["party-chat"; "loot"].
Proof.
  refine (cleanup_unsubscribes_topics simServerTwo "sess_0" "session expired" simChild
            {| subscriptionID := "sub_4"; Topic := "announcements" |}
            sim_unsubscribeRemoves eq_refl simServerTwo_child _).
  change (subAgentID simChild) with "dungeon-crawl:fighter".
  rewrite simServerTwo_cleaned. apply list_elem_of_here.
Defined.

Lemma tracked_child_context_live_witness :
  0%nat ∉ canceled (run [OpSpawn (Some fighterRequest); OpSpawn (Some fighterRequest);
                         OpCleanup "sess_1" "session expired"] simServer0).
Proof.
  refine (proj1 (tracked_child_context_live simServer0
                   [OpSpawn (Some fighterRequest); OpSpawn (Some fighterRequest);
                    OpCleanup "sess_1" "session expired"]
                   "sess_0" simChild 0%nat contextsFresh_simServer0 _ _)).
  - vm_compute. reflexivity.
  - reflexivity.
Defined.

End Server.

(** ** The tool with the server as its handler *)

Module SpawnTool.
Import Builtin Server.

#[global] Instance serverHandler {W Agent : Type} `{Collaborators W Agent} :
  SpawnHandler (MultiAgentServer (W := W) (Agent := Agent)) SpawnError := {
  handler_SpawnSubAgent := SpawnSubAgent;
  handler_Error := SpawnError_Error
}.

Definition simTool : SpawnAgentTool (MultiAgentServer (W := SimWorld) (Agent := string)) :=
  NewSpawnAgentTool (Some simServer0) "parent-1" "dungeon-master".

Definition invalidResult (elapsed : Z) : Result :=
  failure "INVALID_AGENT_ID" "agent_id must be a non-empty string"
    "Provide agent_id like 'fighter' or 'analyst'" false elapsed.

Example tool_spawns_fighter :
  (Execute simTool
     {[ "agent_id" := VString "fighter";
        "workflow_id" := VString "dungeon-crawl";
        "auto_subscribe" := VSlice [VString "party-chat"; VBool true; VString "closed-topic"] ]}
     3).1.1
  = {| Success := true;
       Data := Some (VMap {[ "success" := VBool true;
                             "sub_agent_id" := VString "dungeon-crawl:fighter";
                             "session_id" := VString "sess_0";
                             "status" := VString "spawned";
                             "subscribed_topics" := VStrings ["party-chat"] ]});
       Error := None;
       ResultMetadata := {[ "sub_agent_id" := VString "dungeon-crawl:fighter";
                            "session_id" := VString "sess_0";
                            "subscribed_topics" := VStrings ["party-chat"] ]};
       ExecutionTimeMs := 3 |}.
Proof. vm_compute. reflexivity. Qed.

Example tool_reports_handler_error :
  (Execute simTool {[ "agent_id" := VString "ghost" ]} 3).1
  = (failure "SPAWN_FAILED"
       "Failed to spawn agent: failed to load agent ghost: agent not found"
       "Check if agent config exists and server has capacity" true 3, None).
Proof. vm_compute. reflexivity. Qed.

Example tool_rejects_number_as_agent_id :
  Execute simTool {[ "agent_id" := VFloat 7 ]} 3 = (invalidResult 3, None, simTool).
Proof. vm_compute. reflexivity. Qed.

Example tool_without_handler :
  (Execute (NewSpawnAgentTool
              (None : option (MultiAgentServer (W := SimWorld) (Agent := string)))
              "parent-1" "dungeon-master")
     {[ "agent_id" := VString "fighter" ]} 3).1
  = (failure "SPAWN_NOT_AVAILABLE" "Agent spawning not configured for this server"
       "spawn_agent requires MultiAgentServer with agent registry" false 3, None).
Proof. vm_compute. reflexivity. Qed.

(** *** The tool and the server together *)

Section ToolOnServer.
Context {W Agent : Type} `{Collaborators W Agent}.

(** A successful call of the tool on a server: the result names the session
    of a child that the server now tracks under the parent session and parent
    agent of the tool, with status [spawned]; the tool has a parent session,
    and that parent was below the spawn limit. *)
Theorem tool_success_tracks_child
    (t t' : SpawnAgentTool (MultiAgentServer (W := W) (Agent := Agent)))
    (s : MultiAgentServer) (params : gmap string GoValue) (elapsed : Z)
    (result : Result) (err : option string) :
  handler t = Some s →
  Execute t params elapsed = (result, err, t') →
  Success result = true →
  ∃ s' sp m sessionID,
    t' = withHandler s' t
    ∧ Data result = Some (VMap m)
    ∧ m !! "success" = Some (VBool true)
    ∧ m !! "session_id" = Some (VString sessionID)
    ∧ m !! "status" = Some (VString "spawned")
    ∧ m !! "sub_agent_id" = Some (VString (subAgentID sp))
    ∧ m !! "subscribed_topics" = Some (VStrings (subscriptions sp))
    ∧ ResultMetadata result !! "session_id" = Some (VString sessionID)
    ∧ spawnedAgents s' !! sessionID = Some sp
    ∧ parentSessionID sp = parentSession t
    ∧ Server.parentAgentID sp = Builtin.parentAgentID t
    ∧ parentSession t ≠ ""
    ∧ (countSpawnedAgentsByParent s (parentSession t) < maxSpawnsPerParent)%nat.
Proof.
  intros Hh. unfold Execute. rewrite Hh.
  destruct (asString (params !! "agent_id")) as [agentID|]; [|by intros [= <- <- <-]].
  destruct (String.eqb agentID ""); [by intros [= <- <- <-]|].
  match goal with
  | |- context [handler_SpawnSubAgent s (Some ?r)] =>
      set (req := r); destruct (handler_SpawnSubAgent s (Some req)) as [[e|resp] s'] eqn:Hcall
  end; [by intros [= <- <- <-]|].
  intros [= <- <- <-] _. change (SpawnSubAgent s (Some req) = (inr resp, s')) in Hcall.
  pose proof (SpawnSubAgent_ok_valid _ _ _ _ Hcall) as (Hparent & _ & _ & Hcount & Hstatus).
  apply SpawnSubAgent_tracked in Hcall as (Hid & _ & _ & _ & _ & ag & now & Htab).
  match type of Htab with
  | _ = <[_ := ?child]> _ => eexists s', child, _, (SessionID resp)
  end.
  cbn [Data ResultMetadata].
  split; [done|]. split; [done|].
  rewrite Htab, Hstatus, Hid. cbn.
  repeat split; try done. apply lookup_insert_eq.
Qed.

(** A parent at the spawn limit: the tool answers a retryable [SPAWN_FAILED]
    that carries the text of the spawn-limit error, and the server behind it
    has the same spawn table, world, contexts and monitors as before. *)
Theorem tool_refuses_at_spawn_limit
    (t : SpawnAgentTool (MultiAgentServer (W := W) (Agent := Agent)))
    (s : MultiAgentServer) (params : gmap string GoValue) (elapsed : Z) :
  handler t = Some s → registry s = true → parentSession t ≠ "" →
  ¬ invalidAgentID params →
  (maxSpawnsPerParent ≤ countSpawnedAgentsByParent s (parentSession t))%nat →
  ∃ s',
    Execute t params elapsed
    = (failure "SPAWN_FAILED"
         ("Failed to spawn agent: spawn limit reached: parent has "
          ++ pretty (countSpawnedAgentsByParent s (parentSession t))
          ++ " spawned agents (max: 10)")
         "Check if agent config exists and server has capacity" true elapsed,
       None, withHandler s' t)
    ∧ spawnedAgents s' = spawnedAgents s ∧ world s' = world s
    ∧ canceled s' = canceled s ∧ monitors s' = monitors s.
Proof.
  intros Hh Hreg Hparent Hok Hfull. unfold Execute. rewrite Hh.
  destruct (asString (params !! "agent_id")) as [agentID|] eqn:Hid;
    [|destruct Hok; by left].
  destruct (String.eqb_spec agentID "") as [->|Hne]; [destruct Hok; by right|].
  match goal with
  | |- context [handler_SpawnSubAgent s (Some ?r)] =>
      set (req := r); destruct (handler_SpawnSubAgent s (Some req)) as [[e|resp] s'] eqn:Hcall
  end; change (handler_SpawnSubAgent s (Some req)) with (SpawnSubAgent s (Some req)) in Hcall.
  2:{ apply SpawnSubAgent_ok_valid in Hcall as (_ & _ & _ & Hcount & _).
      change (ParentSessionID req) with (parentSession t) in Hcount. lia. }
  exists s'.
  pose proof (SpawnSubAgent_error_frame _ _ _ _ Hcall) as ((Htab & _) & _ & Hcan & Hmon).
  assert (He : e = ErrSpawnLimit (countSpawnedAgentsByParent s (parentSession t))
                     maxSpawnsPerParent ∧ world s' = world s).
  { unfold SpawnSubAgent, createSubSession in Hcall. cbn [ParentSessionID AgentID req] in Hcall.
    destruct (String.eqb_spec (parentSession t) ""); [done|].
    destruct (String.eqb_spec agentID ""); [done|].
    rewrite Hreg in Hcall. cbn [negb] in Hcall.
    assert (Hcnt : ∀ lvl m fs,
              countSpawnedAgentsByParent (logTo lvl m fs s) (parentSession t)
              = countSpawnedAgentsByParent s (parentSession t)).
    { intros. unfold countSpawnedAgentsByParent. by rewrite logTo_spawnedAgents. }
    rewrite !Hcnt, bool_decide_eq_true_2 in Hcall by done.
    injection Hcall as <- <-. by rewrite logTo_world. }
  destruct He as [-> Hworld]. done.
Qed.

End ToolOnServer.

(** The tool of a parent whose ten children are tracked. *)
Definition simToolFull : SpawnAgentTool (MultiAgentServer (W := SimWorld) (Agent := string)) :=
  NewSpawnAgentTool (Some simServerFull) "parent-1" "dungeon-master".

Definition fighterParams : gmap string GoValue :=
  {[ "agent_id" := VString "fighter";
     "workflow_id" := VString "dungeon-crawl";
     "auto_subscribe" := VSlice [VString "party-chat"; VBool true; VString "closed-topic"] ]}.

Lemma fighterParams_valid : ¬ invalidAgentID fighterParams.
Proof. intros [Hbad|Hbad]; vm_compute in Hbad; discriminate Hbad. Qed.

Lemma Execute_forwards_request_witness :
  ∃ req, ParentSessionID req = "parent-1" ∧ ParentAgentID req = "dungeon-master"
       ∧ fighterParams !! "agent_id" = Some (VString (AgentID req)).
Proof.
  destruct (Execute_forwards_request simTool simServer0 fighterParams 3 eq_refl
              fighterParams_valid) as (req & _ & _ & Hsession & Hagent & Hid & _).
  exists req. split; [exact Hsession|]. split; [exact Hagent|exact Hid].
Defined.

Lemma tool_success_tracks_child_witness :
  ∃ (s' : MultiAgentServer (W := SimWorld) (Agent := string)) sp sessionID,
    spawnedAgents s' !! sessionID = Some sp ∧ parentSessionID sp = "parent-1".
Proof.
  destruct (tool_success_tracks_child simTool (Execute simTool fighterParams 3).2
              simServer0 fighterParams 3 (Execute simTool fighterParams 3).1.1 None eq_refl)
    as (s' & sp & m & sessionID & _ & _ & _ & _ & _ & _ & _ & _ & Hl & Hp & _).
  - vm_compute. reflexivity.
  - vm_compute. reflexivity.
  - exists s', sp, sessionID. split; [exact Hl|exact Hp].
Defined.

Lemma tool_refuses_at_spawn_limit_witness :
  ∃ s', (Execute simToolFull fighterParams 3).2 = withHandler s' simToolFull
      ∧ spawnedAgents s' = spawnedAgents simServerFull.
Proof.
  destruct (tool_refuses_at_spawn_limit simToolFull simServerFull fighterParams 3 eq_refl)
    as (s' & Hexec & Htab & _).
  - vm_compute. reflexivity.
  - discriminate.
  - exact fighterParams_valid.
  - vm_compute. lia.
  - exists s'. split; [|exact Htab]. rewrite Hexec. reflexivity.
Defined.

Lemma Execute_errors_structured_witness :
  (None : option string) = None
  ∧ Success (invalidResult 3) = false
  ∧ simTool = simTool.
Proof.
  destruct (Execute_errors_structured simTool simTool {[ "agent_id" := VString "" ]} 3
              (invalidResult 3) None) as (Hnil & _ & Hinvalid & _).
  - vm_compute. reflexivity.
  - split; [exact Hnil|]. apply Hinvalid. right. vm_compute. reflexivity.
Defined.

End SpawnTool.

(** ** The data directory (package config) *)

Module Paths.
Import GoStrings.

(** *** Go's [path/filepath] and [os] on Unix, as far as [paths.go] uses them *)

(** The path elements between slashes; [cur] is the element being read. *)
Fixpoint splitSlashFrom (cur : string) (path : string) : list string :=
  match path with
  | EmptyString => [cur]
  | String c rest =>
      if Ascii.eqb c "/"%char then cur :: splitSlashFrom "" rest
      else splitSlashFrom (cur ++ String c "") rest
  end.

Definition splitSlash (path : string) : list string := splitSlashFrom "" path.

(** One element of [Clean]'s scan; [out] holds the elements written so far,
    last one first.  An empty element and [.] are dropped; [..] removes the
    element before it, is dropped at the root, and is kept at the start of a
    relative path. *)
Definition cleanElement (rooted : bool) (out : list string) (elem : string) : list string :=
  if String.eqb elem "" || String.eqb elem "." then out
  else if String.eqb elem ".." then
    match out with
    | top :: below =>
        if String.eqb top ".." then elem :: out else below
    | [] => if rooted then [] else [elem]
    end
  else elem :: out.

Definition IsAbs (path : string) : bool := HasPrefix path "/".

Definition Clean (path : string) : string :=
  if String.eqb path "" then "."
  else
    let rooted := IsAbs path in
    let out := foldl (cleanElement rooted) [] (splitSlash path) in
    let body := String.concat "/" (reverse out) in
    if rooted then "/" ++ body
    else if String.eqb body "" then "." else body.

(** [filepath.Join]: leading empty elements are skipped, the rest is joined
    with slashes and cleaned. *)
Fixpoint Join (elem : list string) : string :=
  match elem with
  | [] => ""
  | e :: rest =>
      if String.eqb e "" then Join rest else Clean (String.concat "/" elem)
  end.

(** The process environment: its variables and its working directory
    ([os.Getwd] can fail). *)
Record OSEnv := {
  environ : gmap string string;
  workingDir : option string
}.

(** [os.Getenv]: the empty string for a variable that is not set. *)
Definition Getenv (env : OSEnv) (key : string) : string :=
  default "" (environ env !! key).

(** [os.UserHomeDir] on Unix: [$HOME], an error when it is empty. *)
Definition UserHomeDir (env : OSEnv) : option string :=
  if String.eqb (Getenv env "HOME") "" then None else Some (Getenv env "HOME").

(** [filepath.Abs] *)
Definition Abs (env : OSEnv) (path : string) : option string :=
  if IsAbs path then Some (Clean path)
  else match workingDir env with
       | Some wd => Some (Join [wd; path])
       | None => None
       end.

(** *** [paths.go] *)

Definition expandPath (env : OSEnv) (path : string) : string :=
  if HasPrefix path "~/" then
    match UserHomeDir env with
    | None => path
    | Some homeDir => Join [homeDir; slice_from path 2]
    end
  else
    match Abs env path with
    | None => path
    | Some absPath => absPath
    end.

Definition GetLoomDataDir (env : OSEnv) : string :=
  let dataDir := Getenv env "LOOM_DATA_DIR" in
  if negb (String.eqb dataDir "") then expandPath env dataDir
  else
    match UserHomeDir env with
    | None => ".loom"
    | Some homeDir => Join [homeDir; ".loom"]
    end.

Definition GetLoomSubDir (env : OSEnv) (subdir : string) : string :=
  Join [GetLoomDataDir env; subdir].

(** *** Examples *)

Definition userEnv (vars : list (string * string)) : OSEnv :=
  {| environ := list_to_map (("HOME", "/home/user") :: vars);
     workingDir := Some "/current/dir" |}.

Definition homelessEnv (vars : list (string * string)) : OSEnv :=
  {| environ := list_to_map vars; workingDir := Some "/current/dir" |}.

(** Cases of the table Go's own test of [Clean] runs through, and a path
    with a tilde. *)
Example Clean_examples :
  Clean <$>
       ["abc"; "abc/def"; "."; ".."; "../.."; "../../abc"; "/abc"; "/"; ""; "abc/";
       "abc/def/"; "./"; "../"; "../../"; "/abc/"; "abc//def//ghi"; "//abc"; "///abc";
       "//abc//"; "abc//"; "abc/./def"; "/./abc/def"; "abc/."; "abc/def/ghi/../jkl";
       "abc/def/../ghi/../jkl"; "abc/def/.."; "abc/def/../.."; "/abc/def/../..";
       "abc/def/../../.."; "/abc/def/../../..";
       "abc/def/../../../ghi/jkl/../../../mno"; "/../abc"; "abc/./../def";
       "abc//./../def"; "abc/../../././../def"; "~/x"]
  =
       ["abc"; "abc/def"; "."; ".."; "../.."; "../../abc"; "/abc"; "/"; "."; "abc";
       "abc/def"; "."; ".."; "../.."; "/abc"; "abc/def/ghi"; "/abc"; "/abc"; "/abc";
       "abc"; "abc/def"; "/abc/def"; "abc"; "abc/def/jkl"; "abc/jkl"; "abc"; "."; "/";
       ".."; "/"; "../../mno"; "/abc"; "def"; "def"; "../../def"; "~/x"].
Proof. vm_compute. reflexivity. Qed.

Example Join_examples :
  Join ["/home/user"; ".loom"] = "/home/user/.loom" ∧ Join [""; ".loom"] = ".loom"
  ∧ Join ["/home/user"; ""] = "/home/user" ∧ Join [""; ""] = "".
Proof. vm_compute. done. Qed.

(** The examples of the documentation of [GetLoomDataDir]. *)
Example GetLoomDataDir_documented :
  GetLoomDataDir (userEnv [("LOOM_DATA_DIR", "/custom/loom")]) = "/custom/loom"
  ∧ GetLoomDataDir (userEnv [("LOOM_DATA_DIR", "~/my-loom")]) = "/home/user/my-loom"
  ∧ GetLoomDataDir (userEnv [("LOOM_DATA_DIR", "relative/path")])
    = "/current/dir/relative/path"
  ∧ GetLoomDataDir (userEnv []) = "/home/user/.loom"
  ∧ GetLoomDataDir (userEnv [("LOOM_DATA_DIR", "")]) = "/home/user/.loom".
Proof. vm_compute. done. Qed.

Example GetLoomDataDir_bare_tilde :
  GetLoomDataDir (userEnv [("LOOM_DATA_DIR", "~")]) = "/current/dir/~".
Proof. vm_compute. reflexivity. Qed.

(** *** Absolute results *)

#[local] Arguments Join : simpl never.
#[local] Arguments Clean : simpl never.

Lemma prefix_cons (c d : ascii) (pre s : string) :
  String.prefix (String c pre) (String d s)
  = if ascii_dec c d then String.prefix pre s else false.
Proof. reflexivity. Qed.

Lemma IsAbs_cons (path : string) :
  IsAbs path = true ↔ ∃ rest, path = String "/"%char rest.
Proof.
  unfold IsAbs, HasPrefix. destruct path as [|c rest].
  - split; [done|]. by intros [? ?].
  - rewrite prefix_cons. destruct (ascii_dec "/"%char c) as [<-|Hne].
    + split; [intros _; by eexists | intros _; by destruct rest].
    + split; [done|]. intros [? [= ? ?]]. by subst.
Qed.

Lemma IsAbs_Clean (path : string) : IsAbs path = true → IsAbs (Clean path) = true.
Proof.
  intros Habs. unfold Clean. rewrite Habs.
  apply IsAbs_cons in Habs as [rest ->]. simpl. apply IsAbs_cons. by eexists.
Qed.

Lemma IsAbs_Join (first : string) (others : list string) :
  IsAbs first = true → IsAbs (Join (first :: others)) = true.
Proof.
  intros Habs. pose proof Habs as [rest ->]%IsAbs_cons.
  cbn [Join]. replace (String.eqb (String "/"%char rest) "") with false by done.
  apply IsAbs_Clean, IsAbs_cons.
  destruct others as [|o os]; simpl; by eexists.
Qed.

Lemma substring_all (s : string) : String.substring 0 (String.length s) s = s.
Proof. induction s as [|c s IH]; simpl; [done|]. by rewrite IH. Qed.

Lemma slice_from_tilde (rest : string) : slice_from ("~/" ++ rest) 2 = rest.
Proof.
  unfold slice_from. simpl. rewrite Nat.sub_0_r. apply substring_all.
Qed.

(** C7, as stated, fails when the home directory cannot be determined:
    with [HOME] unset, the value [~/my-loom] is returned as it is, with its
    tilde and relative, and with [LOOM_DATA_DIR] unset as well the result is
    the relative path [.loom]. *)
Lemma GetLoomDataDir_without_home :
  Getenv (homelessEnv [("LOOM_DATA_DIR", "~/my-loom")]) "LOOM_DATA_DIR" = "~/my-loom"
  ∧ GetLoomDataDir (homelessEnv [("LOOM_DATA_DIR", "~/my-loom")]) = "~/my-loom"
  ∧ HasPrefix (GetLoomDataDir (homelessEnv [("LOOM_DATA_DIR", "~/my-loom")])) "~" = true
  ∧ IsAbs (GetLoomDataDir (homelessEnv [("LOOM_DATA_DIR", "~/my-loom")])) = false
  ∧ Getenv (homelessEnv []) "LOOM_DATA_DIR" = ""
  ∧ GetLoomDataDir (homelessEnv []) = ".loom".
Proof. vm_compute. done. Qed.

(** C7 (amended): with [LOOM_DATA_DIR] unset or empty the result is the home
    directory joined with [.loom], or [.loom] when the home directory cannot
    be determined.  With a value that starts with [~/] it is the home
    directory joined with the rest of the value, or the value as it is when
    the home directory cannot be determined.  With a non-empty value that
    does not start with a tilde it is the cleaned value when that is
    absolute; when it is relative it is the working directory joined with the
    value, or the value as it is when the working directory cannot be
    determined.  Whenever the home directory and the working directory are
    known and absolute, the result is absolute. *)
Theorem GetLoomDataDir_spec (env : OSEnv) (dataDir : string) :
  Getenv env "LOOM_DATA_DIR" = dataDir →
  (dataDir = "" →
   GetLoomDataDir env = match UserHomeDir env with
                        | Some homeDir => Join [homeDir; ".loom"]
                        | None => ".loom"
                        end)
  ∧ (∀ rest,
       dataDir = "~/" ++ rest →
       GetLoomDataDir env = match UserHomeDir env with
                            | Some homeDir => Join [homeDir; rest]
                            | None => dataDir
                            end)
  ∧ (dataDir ≠ "" → HasPrefix dataDir "~" = false → IsAbs dataDir = true →
     GetLoomDataDir env = Clean dataDir)
  ∧ (dataDir ≠ "" → HasPrefix dataDir "~" = false → IsAbs dataDir = false →
     GetLoomDataDir env = match workingDir env with
                          | Some wd => Join [wd; dataDir]
                          | None => dataDir
                          end)
  ∧ (∀ homeDir wd,
       UserHomeDir env = Some homeDir → IsAbs homeDir = true →
       workingDir env = Some wd → IsAbs wd = true →
       IsAbs (GetLoomDataDir env) = true).
Proof.
  intros Henv. unfold GetLoomDataDir. rewrite Henv.
  assert (Hplain : HasPrefix dataDir "~" = false → HasPrefix dataDir "~/" = false).
  { unfold HasPrefix. destruct dataDir as [|c rest]; [done|].
    rewrite !prefix_cons. destruct (ascii_dec "~"%char c); [|done].
    destruct rest; simpl; discriminate. }
  repeat split.
  - by intros ->.
  - intros rest ->. simpl. unfold expandPath.
    replace (HasPrefix ("~/" ++ rest) "~/") with true by (by destruct rest).
    destruct (UserHomeDir env); [|done]. by rewrite slice_from_tilde.
  - intros Hne Htilde Habs. destruct (String.eqb_spec dataDir ""); [done|]. simpl.
    unfold expandPath, Abs. by rewrite (Hplain Htilde), Habs.
  - intros Hne Htilde Hrel. destruct (String.eqb_spec dataDir ""); [done|]. simpl.
    unfold expandPath, Abs. rewrite (Hplain Htilde), Hrel.
    by destruct (workingDir env).
  - intros homeDir wd Hhome Hhabs Hwd Hwabs.
    destruct (String.eqb_spec dataDir ""); simpl.
    + rewrite Hhome. by apply IsAbs_Join.
    + unfold expandPath, Abs. rewrite Hhome, Hwd.
      destruct (HasPrefix dataDir "~/"); [by apply IsAbs_Join|].
      destruct (IsAbs dataDir) eqn:Habs; [by apply IsAbs_Clean | by apply IsAbs_Join].
Qed.

Lemma GetLoomDataDir_spec_witness :
  GetLoomDataDir (userEnv [("LOOM_DATA_DIR", "~/my-loom")])
  = match UserHomeDir (userEnv [("LOOM_DATA_DIR", "~/my-loom")]) with
    | Some homeDir => Join [homeDir; "my-loom"]
    | None => "~/my-loom"
    end
  ∧ IsAbs (GetLoomDataDir (userEnv [("LOOM_DATA_DIR", "~/my-loom")])) = true.
Proof.
  destruct (GetLoomDataDir_spec (userEnv [("LOOM_DATA_DIR", "~/my-loom")]) "~/my-loom")
    as (_ & Htilde & _ & _ & Habs).
  - reflexivity.
  - split.
    + apply Htilde; reflexivity.
    + apply (Habs "/home/user" "/current/dir"); reflexivity.
Defined.

(** *** The data directory and its subdirectories *)

Lemma Clean_nonempty (path : string) : Clean path ≠ "".
Proof.
  unfold Clean. destruct (String.eqb path ""); [done|].
  destruct (IsAbs path); [by rewrite str_app_cons|].
  by destruct (String.eqb_spec (String.concat "/" (reverse
       (foldl (cleanElement false) [] (splitSlash path)))) "").
Qed.

Lemma Join_cons (first : string) (others : list string) :
  first ≠ "" → Join (first :: others) = Clean (String.concat "/" (first :: others)).
Proof.
  intros Hne.
  change (Join (first :: others))
    with (if String.eqb first "" then Join others
          else Clean (String.concat "/" (first :: others))).
  by destruct (String.eqb_spec first "").
Qed.

Lemma Join_nonempty (first second : string) :
  first ≠ "" ∨ second ≠ "" → Join [first; second] ≠ "".
Proof.
  intros Hne.
  destruct (String.eqb_spec first "") as [->|Hfirst];
    [|rewrite Join_cons by done; apply Clean_nonempty].
  change (Join [""; second]) with (Join [second]).
  destruct (String.eqb_spec second "") as [->|Hsecond]; [by destruct Hne|].
  rewrite Join_cons by done. apply Clean_nonempty.
Qed.

Lemma UserHomeDir_nonempty (env : OSEnv) (homeDir : string) :
  UserHomeDir env = Some homeDir → homeDir ≠ "".
Proof.
  unfold UserHomeDir. destruct (String.eqb_spec (Getenv env "HOME") ""); [done|].
  by intros [= <-].
Qed.

Lemma GetLoomDataDir_IsAbs (env : OSEnv) (homeDir wd : string) :
  UserHomeDir env = Some homeDir → IsAbs homeDir = true →
  workingDir env = Some wd → IsAbs wd = true →
  IsAbs (GetLoomDataDir env) = true.
Proof.
  intros Hhome Hhabs Hwd Hwabs. unfold GetLoomDataDir.
  destruct (String.eqb (Getenv env "LOOM_DATA_DIR") ""); simpl.
  - rewrite Hhome. by apply IsAbs_Join.
  - unfold expandPath, Abs. rewrite Hhome, Hwd.
    destruct (HasPrefix _ "~/"); [by apply IsAbs_Join|].
    destruct (IsAbs (Getenv env "LOOM_DATA_DIR")) eqn:Habs;
      [by apply IsAbs_Clean | by apply IsAbs_Join].
Qed.

Lemma GetLoomDataDir_nonempty (env : OSEnv) : GetLoomDataDir env ≠ "".
Proof.
  unfold GetLoomDataDir.
  destruct (String.eqb_spec (Getenv env "LOOM_DATA_DIR") "") as [_|Hdir]; simpl.
  - destruct (UserHomeDir env) as [homeDir|] eqn:Hhome; [|done].
    apply Join_nonempty. by right.
  - unfold expandPath, Abs.
    destruct (HasPrefix _ "~/").
    + destruct (UserHomeDir env) as [homeDir|] eqn:Hhome; [|done].
      apply Join_nonempty. left. by eapply UserHomeDir_nonempty.
    + destruct (IsAbs _); [apply Clean_nonempty|].
      destruct (workingDir env); [|done]. apply Join_nonempty. by right.
Qed.

Lemma GetLoomSubDir_Clean (env : OSEnv) (subdir : string) :
  GetLoomSubDir env subdir = Clean (GetLoomDataDir env ++ "/" ++ subdir).
Proof.
  unfold GetLoomSubDir. rewrite Join_cons; [done|apply GetLoomDataDir_nonempty].
Qed.

(** [GetLoomDataDir] never returns the empty string, so [GetLoomSubDir] is
    the cleaned path of the data directory, a slash and the subdirectory,
    whatever the subdirectory is; and it is absolute whenever the home
    directory and the working directory are known and absolute. *)
Theorem GetLoomSubDir_spec (env : OSEnv) (subdir : string) :
  GetLoomDataDir env ≠ ""
  ∧ GetLoomSubDir env subdir ≠ ""
  ∧ GetLoomSubDir env subdir = Clean (GetLoomDataDir env ++ "/" ++ subdir)
  ∧ (∀ homeDir wd,
       UserHomeDir env = Some homeDir → IsAbs homeDir = true →
       workingDir env = Some wd → IsAbs wd = true →
       IsAbs (GetLoomSubDir env subdir) = true).
Proof.
  split; [apply GetLoomDataDir_nonempty|].
  split; [rewrite GetLoomSubDir_Clean; apply Clean_nonempty|].
  split; [apply GetLoomSubDir_Clean|].
  intros homeDir wd Hhome Hhabs Hwd Hwabs. unfold GetLoomSubDir.
  apply IsAbs_Join. by eapply GetLoomDataDir_IsAbs.
Qed.

(** *** Subdirectories *)

Lemma str_app_nil_r (a : string) : a ++ "" = a.
Proof. induction a as [|x a IH]; [done|]. by rewrite str_app_cons, IH. Qed.

Lemma Contains_char_nil (c : ascii) : Contains "" (String c "") = false.
Proof. reflexivity. Qed.

Lemma Contains_char_app (c : ascii) (a b : string) :
  Contains (a ++ b) (String c "") = false
  ↔ Contains a (String c "") = false ∧ Contains b (String c "") = false.
Proof.
  induction a as [|x a IH].
  - rewrite str_app_nil_l. split; [done|]. by intros [_ ?].
  - rewrite str_app_cons, !Contains_cons, IH. tauto.
Qed.

(** A path element that [Clean] keeps as it is. *)
Definition plainElement (e : string) : Prop :=
  e ≠ "" ∧ e ≠ "." ∧ e ≠ ".." ∧ Contains e "/" = false.

Lemma splitSlashFrom_cons (cur : string) (c : ascii) (rest : string) :
  splitSlashFrom cur (String c rest)
  = if Ascii.eqb c "/"%char then cur :: splitSlashFrom "" rest
    else splitSlashFrom (cur ++ String c "") rest.
Proof. reflexivity. Qed.

Lemma splitSlashFrom_element (cur e rest : string) :
  Contains e "/" = false →
  splitSlashFrom cur (e ++ String "/"%char rest) = (cur ++ e) :: splitSlashFrom "" rest.
Proof.
  revert cur. induction e as [|c e IH]; intros cur Hfree.
  - by rewrite str_app_nil_l, str_app_nil_r.
  - apply Contains_cons in Hfree as [Hc Hfree].
    rewrite str_app_cons, splitSlashFrom_cons.
    destruct (Ascii.eqb_spec c "/"%char); [done|].
    rewrite (IH _ Hfree), str_app_assoc. done.
Qed.

Lemma splitSlashFrom_last (cur e : string) :
  Contains e "/" = false → splitSlashFrom cur e = [cur ++ e].
Proof.
  revert cur. induction e as [|c e IH]; intros cur Hfree.
  - by rewrite str_app_nil_r.
  - apply Contains_cons in Hfree as [Hc Hfree].
    rewrite splitSlashFrom_cons.
    destruct (Ascii.eqb_spec c "/"%char); [done|].
    rewrite (IH _ Hfree), str_app_assoc. done.
Qed.

Lemma splitSlashFrom_free (cur path : string) :
  Contains cur "/" = false →
  Forall (λ e, Contains e "/" = false) (splitSlashFrom cur path).
Proof.
  revert cur. induction path as [|c path IH]; intros cur Hcur.
  - by constructor.
  - rewrite splitSlashFrom_cons. destruct (Ascii.eqb_spec c "/"%char) as [->|Hc].
    + constructor; [done|]. by apply IH.
    + apply IH. apply Contains_char_app. split; [done|].
      apply Contains_cons. done.
Qed.

Lemma concat_cons2 (sep x y : string) (l : list string) :
  String.concat sep (x :: y :: l) = x ++ sep ++ String.concat sep (y :: l).
Proof. reflexivity. Qed.

Lemma splitSlash_joined (es : list string) (sub : string) :
  Forall (λ e, Contains e "/" = false) es → Contains sub "/" = false →
  splitSlashFrom "" (String.concat "/" es ++ String "/"%char sub)
  = ((if es is [] then [""] else es) ++ [sub])%list.
Proof.
  intros Hes Hsub. induction Hes as [|e es He Hes IH].
  - change (String.concat "/" []) with "".
    by rewrite (splitSlashFrom_element "" "" sub), (splitSlashFrom_last "" sub).
  - destruct es as [|e2 es].
    + change (String.concat "/" [e]) with e.
      by rewrite (splitSlashFrom_element "" e sub), (splitSlashFrom_last "" sub).
    + rewrite concat_cons2, !str_app_assoc.
      change ("/" ++ String.concat "/" (e2 :: es) ++ String "/"%char sub)
        with (String "/"%char (String.concat "/" (e2 :: es) ++ String "/"%char sub)).
      rewrite (splitSlashFrom_element "" e _ He), IH. done.
Qed.

Lemma concat_snoc (es : list string) (sub : string) :
  String.concat "/" (es ++ [sub])
  = if es is [] then sub else String.concat "/" es ++ "/" ++ sub.
Proof.
  induction es as [|e es IH]; [done|].
  destruct es as [|e2 es]; [done|].
  rewrite <- !app_comm_cons, concat_cons2. rewrite <- !app_comm_cons in IH.
  by rewrite IH, concat_cons2, !str_app_assoc.
Qed.

Lemma cleanElement_plain (out : list string) (e : string) :
  plainElement e → cleanElement true out e = e :: out.
Proof.
  intros (H1 & H2 & H3 & _). unfold cleanElement.
  destruct (String.eqb_spec e ""); [done|]. destruct (String.eqb_spec e "."); [done|].
  by destruct (String.eqb_spec e "..").
Qed.

Lemma cleanElement_rooted_keeps (out : list string) (e : string) :
  Forall plainElement out → Contains e "/" = false →
  Forall plainElement (cleanElement true out e).
Proof.
  intros Hout He. unfold cleanElement.
  destruct (String.eqb_spec e ""); [done|]. destruct (String.eqb_spec e "."); [done|].
  simpl. destruct (String.eqb_spec e "..").
  - destruct Hout as [|top below (_ & _ & Htop & _) Hbelow]; [done|].
    by destruct (String.eqb_spec top "..").
  - by constructor.
Qed.

Lemma foldl_cleanElement_keeps (out : list string) (es : list string) :
  Forall plainElement out → Forall (λ e, Contains e "/" = false) es →
  Forall plainElement (foldl (cleanElement true) out es).
Proof.
  intros Hout Hes. revert out Hout.
  induction Hes as [|e es He Hes IH]; intros out Hout; simpl; [done|].
  by apply IH, cleanElement_rooted_keeps.
Qed.

Lemma foldl_cleanElement_plain (out : list string) (es : list string) :
  Forall plainElement es → foldl (cleanElement true) out es = (reverse es ++ out)%list.
Proof.
  intros Hes. revert out. induction Hes as [|e es He Hes IH]; intros out; simpl; [done|].
  by rewrite cleanElement_plain, IH, reverse_cons, <- app_assoc.
Qed.

Lemma str_slash_app (a : string) : "/" ++ a = String "/"%char a.
Proof. reflexivity. Qed.

(** [Clean] on an absolute path. *)
Lemma Clean_abs (rest : string) :
  Clean (String "/"%char rest)
  = String "/"%char (String.concat "/"
      (reverse (foldl (cleanElement true) [] (splitSlashFrom "" rest)))).
Proof.
  unfold Clean, IsAbs, HasPrefix.
  change (String.eqb (String "/"%char rest) "") with false. cbv iota.
  rewrite prefix_cons. destruct (ascii_dec "/"%char "/"%char); [|done].
  rewrite str_prefix_nil. cbv iota.
  unfold splitSlash. rewrite splitSlashFrom_cons.
  change (Ascii.eqb "/"%char "/"%char) with true. cbv iota.
  cbn [foldl]. change (cleanElement true [] "") with (@nil string).
  apply str_slash_app.
Qed.

(** The elements of a cleaned absolute path. *)
Lemma Clean_rooted (path : string) :
  IsAbs path = true →
  ∃ es, Forall plainElement es ∧ Clean path = String "/"%char (String.concat "/" es).
Proof.
  intros [rest ->]%IsAbs_cons. rewrite Clean_abs.
  eexists. split; [|done].
  apply Forall_reverse, foldl_cleanElement_keeps; [done|].
  by apply splitSlashFrom_free.
Qed.

Lemma Clean_rooted_sub (es : list string) (sub : string) :
  Forall plainElement es → plainElement sub →
  Clean (String "/"%char (String.concat "/" es ++ String "/"%char sub))
  = String "/"%char (String.concat "/" (es ++ [sub])).
Proof.
  intros Hes Hsub. pose proof Hsub as (_ & _ & _ & Hfree).
  assert (Hfrees : Forall (λ e, Contains e "/" = false) es).
  { eapply Forall_impl; [done|]. by intros e (_ & _ & _ & ?). }
  rewrite Clean_abs, splitSlash_joined by done. do 2 f_equal.
  destruct es as [|e es].
  - cbn [app foldl]. change (cleanElement true [] "") with (@nil string).
    by rewrite cleanElement_plain.
  - rewrite foldl_cleanElement_plain, app_nil_r, reverse_involutive; [done|].
    apply Forall_app. split; [done|]. by constructor.
Qed.

Lemma concat_nonempty (e : string) (es : list string) :
  e ≠ "" → String.concat "/" (e :: es) ≠ "".
Proof.
  intros He. destruct es as [|e2 es]; [done|].
  rewrite concat_cons2. destruct e; [done|]. by rewrite str_app_cons.
Qed.

(** Under a cleaned absolute directory, a plain element is appended after a
    slash (the root has its slash already). *)
Lemma Clean_sub (path sub : string) :
  IsAbs path = true → plainElement sub →
  Clean (Clean path ++ "/" ++ sub)
  = if String.eqb (Clean path) "/" then "/" ++ sub else Clean path ++ "/" ++ sub.
Proof.
  intros Habs Hsub. destruct (Clean_rooted path Habs) as (es & Hes & ->).
  rewrite !str_slash_app, !str_app_cons, Clean_rooted_sub, concat_snoc by done.
  destruct Hes as [|e es (He & _) Hes]; [done|].
  replace (String.eqb (String "/"%char (String.concat "/" (e :: es))) "/") with false;
    [by rewrite str_slash_app|].
  symmetry. apply String.eqb_neq. intros Hroot.
  apply (concat_nonempty e es He). by injection Hroot.
Qed.

Lemma GetLoomDataDir_cleaned (env : OSEnv) (homeDir wd : string) :
  UserHomeDir env = Some homeDir → IsAbs homeDir = true →
  workingDir env = Some wd → IsAbs wd = true →
  ∃ path, IsAbs path = true ∧ GetLoomDataDir env = Clean path.
Proof.
  intros Hhome Hhabs Hwd Hwabs.
  assert (Hjoin : ∀ first second, IsAbs first = true →
            ∃ path, IsAbs path = true ∧ Join [first; second] = Clean path).
  { intros first second [rest ->]%IsAbs_cons. eexists. split; [|by apply Join_cons].
    apply IsAbs_cons. eexists. apply str_app_cons. }
  unfold GetLoomDataDir.
  destruct (String.eqb (Getenv env "LOOM_DATA_DIR") ""); simpl.
  - rewrite Hhome. by apply Hjoin.
  - unfold expandPath, Abs. rewrite Hhome, Hwd.
    destruct (HasPrefix _ "~/"); [by apply Hjoin|].
    destruct (IsAbs (Getenv env "LOOM_DATA_DIR")) eqn:Habs; [by eexists|by apply Hjoin].
Qed.

(** With a home directory and a working directory that are known and
    absolute, a plain subdirectory name (no slash, not empty, not [.] or
    [..]) is appended to the data directory after one slash. *)
Theorem GetLoomSubDir_plain (env : OSEnv) (subdir homeDir wd : string) :
  UserHomeDir env = Some homeDir → IsAbs homeDir = true →
  workingDir env = Some wd → IsAbs wd = true →
  plainElement subdir →
  GetLoomSubDir env subdir
  = if String.eqb (GetLoomDataDir env) "/" then "/" ++ subdir
    else GetLoomDataDir env ++ "/" ++ subdir.
Proof.
  intros Hhome Hhabs Hwd Hwabs Hsub.
  rewrite GetLoomSubDir_Clean.
  destruct (GetLoomDataDir_cleaned env homeDir wd Hhome Hhabs Hwd Hwabs) as (path & Habs & ->).
  by apply Clean_sub.
Qed.

Lemma GetLoomSubDir_plain_witness :
  GetLoomSubDir (userEnv []) "agents" = "/home/user/.loom/agents".
Proof.
  rewrite (GetLoomSubDir_plain (userEnv []) "agents" "/home/user" "/current/dir").
  - vm_compute. reflexivity.
  - reflexivity.
  - reflexivity.
  - reflexivity.
  - reflexivity.
  - unfold plainElement. split_and!; try discriminate. reflexivity.
Defined.

End Paths.

(** ** The LLM semaphore of the fork-join executor (package orchestration)

    The semaphore is a buffered channel: [make(chan struct{}, limit)], or nil
    when the orchestrator was built without one.  A branch is a goroutine;
    the executions of all branches interleave, one step of one branch at a
    time. *)

Module Semaphore.

(** How a branch leaves its body. *)
Inductive Exit := Succeeded | Failed | Canceled.

(** Modelled from the spec: the body of a fork-join branch.  The sources hold
    the executor only as the block quoted in SEMAPHORE-VERIFICATION.md (the
    nil test, the blocking send, the deferred receive); the chat call that
    follows the block is taken from section 4.2 of the specification.
    - [Launched]: the goroutine runs and has not reached the block;
    - [Acquiring]: "acquiring" is logged and the send is pending (it blocks
      while the channel is full);
    - [Calling holds]: the branch is past the block and its chat call is in
      flight; [holds] tells whether a release is deferred;
    - [Returned how]: the function returned and its deferred calls ran. *)
Inductive Branch :=
| Launched
| Acquiring
| Calling (holds : bool)
| Returned (how : Exit).

(** The debug log of the block. *)
Inductive Event :=
| EvAcquiring (branch : nat)
| EvAcquired (branch : nat)
| EvReleased (branch : nat).

(** [llmSemaphore] is the capacity of the channel (None for nil) and
    [slotsTaken] the number of elements it holds. *)
Record Orchestrator := {
  llmSemaphore : option nat;
  slotsTaken : nat;
  branches : list Branch;
  debugLog : list Event
}.

(** [llmConcurrencyLimit := 2] in cmd_workflow.go. *)
Definition llmConcurrencyLimit : nat := 2.

(** Go's [cap] of a channel: 0 for a nil channel. *)
Definition capacity (o : Orchestrator) : nat := default 0%nat (llmSemaphore o).

Definition forkJoin (semaphore : option nat) (n : nat) : Orchestrator :=
  {| llmSemaphore := semaphore; slotsTaken := 0;
     branches := replicate n Launched; debugLog := [] |}.

Definition update (i : nat) (b : Branch) (taken : nat) (evs : list Event)
    (o : Orchestrator) : Orchestrator :=
  {| llmSemaphore := llmSemaphore o; slotsTaken := taken;
     branches := <[i := b]> (branches o); debugLog := (debugLog o ++ evs)%list |}.

(** The next step of branch [i], if it can take one; [how] is the way its
    body ends when the step is the return. *)
Definition fire (i : nat) (how : Exit) (o : Orchestrator) : option Orchestrator :=
  match branches o !! i with
  | Some Launched =>
      match llmSemaphore o with
      | None => Some (update i (Calling false) (slotsTaken o) [] o)
      | Some _ => Some (update i Acquiring (slotsTaken o) [EvAcquiring (i + 1)] o)
      end
  | Some Acquiring =>
      match llmSemaphore o with
      | Some limit =>
          if bool_decide (slotsTaken o < limit)%nat then
            Some (update i (Calling true) (S (slotsTaken o)) [EvAcquired (i + 1)] o)
          else None
      | None => None
      end
  | Some (Calling true) =>
      Some (update i (Returned how) (slotsTaken o - 1) [EvReleased (i + 1)] o)
  | Some (Calling false) => Some (update i (Returned how) (slotsTaken o) [] o)
  | Some (Returned _) | None => None
  end.

Inductive step : Orchestrator → Orchestrator → Prop :=
| step_fire (i : nat) (how : Exit) (o o' : Orchestrator) :
    fire i how o = Some o' → step o o'.

(** A schedule names which branch moves next; a branch that cannot move is
    skipped. *)
Definition runSchedule (schedule : list (nat * Exit)) (o : Orchestrator) : Orchestrator :=
  foldl (λ o '(i, how), default o (fire i how o)) o schedule.

Fixpoint countIf {A : Type} (p : A → bool) (l : list A) : nat :=
  match l with
  | [] => 0
  | x :: rest => (if p x then 1 else 0) + countIf p rest
  end.

Definition isCalling (b : Branch) : bool :=
  match b with Calling _ => true | _ => false end.

Definition isHolder (b : Branch) : bool :=
  match b with Calling true => true | _ => false end.

Definition isUnthrottled (b : Branch) : bool :=
  match b with Calling false => true | _ => false end.

Definition isReturned (b : Branch) : bool :=
  match b with Returned _ => true | _ => false end.

(** The chat calls in flight. *)
Definition inFlight (o : Orchestrator) : nat := countIf isCalling (branches o).

Definition isAcquired (e : Event) : bool :=
  match e with EvAcquired _ => true | _ => false end.

Definition isReleased (e : Event) : bool :=
  match e with EvReleased _ => true | _ => false end.

(** Scenario of the specification: three branches and capacity 2. *)
Example third_branch_blocks :
  let o := runSchedule [(0, Succeeded); (1, Succeeded); (2, Succeeded);
                        (0, Succeeded); (2, Succeeded); (1, Succeeded)]%nat
             (forkJoin (Some llmConcurrencyLimit) 3) in
  branches o = [Calling true; Acquiring; Calling true]
  ∧ fire 1 Succeeded o = None
  ∧ branches (runSchedule [(2, Failed); (1, Succeeded)]%nat o)
    = [Calling true; Calling true; Returned Failed]
  ∧ debugLog (runSchedule [(2, Failed); (1, Succeeded)]%nat o)
    = [EvAcquiring 1; EvAcquiring 2; EvAcquiring 3; EvAcquired 1; EvAcquired 3;
       EvReleased 3; EvAcquired 2]%nat.
Proof. vm_compute. done. Qed.

(** *** Every executor on one orchestrator *)

(** Modelled from the spec: the pattern kinds of section 4.2.  Each has an
    executor of its own, none of which is in the sources; by sections 4.1 and
    4.2 all of them share the semaphore of the orchestrator, and every chat
    call of a branch goes through the block that the note quotes for
    fork-join. *)
Inductive Pattern := Pipeline | ForkJoin | Parallel | Debate | Conditional | Swarm.

(** One execution of a pattern: its branches are the positions
    [firstBranch .. firstBranch + width - 1] of the orchestrator. *)
Record Execution := {
  pattern : Pattern;
  firstBranch : nat;
  width : nat
}.

(** Modelled from the spec: the orchestrator with the executions that run on
    it at the same time. *)
Record Engine := {
  orchestrator : Orchestrator;
  executions : list Execution
}.

Definition start (semaphore : option nat) : Engine :=
  {| orchestrator := forkJoin semaphore 0; executions := [] |}.

(** An executor of any pattern starts [n] chat invocations.  The executors
    differ in when they do so (a pipeline starts its next stage after the
    last one returned, a fork-join starts all at once); the moves below allow
    every timing. *)
Definition launch (p : Pattern) (n : nat) (e : Engine) : Engine :=
  {| orchestrator :=
       {| llmSemaphore := llmSemaphore (orchestrator e);
          slotsTaken := slotsTaken (orchestrator e);
          branches := (branches (orchestrator e) ++ replicate n Launched)%list;
          debugLog := debugLog (orchestrator e) |};
     executions :=
       (executions e ++ [{| pattern := p;
                            firstBranch := length (branches (orchestrator e));
                            width := n |}])%list |}.

Definition onOrchestrator (o : Orchestrator) (e : Engine) : Engine :=
  {| orchestrator := o; executions := executions e |}.

Inductive EngineMove :=
| Launch (p : Pattern) (n : nat)
| Fire (i : nat) (how : Exit).

Definition engineMove (e : Engine) (m : EngineMove) : option Engine :=
  match m with
  | Launch p n => Some (launch p n e)
  | Fire i how => (λ o, onOrchestrator o e) <$> fire i how (orchestrator e)
  end.

Inductive engineStep : Engine → Engine → Prop :=
| engine_move (m : EngineMove) (e e' : Engine) :
    engineMove e m = Some e' → engineStep e e'.

(** A move that cannot be made is skipped. *)
Definition runEngine (moves : list EngineMove) (e : Engine) : Engine :=
  foldl (λ e m, default e (engineMove e m)) e moves.

(** The branches of [e] that belong to execution [ex]. *)
Definition branchOf (ex : Execution) (i : nat) : Prop :=
  (firstBranch ex ≤ i < firstBranch ex + width ex)%nat.

(** Two fork-joins, a pipeline stage and a swarm on one orchestrator of
    capacity 2. *)
Definition mixedRun : Engine :=
  runEngine [Launch ForkJoin 3; Launch Pipeline 1; Fire 0 Succeeded; Fire 3 Succeeded;
             Launch Swarm 2; Fire 4 Succeeded; Fire 0 Succeeded; Fire 3 Succeeded;
             Fire 4 Succeeded; Fire 1 Succeeded; Fire 0 Canceled; Fire 1 Succeeded;
             Launch ForkJoin 2; Fire 6 Succeeded; Fire 6 Succeeded]%nat
    (start (Some llmConcurrencyLimit)).

Example mixedRun_state :
  branches (orchestrator mixedRun)
  = [Returned Canceled; Calling true; Launched; Calling true; Acquiring; Launched;
     Acquiring; Launched]
  ∧ pattern <$> executions mixedRun = [ForkJoin; Pipeline; Swarm; ForkJoin]
  ∧ slotsTaken (orchestrator mixedRun) = 2%nat.
Proof. vm_compute. done. Qed.

(** *** Counting *)

Lemma countIf_app {A : Type} (p : A → bool) (l1 l2 : list A) :
  countIf p (l1 ++ l2)%list = (countIf p l1 + countIf p l2)%nat.
Proof. induction l1 as [|x l1 IH]; simpl; [done|]. rewrite IH. lia. Qed.

Lemma countIf_insert {A : Type} (p : A → bool) (l : list A) (i : nat) (x y : A) :
  l !! i = Some x →
  (countIf p (<[i := y]> l) + (if p x then 1 else 0)
   = countIf p l + (if p y then 1 else 0))%nat.
Proof.
  revert i. induction l as [|z l IH]; intros [|i] Hl; simplify_eq/=.
  - lia.
  - specialize (IH i Hl). lia.
Qed.

Lemma countIf_replicate_false {A : Type} (p : A → bool) (n : nat) (x : A) :
  p x = false → countIf p (replicate n x) = 0%nat.
Proof. intros Hp. induction n as [|n IH]; simpl; [done|]. by rewrite Hp, IH. Qed.

Lemma inFlight_split (bs : list Branch) :
  countIf isCalling bs = (countIf isHolder bs + countIf isUnthrottled bs)%nat.
Proof.
  induction bs as [|b bs IH]; simpl; [done|]. rewrite IH.
  destruct b as [| |[]|]; simpl; lia.
Qed.

Lemma countIf_zero_lookup {A : Type} (p : A → bool) (l : list A) (i : nat) (x : A) :
  countIf p l = 0%nat → l !! i = Some x → p x = false.
Proof.
  revert i. induction l as [|z l IH]; intros [|i] Hc Hl; simplify_eq/=.
  - destruct (p x); [lia|done].
  - apply (IH i); [|done]. destruct (p z); lia.
Qed.

(** *** The invariant of an orchestrator with a semaphore *)

Definition consistent (limit : nat) (o : Orchestrator) : Prop :=
  llmSemaphore o = Some limit
  ∧ slotsTaken o = countIf isHolder (branches o)
  ∧ (slotsTaken o ≤ limit)%nat
  ∧ countIf isUnthrottled (branches o) = 0%nat
  ∧ countIf isAcquired (debugLog o)
    = (slotsTaken o + countIf isReleased (debugLog o))%nat.

Lemma consistent_forkJoin (limit n : nat) : consistent limit (forkJoin (Some limit) n).
Proof.
  unfold consistent. simpl. rewrite !countIf_replicate_false by done.
  repeat split; lia.
Qed.

Lemma consistent_fire (limit i : nat) (how : Exit) (o o' : Orchestrator) :
  consistent limit o → fire i how o = Some o' → consistent limit o'.
Proof.
  intros (Hsem & Hheld & Hle & Hun & Hlog). unfold fire. rewrite Hsem.
  destruct (branches o !! i) as [b|] eqn:Hb; [|done].
  pose proof (countIf_insert isHolder (branches o) i b) as Hh.
  pose proof (countIf_insert isUnthrottled (branches o) i b) as Hu.
  destruct b as [| |[]|]; try done.
  - intros [= <-]. unfold consistent. simpl.
    specialize (Hh Acquiring Hb). specialize (Hu Acquiring Hb). simpl in *.
    rewrite !countIf_app. simpl. repeat split; [done|lia..].
  - case_bool_decide; [|done]. intros [= <-]. unfold consistent. simpl.
    specialize (Hh (Calling true) Hb). specialize (Hu (Calling true) Hb). simpl in *.
    rewrite !countIf_app. simpl. repeat split; [done|lia..].
  - intros [= <-]. unfold consistent. simpl.
    specialize (Hh (Returned how) Hb). specialize (Hu (Returned how) Hb). simpl in *.
    rewrite !countIf_app. simpl. repeat split; [done|lia..].
  - pose proof (countIf_zero_lookup isUnthrottled _ _ _ Hun Hb). done.
Qed.

Lemma consistent_reachable (limit : nat) (o o' : Orchestrator) :
  consistent limit o → rtc step o o' → consistent limit o'.
Proof.
  intros Ho Hsteps. induction Hsteps as [|o1 o2 o3 Hstep _ IH]; [done|].
  apply IH. destruct Hstep as [i how o1 o2 Hfire]. by eapply consistent_fire.
Qed.

Lemma runSchedule_reachable (schedule : list (nat * Exit)) (o : Orchestrator) :
  rtc step o (runSchedule schedule o).
Proof.
  unfold runSchedule. revert o.
  induction schedule as [|[i how] schedule IH]; intros o; simpl; [done|].
  destruct (fire i how o) as [o'|] eqn:Hfire; simpl; [|apply IH].
  eapply rtc_l; [by econstructor|apply IH].
Qed.

(** C6, as stated, fails for an orchestrator without a semaphore: the block
    is skipped when [llmSemaphore] is nil, so the three branches of a
    fork-join call the LLM at once, none of them holding a slot; three calls
    are in flight, more than the default limit 2 (and more than the capacity
    0 of a nil channel), and nothing is logged. *)
Lemma unthrottled_without_semaphore :
  rtc step (forkJoin None 3)
    (runSchedule [(0, Succeeded); (1, Succeeded); (2, Succeeded)]%nat (forkJoin None 3))
  ∧ branches (runSchedule [(0, Succeeded); (1, Succeeded); (2, Succeeded)]%nat
                (forkJoin None 3))
    = [Calling false; Calling false; Calling false]
  ∧ inFlight (runSchedule [(0, Succeeded); (1, Succeeded); (2, Succeeded)]%nat
                (forkJoin None 3)) = 3%nat
  ∧ slotsTaken (runSchedule [(0, Succeeded); (1, Succeeded); (2, Succeeded)]%nat
                  (forkJoin None 3)) = 0%nat
  ∧ (llmConcurrencyLimit
     < inFlight (runSchedule [(0, Succeeded); (1, Succeeded); (2, Succeeded)]%nat
                   (forkJoin None 3)))%nat
  ∧ (capacity (forkJoin None 3)
     < inFlight (runSchedule [(0, Succeeded); (1, Succeeded); (2, Succeeded)]%nat
                   (forkJoin None 3)))%nat.
Proof.
  split; [apply runSchedule_reachable|]. vm_compute. repeat split; lia.
Qed.

Lemma runEngine_reachable (moves : list EngineMove) (e : Engine) :
  rtc engineStep e (runEngine moves e).
Proof.
  unfold runEngine. revert e.
  induction moves as [|m moves IH]; intros e; simpl; [done|].
  destruct (engineMove e m) as [e'|] eqn:Hmove; simpl; [|apply IH].
  eapply rtc_l; [by econstructor|apply IH].
Qed.

(** The fork-join of [forkJoin] is the first execution on the engine. *)
Lemma launch_forkJoin (semaphore : option nat) (n : nat) :
  orchestrator (launch ForkJoin n (start semaphore)) = forkJoin semaphore n.
Proof. done. Qed.

Lemma step_engineStep (o o' : Orchestrator) (e : Engine) :
  step o o' → engineStep (onOrchestrator o e) (onOrchestrator o' e).
Proof.
  intros [i how o1 o2 Hfire]. apply (engine_move (Fire i how)).
  simpl. by rewrite Hfire.
Qed.

Lemma forkJoin_reachable (semaphore : option nat) (n : nat) (o : Orchestrator) :
  rtc step (forkJoin semaphore n) o →
  rtc engineStep (start semaphore)
    (onOrchestrator o (launch ForkJoin n (start semaphore))).
Proof.
  intros Hsteps. eapply rtc_l; [by apply (engine_move (Launch ForkJoin n))|].
  change (launch ForkJoin n (start semaphore))
    with (onOrchestrator (forkJoin semaphore n) (launch ForkJoin n (start semaphore))) at 1.
  induction Hsteps as [|o1 o2 o3 Hstep _ IH]; [done|].
  eapply rtc_l; [|exact IH]. by apply step_engineStep.
Qed.

Lemma consistent_launch (limit : nat) (p : Pattern) (n : nat) (e : Engine) :
  consistent limit (orchestrator e) → consistent limit (orchestrator (launch p n e)).
Proof.
  intros (Hsem & Hheld & Hle & Hun & Hlog). unfold consistent. simpl.
  rewrite !countIf_app, !countIf_replicate_false by done.
  split_and!; [done|lia|done|lia|done].
Qed.

Lemma consistent_engine (limit : nat) (e e' : Engine) :
  consistent limit (orchestrator e) → rtc engineStep e e' →
  consistent limit (orchestrator e').
Proof.
  intros He Hsteps. induction Hsteps as [|e1 e2 e3 Hstep _ IH]; [done|].
  apply IH. destruct Hstep as [[p n|i how] e1 e2 Hmove]; simpl in Hmove.
  - injection Hmove as <-. by apply consistent_launch.
  - destruct (fire i how (orchestrator e1)) as [o'|] eqn:Hfire; [|done].
    injection Hmove as <-. simpl. by eapply consistent_fire.
Qed.

(** *** The invariant of an orchestrator without a semaphore *)

Definition ungated (o : Orchestrator) : Prop :=
  llmSemaphore o = None
  ∧ slotsTaken o = 0%nat
  ∧ debugLog o = []
  ∧ countIf isHolder (branches o) = 0%nat.

Lemma ungated_fire (i : nat) (how : Exit) (o o' : Orchestrator) :
  ungated o → fire i how o = Some o' → ungated o'.
Proof.
  intros (Hsem & Hslots & Hlog & Hheld). unfold fire. rewrite Hsem.
  destruct (branches o !! i) as [b|] eqn:Hb; [|done].
  pose proof (countIf_insert isHolder (branches o) i b) as Hh.
  destruct b as [| |[]|]; try done.
  - intros [= <-]. unfold ungated. simpl.
    specialize (Hh (Calling false) Hb). simpl in *.
    rewrite Hlog. split_and!; [done|done|done|lia].
  - by pose proof (countIf_zero_lookup isHolder _ _ _ Hheld Hb).
  - intros [= <-]. unfold ungated. simpl.
    specialize (Hh (Returned how) Hb). simpl in *.
    rewrite Hlog. split_and!; [done|done|done|lia].
Qed.

Lemma ungated_engine (e e' : Engine) :
  ungated (orchestrator e) → rtc engineStep e e' → ungated (orchestrator e').
Proof.
  intros He Hsteps. induction Hsteps as [|e1 e2 e3 Hstep _ IH]; [done|].
  apply IH. destruct Hstep as [[p n|i how] e1 e2 Hmove]; simpl in Hmove.
  - injection Hmove as <-. destruct He as (Hsem & Hslots & Hlog & Hheld).
    unfold ungated. simpl. rewrite countIf_app, countIf_replicate_false by done.
    split_and!; [done|done|done|lia].
  - destruct (fire i how (orchestrator e1)) as [o'|] eqn:Hfire; [|done].
    injection Hmove as <-. simpl. by eapply ungated_fire.
Qed.

(** *** Every branch belongs to a pattern execution *)

Definition allOwned (e : Engine) : Prop :=
  ∀ i, (i < length (branches (orchestrator e)))%nat →
       ∃ ex, ex ∈ executions e ∧ branchOf ex i.

Lemma fire_length (i : nat) (how : Exit) (o o' : Orchestrator) :
  fire i how o = Some o' → length (branches o') = length (branches o).
Proof.
  unfold fire. destruct (branches o !! i) as [[| |[]|]|]; try done.
  - destruct (llmSemaphore o); intros [= <-]; simpl; apply length_insert.
  - destruct (llmSemaphore o); [|done]. case_bool_decide; [|done].
    intros [= <-]; simpl; apply length_insert.
  - intros [= <-]; simpl; apply length_insert.
  - intros [= <-]; simpl; apply length_insert.
Qed.

Lemma allOwned_engine (e e' : Engine) :
  allOwned e → rtc engineStep e e' → allOwned e'.
Proof.
  intros He Hsteps. induction Hsteps as [|e1 e2 e3 Hstep _ IH]; [done|].
  apply IH. destruct Hstep as [[p n|i how] e1 e2 Hmove]; simpl in Hmove.
  - injection Hmove as <-. intros i. simpl. rewrite length_app, length_replicate.
    intros Hi. destruct (decide (i < length (branches (orchestrator e1)))%nat) as [Hold|Hnew].
    + destruct (He i Hold) as (ex & Hex & Hrange). exists ex.
      split; [|done]. apply elem_of_app. by left.
    + eexists. split; [apply elem_of_app; right; apply list_elem_of_singleton; done|].
      unfold branchOf. simpl. lia.
  - destruct (fire i how (orchestrator e1)) as [o'|] eqn:Hfire; [|done].
    injection Hmove as <-. intros j. simpl. rewrite (fire_length _ _ _ _ Hfire).
    apply He.
Qed.

(** C6 (amended): for every pattern execution, of whatever executors run at
    the same time, on an orchestrator that has an LLM semaphore of capacity
    [limit]: at every point the number of chat calls in flight is at most
    [limit]; every branch whose call is in flight acquired a slot before and
    still holds it, so the slots taken are exactly the calls in flight; such
    a branch can always return, whether it succeeded, failed or was canceled,
    and its return frees its slot; the log shows as many acquisitions as
    releases plus calls in flight.  On an orchestrator whose semaphore is nil
    the block is skipped: no slot is ever taken, nothing is logged, no call in
    flight holds a slot, and every launched branch can issue its call at once,
    whatever the number of calls already in flight.  In both cases every
    branch belongs to one of the pattern executions. *)
Theorem semaphore_bounds_calls (semaphore : option nat) (e : Engine) :
  rtc engineStep (start semaphore) e →
  (∀ i, (i < length (branches (orchestrator e)))%nat →
        ∃ ex, ex ∈ executions e ∧ branchOf ex i)
  ∧ match semaphore with
    | Some limit =>
        (inFlight (orchestrator e) ≤ limit)%nat
        ∧ slotsTaken (orchestrator e) = inFlight (orchestrator e)
        ∧ (∀ i holds, branches (orchestrator e) !! i = Some (Calling holds) → holds = true)
        ∧ (∀ i how, branches (orchestrator e) !! i = Some (Calling true) →
             ∃ o', fire i how (orchestrator e) = Some o'
                 ∧ branches o' !! i = Some (Returned how)
                 ∧ S (slotsTaken o') = slotsTaken (orchestrator e)
                 ∧ S (inFlight o') = inFlight (orchestrator e))
        ∧ countIf isAcquired (debugLog (orchestrator e))
          = (inFlight (orchestrator e) + countIf isReleased (debugLog (orchestrator e)))%nat
    | None =>
        slotsTaken (orchestrator e) = 0%nat
        ∧ debugLog (orchestrator e) = []
        ∧ (∀ i holds, branches (orchestrator e) !! i = Some (Calling holds) → holds = false)
        ∧ (∀ i, branches (orchestrator e) !! i = Some Launched →
             ∃ o', fire i Succeeded (orchestrator e) = Some o'
                 ∧ branches o' !! i = Some (Calling false)
                 ∧ inFlight o' = S (inFlight (orchestrator e)))
    end.
Proof.
  intros Hreach. split.
  { eapply allOwned_engine; [|exact Hreach]. intros i. simpl. lia. }
  destruct semaphore as [limit|].
  - pose proof (consistent_engine limit (start (Some limit)) e
                  (consistent_forkJoin limit 0) Hreach) as Hcons.
    set (o := orchestrator e) in *.
    pose proof Hcons as (Hsem & Hheld & Hle & Hun & Hlog).
    assert (Hfl : inFlight o = slotsTaken o).
    { unfold inFlight. rewrite inFlight_split, Hun, Hheld. lia. }
    split; [lia|]. split; [done|]. split; [|split; [|lia]].
    + intros i [] Hb; [done|].
      by pose proof (countIf_zero_lookup isUnthrottled _ _ _ Hun Hb).
    + intros i how Hb. eexists. split; [unfold fire; by rewrite Hb|].
      assert (Hfire : fire i how o
                      = Some (update i (Returned how) (slotsTaken o - 1)
                                [EvReleased (i + 1)] o))
        by (unfold fire; by rewrite Hb).
      pose proof (consistent_fire _ _ _ _ _ Hcons Hfire) as (_ & Hheld' & _ & Hun' & _).
      pose proof (countIf_insert isHolder (branches o) i (Calling true) (Returned how) Hb)
        as Hh.
      simpl in *. split; [|split].
      * apply list_lookup_insert_eq. by eapply lookup_lt_Some.
      * lia.
      * rewrite Hfl. unfold inFlight. simpl. rewrite inFlight_split, Hun'. lia.
  - assert (Hstart : ungated (orchestrator (start None))) by done.
    pose proof (ungated_engine (start None) e Hstart Hreach) as (Hsem & Hslots & Hlog & Hheld).
    set (o := orchestrator e) in *.
    split; [done|]. split; [done|]. split.
    + intros i [] Hb; [|done].
      by pose proof (countIf_zero_lookup isHolder _ _ _ Hheld Hb).
    + intros i Hb. eexists. split; [unfold fire; by rewrite Hb, Hsem|].
      simpl. split; [apply list_lookup_insert_eq; by eapply lookup_lt_Some|].
      unfold inFlight. simpl.
      pose proof (countIf_insert isCalling (branches o) i Launched (Calling false) Hb).
      simpl in *. lia.
Qed.

Lemma semaphore_bounds_calls_witness :
  (inFlight (orchestrator mixedRun) ≤ llmConcurrencyLimit)%nat
  ∧ slotsTaken (orchestrator mixedRun) = inFlight (orchestrator mixedRun)
  ∧ ∃ ex, ex ∈ executions mixedRun ∧ branchOf ex 6.
Proof.
  destruct (semaphore_bounds_calls (Some llmConcurrencyLimit) mixedRun)
    as (Howned & Hbound & Hslots & _).
  - apply runEngine_reachable.
  - split; [exact Hbound|]. split; [exact Hslots|]. apply Howned. vm_compute. lia.
Defined.

(** *** Progress *)

Lemma countIf_pos_lookup {A : Type} (p : A → bool) (l : list A) :
  (0 < countIf p l)%nat → ∃ i x, l !! i = Some x ∧ p x = true.
Proof.
  induction l as [|z l IH]; simpl; [lia|]. intros Hpos.
  destruct (p z) eqn:Hz; [by exists 0%nat, z|].
  destruct IH as (i & x & Hl & Hx); [lia|]. by exists (S i), x.
Qed.

Lemma countIf_none {A : Type} (p : A → bool) (l : list A) :
  (∀ i x, l !! i = Some x → p x = false) → countIf p l = 0%nat.
Proof.
  induction l as [|z l IH]; intros Hall; simpl; [done|].
  rewrite (Hall 0%nat z eq_refl), IH; [done|].
  intros i x Hl. apply (Hall (S i) x Hl).
Qed.

(** With a semaphore of at least one slot the branches never block each
    other for good: while a branch has not returned, some branch can take its
    next step.  Once every branch has returned, no slot is taken and the log
    shows as many releases as acquisitions. *)
Theorem semaphore_progress (limit n : nat) (o : Orchestrator) :
  (0 < limit)%nat →
  rtc step (forkJoin (Some limit) n) o →
  ((∃ i b, branches o !! i = Some b ∧ isReturned b = false) →
   ∃ j how o', fire j how o = Some o')
  ∧ ((∀ i b, branches o !! i = Some b → isReturned b = true) →
     slotsTaken o = 0%nat
     ∧ inFlight o = 0%nat
     ∧ countIf isAcquired (debugLog o) = countIf isReleased (debugLog o)).
Proof.
  intros Hlimit Hreach.
  pose proof (consistent_reachable limit _ _ (consistent_forkJoin limit n) Hreach)
    as (Hsem & Hheld & Hle & Hun & Hlog).
  split.
  - intros (i & b & Hb & Hopen).
    destruct b as [| |holds|how]; [| | |done].
    + exists i, Succeeded. unfold fire. rewrite Hb, Hsem. by eexists.
    + destruct (decide (slotsTaken o < limit)%nat) as [Hfree|Hfull].
      * exists i, Succeeded. unfold fire. rewrite Hb, Hsem.
        rewrite bool_decide_eq_true_2 by done. by eexists.
      * destruct (countIf_pos_lookup isHolder (branches o)) as (j & x & Hj & Hx); [lia|].
        destruct x as [| |[]|]; try done.
        exists j, Succeeded. unfold fire. rewrite Hj. by eexists.
    + exists i, Succeeded. unfold fire. rewrite Hb. destruct holds; by eexists.
  - intros Hall.
    assert (Hnone : countIf isHolder (branches o) = 0%nat).
    { apply countIf_none. intros i x Hx. specialize (Hall i x Hx). by destruct x. }
    assert (Hcalls : countIf isCalling (branches o) = 0%nat).
    { apply countIf_none. intros i x Hx. specialize (Hall i x Hx). by destruct x. }
    unfold inFlight. rewrite Hlog, Hheld, Hnone, Hcalls. done.
Qed.

Lemma semaphore_progress_witness :
  ∃ j how o',
    fire j how (runSchedule [(0, Succeeded); (1, Succeeded); (2, Succeeded);
                             (0, Succeeded); (2, Succeeded); (1, Succeeded)]%nat
                  (forkJoin (Some llmConcurrencyLimit) 3)) = Some o'.
Proof.
  refine (proj1 (semaphore_progress llmConcurrencyLimit 3
                   (runSchedule [(0, Succeeded); (1, Succeeded); (2, Succeeded);
                                 (0, Succeeded); (2, Succeeded); (1, Succeeded)]%nat
                      (forkJoin (Some llmConcurrencyLimit) 3)) _ _) _).
  - unfold llmConcurrencyLimit. lia.
  - apply runSchedule_reachable.
  - exists 1%nat, Acquiring. split; vm_compute; reflexivity.
Defined.

End Semaphore.
